(** * golang-beginner-rest-api: the in-memory user store, its service and its router

    A shallow embedding of [users_store.go], [users_service.go],
    [users_handler.go] and of the helpers [writeJSON], [errorJSON], [readJSON],
    [requireMethods], with the properties of the specification stated and
    proved over it.

    Conventions.
    - Go's [int] is the 64-bit two's complement integer of the usual server
      targets; it is a [Z] in the range [int_min .. int_max] and [++] wraps.
    - A Go [string] is a sequence of bytes: a Rocq [string].
    - A Go [map[int]User] is a [gmap Z User].
    - [time.Now()] is an input of the operation that reads the clock.
    - The mutex of the store serialises the four operations, so a run of the
      store is a sequence of operations, each applied atomically. *)

From Stdlib Require Import ZArith Ascii String List Lia.
From stdpp Require Import base numbers option list sorting gmap strings fin_maps.

Local Open Scope Z_scope.
#[local] Set Warnings "-register-all".

(** ** Go's machine integers *)

Module GoInt.

Definition int_bits : Z := 64.
Definition int_max : Z := 2 ^ (int_bits - 1) - 1.
Definition int_min : Z := - 2 ^ (int_bits - 1).

(** The value an [int] computation yields: the mathematical result reduced
    to the two's complement range. *)
Definition int_wrap (z : Z) : Z :=
  (z - int_min) `mod` 2 ^ int_bits + int_min.

Definition in_int (z : Z) : Prop := int_min ≤ z ≤ int_max.

End GoInt.
Export GoInt.

(** ** The Go standard library, as far as the code calls it

    These functions are not part of the repository. They are written after
    the documentation and the sources of the Go standard library, restricted
    to the arguments the repository passes. *)

(** The numeric value of a byte, and the byte of a value below 256. *)
Definition byte (c : ascii) : Z := Z.of_N (N_of_ascii c).
Definition char (b : Z) : ascii := ascii_of_N (Z.to_N b).

Definition between (lo hi b : Z) : bool := (lo <=? b) && (b <=? hi).

(** [s[n:]], for [n] up to the length of [s]. *)
Fixpoint string_drop (n : nat) (s : string) : string :=
  match n, s with
  | S k, String _ r => string_drop k r
  | _, _ => s
  end.

(** [s == t] on Go strings. *)
Definition streq (s t : string) : bool := bool_decide (s = t).

(** *** unicode/utf8 *)

Module utf8.

Definition RuneError : Z := 65533.
Definition RuneSelf : Z := 128.
Definition MaxRune : Z := 1114111.

Definition cont (c : ascii) : bool := between 128 191 (byte c).
Definition low6 (c : ascii) : Z := Z.land (byte c) 63.

(** [RuneStart]: the byte is not a continuation byte. *)
Definition RuneStart (c : ascii) : bool := negb (Z.land (byte c) 192 =? 128).

(** [DecodeRuneInString]: the first rune of [s] and its width in bytes;
    [(RuneError, 1)] on a byte sequence that is not the UTF-8 encoding of a
    rune, [(RuneError, 0)] on the empty string. *)
Definition DecodeRuneInString (s : string) : Z * nat :=
  match s with
  | EmptyString => (RuneError, 0%nat)
  | String c0 r0 =>
      let b0 := byte c0 in
      if b0 <? RuneSelf then (b0, 1%nat)
      else if between 194 223 b0 then
        match r0 with
        | String c1 _ =>
            if cont c1
            then (Z.lor (Z.shiftl (Z.land b0 31) 6) (low6 c1), 2%nat)
            else (RuneError, 1%nat)
        | EmptyString => (RuneError, 1%nat)
        end
      else if between 224 239 b0 then
        match r0 with
        | String c1 (String c2 _) =>
            let lo := if b0 =? 224 then 160 else 128 in
            let hi := if b0 =? 237 then 159 else 191 in
            if between lo hi (byte c1) && cont c2
            then (Z.lor (Z.shiftl (Z.land b0 15) 12)
                    (Z.lor (Z.shiftl (low6 c1) 6) (low6 c2)), 3%nat)
            else (RuneError, 1%nat)
        | _ => (RuneError, 1%nat)
        end
      else if between 240 244 b0 then
        match r0 with
        | String c1 (String c2 (String c3 _)) =>
            let lo := if b0 =? 240 then 144 else 128 in
            let hi := if b0 =? 244 then 143 else 191 in
            if between lo hi (byte c1) && cont c2 && cont c3
            then (Z.lor (Z.shiftl (Z.land b0 7) 18)
                    (Z.lor (Z.shiftl (low6 c1) 12)
                       (Z.lor (Z.shiftl (low6 c2) 6) (low6 c3))), 4%nat)
            else (RuneError, 1%nat)
        | _ => (RuneError, 1%nat)
        end
      else (RuneError, 1%nat)
  end.

(** [DecodeLastRuneInString], on the reversed string [rs]: an ASCII last
    byte is its own rune; otherwise the nearest rune start among the three
    bytes before it opens the candidate, which counts when it decodes to a
    rune that ends exactly at the end of the string. *)
Definition DecodeLastRune_rev (rs : string) : Z * nat :=
  let try (bytes : string) (width : nat) : Z * nat :=
    let '(r, size) := DecodeRuneInString bytes in
    if bool_decide (size = width) then (r, size) else (RuneError, 1%nat) in
  match rs with
  | EmptyString => (RuneError, 0%nat)
  | String c1 r1 =>
      if byte c1 <? RuneSelf then (byte c1, 1%nat)
      else
        match r1 with
        | String c2 r2 =>
            if RuneStart c2 then try (String c2 (String c1 "")) 2%nat
            else
              match r2 with
              | String c3 r3 =>
                  if RuneStart c3
                  then try (String c3 (String c2 (String c1 ""))) 3%nat
                  else
                    match r3 with
                    | String c4 _ =>
                        if RuneStart c4
                        then try (String c4 (String c3 (String c2 (String c1 ""))))
                               4%nat
                        else (RuneError, 1%nat)
                    | EmptyString => (RuneError, 1%nat)
                    end
              | EmptyString => (RuneError, 1%nat)
              end
        | EmptyString => (RuneError, 1%nat)
        end
  end.

Definition DecodeLastRuneInString (s : string) : Z * nat :=
  DecodeLastRune_rev (String.rev s).

(** [AppendRune]: the UTF-8 encoding of [r], of [RuneError] when [r] is
    not a Unicode scalar value. *)
Definition EncodeRune (r : Z) : string :=
  let r := if (r <? 0) || (MaxRune <? r) || between 55296 57343 r
           then RuneError else r in
  let tail (sh : Z) : ascii := char (Z.lor 128 (Z.land (Z.shiftr r sh) 63)) in
  if r <? 128 then String (char r) ""
  else if r <? 2048 then
    String (char (Z.lor 192 (Z.shiftr r 6))) (String (tail 0) "")
  else if r <? 65536 then
    String (char (Z.lor 224 (Z.shiftr r 12)))
      (String (tail 6) (String (tail 0) ""))
  else
    String (char (Z.lor 240 (Z.shiftr r 18)))
      (String (tail 12) (String (tail 6) (String (tail 0) ""))).

End utf8.

(** *** unicode *)

Module unicode.

(** The code points with the property White_Space. *)
Definition White_Space : list Z :=
  [9; 10; 11; 12; 13; 32; 133; 160; 5760;
   8192; 8193; 8194; 8195; 8196; 8197; 8198; 8199; 8200; 8201; 8202;
   8232; 8233; 8239; 8287; 12288].

Definition IsSpace (r : Z) : bool := bool_decide (r ∈ White_Space).

End unicode.

(** *** strings *)

Module strings.

(** The loop of [TrimLeftFunc]: [skip] bytes of the rune being stepped
    over remain; the result starts at the first rune that [f] rejects. *)
Fixpoint TrimLeftFunc_go (f : Z → bool) (skip : nat) (s : string) : string :=
  match s with
  | EmptyString => EmptyString
  | String _ r =>
      match skip with
      | S k => TrimLeftFunc_go f k r
      | O =>
          let '(rune, size) := utf8.DecodeRuneInString s in
          if f rune then TrimLeftFunc_go f (size - 1) r else s
      end
  end.

Definition TrimLeftFunc (s : string) (f : Z → bool) : string :=
  TrimLeftFunc_go f 0 s.

(** The loop of [TrimRightFunc], on the reversed string. *)
Fixpoint TrimRightFunc_go (f : Z → bool) (skip : nat) (rs : string) : string :=
  match rs with
  | EmptyString => EmptyString
  | String _ r =>
      match skip with
      | S k => TrimRightFunc_go f k r
      | O =>
          let '(rune, size) := utf8.DecodeLastRune_rev rs in
          if f rune then TrimRightFunc_go f (size - 1) r else rs
      end
  end.

Definition TrimRightFunc (s : string) (f : Z → bool) : string :=
  String.rev (TrimRightFunc_go f 0 (String.rev s)).

Definition TrimFunc (s : string) (f : Z → bool) : string :=
  TrimRightFunc (TrimLeftFunc s f) f.

(** [TrimSpace]: [s] without its leading and trailing white space, as
    defined by Unicode. *)
Definition TrimSpace (s : string) : string := TrimFunc s unicode.IsSpace.

Definition in_cutset (cutset : string) (c : ascii) : bool :=
  bool_decide (c ∈ list_ascii_of_string cutset).

Fixpoint trimLeftBytes (cutset : string) (s : string) : string :=
  match s with
  | EmptyString => EmptyString
  | String c r => if in_cutset cutset c then trimLeftBytes cutset r else s
  end.

(** [Trim], for a cutset of ASCII bytes: [s] without its leading and
    trailing bytes that occur in [cutset]. *)
Definition Trim (s cutset : string) : string :=
  trimLeftBytes cutset
    (String.rev (trimLeftBytes cutset (String.rev s))).

(** [Split], for a separator of one byte: the pieces of [s] between the
    occurrences of [sep]; one piece, [s] itself, when there is none. *)
Fixpoint Split_go (sep : ascii) (cur : string) (s : string) : list string :=
  match s with
  | EmptyString => [String.rev cur]
  | String c r =>
      if bool_decide (c = sep)
      then String.rev cur :: Split_go sep EmptyString r
      else Split_go sep (String c cur) r
  end.

Definition Split (s : string) (sep : ascii) : list string :=
  Split_go sep EmptyString s.

Fixpoint Join (elems : list string) (sep : string) : string :=
  match elems with
  | [] => EmptyString
  | [e] => e
  | e :: es => e +:+ sep +:+ Join es sep
  end.

End strings.

(** *** strconv *)

Module strconv.

Inductive NumError : Type := ErrSyntax | ErrRange.

Definition maxUint64 : Z := 2 ^ 64 - 1.

(** The loop of [ParseUint] for base 10 and 64 bits. The result is the
    value and the error, as in Go. *)
Fixpoint ParseUint_go (n : Z) (s : string) : Z * option NumError :=
  match s with
  | EmptyString => (n, None)
  | String c r =>
      if between 48 57 (byte c) then
        let d := byte c - 48 in
        if (maxUint64 `div` 10 + 1 <=? n) then (maxUint64, Some ErrRange)
        else
          let n1 := n * 10 + d in
          if maxUint64 <? n1 then (maxUint64, Some ErrRange)
          else ParseUint_go n1 r
      else (0, Some ErrSyntax)
  end.

Definition ParseUint (s : string) : Z * option NumError :=
  match s with
  | EmptyString => (0, Some ErrSyntax)
  | _ => ParseUint_go 0 s
  end.

(** [ParseInt(s, 10, 0)] *)
Definition ParseInt (s : string) : Z * option NumError :=
  match s with
  | EmptyString => (0, Some ErrSyntax)
  | String c r =>
      let neg := bool_decide (c = "-"%char) in
      let s1 := if bool_decide (c = "+"%char) || neg then r else s in
      match ParseUint s1 with
      | (_, Some ErrSyntax) => (0, Some ErrSyntax)
      | (un, _) =>
          let cutoff := 2 ^ (int_bits - 1) in
          if negb neg && (cutoff <=? un) then (cutoff - 1, Some ErrRange)
          else if neg && (cutoff <? un) then (- cutoff, Some ErrRange)
          else (if neg then - un else un, None)
      end
  end.

(** [Atoi(s)] is [ParseInt(s, 10, 0)] converted to [int]. *)
Definition Atoi (s : string) : Z * option NumError := ParseInt s.

End strconv.

(** ** users_store.go *)

(** [time.Time]: the zero value [time.Time{}] and the instants the clock
    yields, as nanoseconds since the Unix epoch, in UTC. *)
Inductive Time : Type :=
  | TimeZero
  | TimeUTC (unix_nanos : Z).

Global Instance Time_eq_dec : EqDecision Time.
Proof. solve_decision. Defined.

Record User : Type := mkUser {
  ID : Z;
  Name : string;
  CreatedAt : Time
}.

Global Instance User_eq_dec : EqDecision User.
Proof. solve_decision. Defined.

(** [User{}] *)
Definition User_zero : User := mkUser 0 "" TimeZero.

Record UserStore : Type := mkUserStore {
  nextID : Z;
  items : gmap Z User
}.

Definition NewUserStore : UserStore :=
  {| nextID := 1; items := ∅ |}.

Definition Create (name : string) (now : Time) (s : UserStore) : User * UserStore :=
  let u := {| ID := nextID s; Name := name; CreatedAt := now |} in
  (u, {| nextID := int_wrap (nextID s + 1);
         items := <[ID u := u]> (items s) |}).

Definition Get (id : Z) (s : UserStore) : User * bool :=
  match items s !! id with
  | Some u => (u, true)
  | None => (User_zero, false)
  end.

Definition Delete (id : Z) (s : UserStore) : bool * UserStore :=
  match items s !! id with
  | None => (false, s)
  | Some _ => (true, {| nextID := nextID s; items := delete id (items s) |})
  end.

(** [for _, u := range s.items]: the loop body runs once per entry of the
    map, in an order the language leaves unspecified. [range_order m kvs]
    says that [kvs] is one such visiting order. *)
Definition range_order (m : gmap Z User) (kvs : list (Z * User)) : Prop :=
  kvs ≡ₚ map_to_list m.

(** The loop of [List]: [out = append(out, u)] for each visited entry. *)
Definition List_loop (kvs : list (Z * User)) : list User :=
  foldl (λ out kv, out ++ [kv.2]) [] kvs.

(** [List] may return [out]. *)
Definition List_returns (s : UserStore) (out : list User) : Prop :=
  ∃ kvs, range_order (items s) kvs ∧ out = List_loop kvs.

(** One admissible run of [List], for evaluation. *)
Definition List (s : UserStore) : list User :=
  List_loop (map_to_list (items s)).

(** *** Runs of the store *)

Inductive Op : Type :=
  | OpCreate (name : string) (now : Time)
  | OpGet (id : Z)
  | OpDelete (id : Z)
  | OpList.

Inductive Result : Type :=
  | RCreate (u : User)
  | RGet (u : User) (ok : bool)
  | RDelete (ok : bool)
  | RList (out : list User).

(** One call on the store: the operation, what it returned, the store after. *)
Inductive step : UserStore → Op → Result → UserStore → Prop :=
  | step_Create s name now :
      step s (OpCreate name now) (RCreate (Create name now s).1) (Create name now s).2
  | step_Get s id :
      step s (OpGet id) (RGet (Get id s).1 (Get id s).2) s
  | step_Delete s id :
      step s (OpDelete id) (RDelete (Delete id s).1) (Delete id s).2
  | step_List s out :
      List_returns s out →
      step s OpList (RList out) s.

(** A sequence of calls. *)
Inductive steps : UserStore → list Op → list Result → UserStore → Prop :=
  | steps_nil s : steps s [] [] s
  | steps_cons s op r s1 ops rs s2 :
      step s op r s1 →
      steps s1 ops rs s2 →
      steps s (op :: ops) (r :: rs) s2.

(** An executable run: each call applied in turn, [List] visiting the map in
    the order of [map_to_list]. *)
Definition exec_op (op : Op) (s : UserStore) : Result * UserStore :=
  match op with
  | OpCreate name now => let '(u, s') := Create name now s in (RCreate u, s')
  | OpGet id => let '(u, ok) := Get id s in (RGet u ok, s)
  | OpDelete id => let '(ok, s') := Delete id s in (RDelete ok, s')
  | OpList => (RList (List s), s)
  end.

Fixpoint run (ops : list Op) (s : UserStore) : list Result * UserStore :=
  match ops with
  | [] => ([], s)
  | op :: ops =>
      let '(r, s1) := exec_op op s in
      let '(rs, s2) := run ops s1 in
      (r :: rs, s2)
  end.

Definition is_create (op : Op) : bool :=
  match op with OpCreate _ _ => true | _ => false end.

Definition is_delete (op : Op) : bool :=
  match op with OpDelete _ => true | _ => false end.

Definition deletes_id (id : Z) (op : Op) : bool :=
  match op with OpDelete i => bool_decide (i = id) | _ => false end.

(** Number of [Create] calls of a run. *)
Definition creates (ops : list Op) : Z :=
  Z.of_nat (length (filter (λ op, is_create op = true) ops)).

(** The users the [Create] calls of a run returned, in call order. *)
Fixpoint created (rs : list Result) : list User :=
  match rs with
  | [] => []
  | RCreate u :: rs => u :: created rs
  | _ :: rs => created rs
  end.

(** ** encoding/json, io and net/http, as far as [readJSON] uses them

    Not part of the repository: written after the Go standard library
    ([encoding/json]'s scanner and decoder, [http.MaxBytesReader]). *)

(** A JSON value as the scanner delimits it. Strings are already unquoted,
    numbers are kept as their literal. *)
Inductive JSON : Type :=
  | JNull
  | JBool (b : bool)
  | JNumber (lit : string)
  | JString (s : string)
  | JArray (elems : list JSON)
  | JObject (members : list (string * JSON)).

Module json.

(** [isSpace] of the scanner. *)
Definition isSpace (c : ascii) : bool :=
  let b := byte c in
  (b =? 32) || (b =? 9) || (b =? 13) || (b =? 10).

Definition isDigit (c : ascii) : bool := between 48 57 (byte c).

Definition hexval (c : ascii) : option Z :=
  let b := byte c in
  if between 48 57 b then Some (b - 48)
  else if between 97 102 b then Some (b - 87)
  else if between 65 70 b then Some (b - 55)
  else None.

Definition maxNestingDepth : Z := 10000.

(** *** Unquoting a string literal that the scanner has accepted *)

(** [getu4]: the value of a [\uXXXX] at the start of [s], or -1. *)
Definition getu4 (s : string) : Z :=
  match s with
  | String c0 (String c1 (String h0 (String h1 (String h2 (String h3 _))))) =>
      if bool_decide (c0 = "\"%char) && bool_decide (c1 = "u"%char) then
        match hexval h0, hexval h1, hexval h2, hexval h3 with
        | Some a, Some b, Some c, Some d => ((a * 16 + b) * 16 + c) * 16 + d
        | _, _, _, _ => -1
        end
      else -1
  | _ => -1
  end.

(** [utf16.DecodeRune] *)
Definition utf16_DecodeRune (r1 r2 : Z) : Z :=
  if between 55296 56319 r1 && between 56320 57343 r2
  then Z.lor (Z.shiftl (r1 - 55296) 10) (r2 - 56320) + 65536
  else utf8.RuneError.

(** One step of [unquoteBytes] at the start of [s]: what is written and
    how many bytes of [s] are consumed. *)
Definition unquote_step (s : string) : string * nat :=
  match s with
  | EmptyString => (EmptyString, 0%nat)
  | String c r =>
      if bool_decide (c = "\"%char) then
        match r with
        | String e r1 =>
            if bool_decide (e = "u"%char) then
              let rr := getu4 s in
              if between 55296 57343 rr then
                let dec := utf16_DecodeRune rr (getu4 (string_drop 6 s)) in
                if dec =? utf8.RuneError
                then (utf8.EncodeRune utf8.RuneError, 6%nat)
                else (utf8.EncodeRune dec, 12%nat)
              else (utf8.EncodeRune rr, 6%nat)
            else
              let out :=
                if bool_decide (e = "b"%char) then char 8
                else if bool_decide (e = "f"%char) then char 12
                else if bool_decide (e = "n"%char) then char 10
                else if bool_decide (e = "r"%char) then char 13
                else if bool_decide (e = "t"%char) then char 9
                else e in
              (String out EmptyString, 2%nat)
        | EmptyString => (EmptyString, 1%nat)
        end
      else if byte c <? utf8.RuneSelf then (String c EmptyString, 1%nat)
      else
        let '(rr, size) := utf8.DecodeRuneInString s in
        (utf8.EncodeRune rr, size)
  end.

Fixpoint unquote_go (skip : nat) (s : string) : string :=
  match s with
  | EmptyString => EmptyString
  | String _ r =>
      match skip with
      | S k => unquote_go k r
      | O =>
          let '(out, size) := unquote_step s in
          out +:+ unquote_go (size - 1) r
      end
  end.

(** The text of a string literal, given what stands between its quotes. *)
Definition unquote (raw : string) : string := unquote_go 0 raw.

(** *** The scanner *)

(** What the scanner is inside of ([parseState]), with the part of the
    enclosing value read so far, last read first. *)
Inductive Frame : Type :=
  | FObjKey (members : list (string * JSON))
  | FObjColon (members : list (string * JSON)) (key : string)
  | FObjValue (members : list (string * JSON)) (key : string)
  | FObjNext (members : list (string * JSON))
  | FArrValue (elems : list JSON)
  | FArrNext (elems : list JSON).

(** The state functions of the scanner ([step]), with the text of the
    token being read, last byte first. *)
Inductive Step : Type :=
  | BeginValue
  | BeginValueOrEmpty
  | BeginString
  | BeginStringOrEmpty
  | EndValue
  | EndTop (v : JSON)
  | InString (raw : string)
  | InStringEsc (raw : string)
  | InStringEscU (raw : string) (digits : nat)
  | Neg (lit : string)
  | State1 (lit : string)
  | State0 (lit : string)
  | Dot (lit : string)
  | Dot0 (lit : string)
  | StateE (lit : string)
  | ESign (lit : string)
  | E0 (lit : string)
  | InLiteral (expect : string) (v : JSON).

Inductive StepResult : Type :=
  | Continue (step : Step) (stack : list Frame)
  | EndBefore (v : JSON)
  | EndAt (v : JSON)
  | ScanError.

(** A value is complete: it joins what encloses it, or it is the
    top-level value. *)
Definition value_done (v : JSON) (stack : list Frame) : Step * list Frame :=
  match stack with
  | [] => (EndTop v, [])
  | FArrValue es :: st => (EndValue, FArrNext (v :: es) :: st)
  | FObjValue ms k :: st => (EndValue, FObjNext ((k, v) :: ms) :: st)
  | FObjKey ms :: st =>
      (EndValue,
       FObjColon ms (match v with JString k => k | _ => EmptyString end) :: st)
  | f :: st => (EndValue, f :: st)
  end.

(** A closing bracket completes the enclosing value. At the top level the
    value ends with this byte. *)
Definition close (v : JSON) (st : list Frame) : StepResult :=
  match st with
  | [] => EndAt v
  | _ => let '(step, stack) := value_done v st in Continue step stack
  end.

Definition push (f : Frame) (step : Step) (stack : list Frame) : StepResult :=
  if bool_decide (Z.of_nat (length (f :: stack)) ≤ maxNestingDepth)
  then Continue step (f :: stack)
  else ScanError.

(** [stateEndValue] *)
Definition stateEndValue (stack : list Frame) (c : ascii) : StepResult :=
  if isSpace c then Continue EndValue stack
  else
    match stack with
    | FObjColon ms k :: st =>
        if bool_decide (c = ":"%char)
        then Continue BeginValue (FObjValue ms k :: st) else ScanError
    | FObjNext ms :: st =>
        if bool_decide (c = ","%char) then Continue BeginString (FObjKey ms :: st)
        else if bool_decide (c = "}"%char) then close (JObject (rev ms)) st
        else ScanError
    | FArrNext es :: st =>
        if bool_decide (c = ","%char) then Continue BeginValue (FArrValue es :: st)
        else if bool_decide (c = "]"%char) then close (JArray (rev es)) st
        else ScanError
    | _ => ScanError
    end.

(** The token before [c] is complete with value [v]; [c] is then read by
    [stateEndValue], or ends the top-level value. *)
Definition end_token (v : JSON) (stack : list Frame) (c : ascii) : StepResult :=
  match stack with
  | [] => EndBefore v
  | _ => stateEndValue (value_done v stack).2 c
  end.

(** [stateBeginValue] *)
Definition stateBeginValue (stack : list Frame) (c : ascii) : StepResult :=
  if isSpace c then Continue BeginValue stack
  else if bool_decide (c = "{"%char) then push (FObjKey []) BeginStringOrEmpty stack
  else if bool_decide (c = "["%char) then push (FArrValue []) BeginValueOrEmpty stack
  else if bool_decide (c = "034"%char) then Continue (InString EmptyString) stack
  else if bool_decide (c = "-"%char) then Continue (Neg (String c EmptyString)) stack
  else if bool_decide (c = "0"%char) then Continue (State0 (String c EmptyString)) stack
  else if bool_decide (c = "t"%char) then Continue (InLiteral "rue" (JBool true)) stack
  else if bool_decide (c = "f"%char) then Continue (InLiteral "alse" (JBool false)) stack
  else if bool_decide (c = "n"%char) then Continue (InLiteral "ull" JNull) stack
  else if between 49 57 (byte c) then Continue (State1 (String c EmptyString)) stack
  else ScanError.

(** [stateBeginString] *)
Definition stateBeginString (stack : list Frame) (c : ascii) : StepResult :=
  if isSpace c then Continue BeginString stack
  else if bool_decide (c = "034"%char) then Continue (InString EmptyString) stack
  else ScanError.

Definition number (lit : string) : JSON := JNumber (String.rev lit).

(** One byte through the scanner. *)
Definition scan_step (step : Step) (stack : list Frame) (c : ascii) : StepResult :=
  match step with
  | BeginValue => stateBeginValue stack c
  | BeginValueOrEmpty =>
      if isSpace c then Continue BeginValueOrEmpty stack
      else if bool_decide (c = "]"%char) then
        match stack with
        | FArrValue es :: st => close (JArray (rev es)) st
        | _ => ScanError
        end
      else stateBeginValue stack c
  | BeginStringOrEmpty =>
      if isSpace c then Continue BeginStringOrEmpty stack
      else if bool_decide (c = "}"%char) then
        match stack with
        | FObjKey ms :: st => close (JObject (rev ms)) st
        | _ => ScanError
        end
      else stateBeginString stack c
  | BeginString => stateBeginString stack c
  | EndValue => stateEndValue stack c
  | EndTop v => EndBefore v
  | InString raw =>
      if bool_decide (c = "034"%char) then
        let '(step, stack) := value_done (JString (unquote (String.rev raw))) stack in
        Continue step stack
      else if bool_decide (c = "\"%char) then Continue (InStringEsc (String c raw)) stack
      else if byte c <? 32 then ScanError
      else Continue (InString (String c raw)) stack
  | InStringEsc raw =>
      if bool_decide (c ∈ list_ascii_of_string "bfnrt\/")
         || bool_decide (c = "034"%char)
      then Continue (InString (String c raw)) stack
      else if bool_decide (c = "u"%char) then Continue (InStringEscU (String c raw) 0) stack
      else ScanError
  | InStringEscU raw n =>
      match hexval c with
      | Some _ =>
          if bool_decide (n = 3%nat) then Continue (InString (String c raw)) stack
          else Continue (InStringEscU (String c raw) (S n)) stack
      | None => ScanError
      end
  | Neg lit =>
      if bool_decide (c = "0"%char) then Continue (State0 (String c lit)) stack
      else if between 49 57 (byte c) then Continue (State1 (String c lit)) stack
      else ScanError
  | State1 lit =>
      if isDigit c then Continue (State1 (String c lit)) stack
      else if bool_decide (c = "."%char) then Continue (Dot (String c lit)) stack
      else if bool_decide (c = "e"%char) || bool_decide (c = "E"%char)
      then Continue (StateE (String c lit)) stack
      else end_token (number lit) stack c
  | State0 lit =>
      if bool_decide (c = "."%char) then Continue (Dot (String c lit)) stack
      else if bool_decide (c = "e"%char) || bool_decide (c = "E"%char)
      then Continue (StateE (String c lit)) stack
      else end_token (number lit) stack c
  | Dot lit =>
      if isDigit c then Continue (Dot0 (String c lit)) stack else ScanError
  | Dot0 lit =>
      if isDigit c then Continue (Dot0 (String c lit)) stack
      else if bool_decide (c = "e"%char) || bool_decide (c = "E"%char)
      then Continue (StateE (String c lit)) stack
      else end_token (number lit) stack c
  | StateE lit =>
      if bool_decide (c = "+"%char) || bool_decide (c = "-"%char)
      then Continue (ESign (String c lit)) stack
      else if isDigit c then Continue (E0 (String c lit)) stack
      else ScanError
  | ESign lit =>
      if isDigit c then Continue (E0 (String c lit)) stack else ScanError
  | E0 lit =>
      if isDigit c then Continue (E0 (String c lit)) stack
      else end_token (number lit) stack c
  | InLiteral expect v =>
      match expect with
      | String e rest =>
          if bool_decide (c = e) then
            match rest with
            | EmptyString =>
                let '(step, stack) := value_done v stack in Continue step stack
            | _ => Continue (InLiteral rest v) stack
            end
          else ScanError
      | EmptyString => ScanError
      end
  end.

Inductive ScanOutcome : Type :=
  | Complete (v : JSON) (rest : string)
  | SyntaxError
  | Pending (step : Step) (stack : list Frame).

(** The loop of [readValue] over the bytes at hand. *)
Fixpoint scan (step : Step) (stack : list Frame) (s : string) : ScanOutcome :=
  match s with
  | EmptyString => Pending step stack
  | String c r =>
      match scan_step step stack c with
      | Continue step' stack' => scan step' stack' r
      | EndBefore v => Complete v s
      | EndAt v => Complete v r
      | ScanError => SyntaxError
      end
  end.

End json.

(** *** Errors of the library *)

Inductive LibError : Type :=
  | io_EOF
  | io_ErrUnexpectedEOF
  | http_MaxBytesError
  | json_SyntaxError
  | json_UnmarshalTypeError
  | json_UnknownField (key : string)
  | errors_New (text : string)
  | strconv_ErrSyntax
  | strconv_ErrRange.

Global Instance LibError_eq_dec : EqDecision LibError.
Proof. solve_decision. Defined.

(** A Go string handed to the encoder: a string the model computes, or the
    message of a library error, whose wording is the library's. *)
Inductive Text : Type :=
  | Lit (s : string)
  | MessageOf (e : LibError).

Coercion Lit : string >-> Text.

(** The values the handlers pass as [any] to the JSON encoder. *)
Inductive Payload : Type :=
  | PText (t : Text)
  | PInt (n : Z)
  | PBool (b : bool)
  | PStrings (l : list string)
  | PUser (u : User)
  | PUsers (l : list User)
  | PMap (m : gmap string Payload).

(** ** app_error.go *)

Record AppError : Type := mkAppError {
  Status : Z;
  Code : string;
  Message : string;
  Details : option Payload
}.

(** A Go [error]: nil is [None] of [option error]. *)
Inductive error : Type :=
  | Lib (e : LibError)
  | App (e : AppError).

Definition Error (e : error) : Text :=
  match e with
  | App a => Lit (Code a +:+ ": " +:+ Message a)
  | Lib (errors_New text) => Lit text
  | Lib io_EOF => Lit "EOF"
  | Lib io_ErrUnexpectedEOF => Lit "unexpected EOF"
  | Lib http_MaxBytesError => Lit "http: request body too large"
  | Lib strconv_ErrSyntax => Lit "invalid syntax"
  | Lib strconv_ErrRange => Lit "value out of range"
  | Lib l => MessageOf l
  end.

(** [errors.Is(err, io.EOF)] *)
Definition is_EOF (err : option LibError) : bool :=
  match err with Some io_EOF => true | _ => false end.

(** *** net/http *)

Module http.

Definition MethodGet : string := "GET".
Definition MethodPost : string := "POST".
Definition MethodDelete : string := "DELETE".

Definition StatusOK : Z := 200.
Definition StatusCreated : Z := 201.
Definition StatusBadRequest : Z := 400.
Definition StatusNotFound : Z := 404.
Definition StatusMethodNotAllowed : Z := 405.
Definition StatusInternalServerError : Z := 500.

(** The request, as far as the handlers read it: [r.Method],
    [r.URL.Path] and the bytes of [r.Body]. *)
Record Request : Type := mkRequest {
  Method : string;
  Path : string;
  Body : string
}.

(** What a handler has done to its [http.ResponseWriter]: the header map,
    the status of [WriteHeader], the values encoded to the body. *)
Record ResponseWriter : Type := mkResponseWriter {
  Header : gmap string string;
  StatusCode : option Z;
  Written : list Payload
}.

Definition NewResponseWriter : ResponseWriter :=
  {| Header := ∅; StatusCode := None; Written := [] |}.

(** [w.Header().Set(key, value)] *)
Definition Header_Set (key value : string) (w : ResponseWriter) : ResponseWriter :=
  {| Header := <[key := value]> (Header w);
     StatusCode := StatusCode w; Written := Written w |}.

(** [w.WriteHeader(status)]: the first call fixes the status. *)
Definition WriteHeader (status : Z) (w : ResponseWriter) : ResponseWriter :=
  {| Header := Header w;
     StatusCode := match StatusCode w with
                   | None => Some status
                   | Some st => Some st
                   end;
     Written := Written w |}.

(** [json.NewEncoder(w).Encode(payload)] *)
Definition Encode (payload : Payload) (w : ResponseWriter) : ResponseWriter :=
  {| Header := Header w; StatusCode := StatusCode w;
     Written := Written w ++ [payload] |}.

(** A body behind [MaxBytesReader(w, body, n)]: the bytes it yields and
    the error it reports after them. *)
Record Reader : Type := mkReader {
  data : string;
  at_end : LibError
}.

Definition string_take (n : nat) (s : string) : string :=
  String.substring 0 n s.

Definition MaxBytesReader (body : string) (n : Z) : Reader :=
  if Z.of_nat (String.length body) <=? n
  then {| data := body; at_end := io_EOF |}
  else {| data := string_take (Z.to_nat n) body; at_end := http_MaxBytesError |}.

End http.
Export http.

(** *** The decoder *)

Module Decoder.

(** A [json.Decoder] over a reader: the bytes not yet consumed, the error
    of the reader behind them, the option [DisallowUnknownFields], and
    the error the decoder has kept. *)
Record Decoder : Type := mkDecoder {
  buf : string;
  rd_err : LibError;
  disallowUnknownFields : bool;
  err : option LibError
}.

Definition NewDecoder (r : Reader) : Decoder :=
  {| buf := data r; rd_err := at_end r;
     disallowUnknownFields := false; err := None |}.

Definition DisallowUnknownFields (d : Decoder) : Decoder :=
  {| buf := buf d; rd_err := rd_err d;
     disallowUnknownFields := true; err := err d |}.

Definition with_buf (d : Decoder) (b : string) : Decoder :=
  {| buf := b; rd_err := rd_err d;
     disallowUnknownFields := disallowUnknownFields d; err := err d |}.

Definition with_err (d : Decoder) (e : LibError) : Decoder :=
  {| buf := buf d; rd_err := rd_err d;
     disallowUnknownFields := disallowUnknownFields d; err := Some e |}.

Fixpoint nonSpace (s : string) : bool :=
  match s with
  | EmptyString => false
  | String c r => negb (json.isSpace c) || nonSpace r
  end.

(** [readValue]: the next JSON value of the input. When the bytes run out
    the error of the reader decides: at [io.EOF] a value that a further
    byte could only end is complete, blank input is [io.EOF], a value cut
    short is [io.ErrUnexpectedEOF]; any other error is returned. *)
Definition readValue (d : Decoder) : (JSON + LibError) * Decoder :=
  match json.scan json.BeginValue [] (buf d) with
  | json.Complete v rest => (inl v, with_buf d rest)
  | json.SyntaxError => (inr json_SyntaxError, with_err d json_SyntaxError)
  | json.Pending step stack =>
      if bool_decide (rd_err d = io_EOF) then
        match json.scan_step step stack " "%char with
        | json.EndBefore v => (inl v, with_buf d EmptyString)
        | _ =>
            let e := if nonSpace (buf d) then io_ErrUnexpectedEOF else io_EOF in
            (inr e, with_err d e)
        end
      else (inr (rd_err d), with_err d (rd_err d))
  end.

(** The second pass of [Decode], which stores the value into the
    destination: a type of destinations comes with its own. *)
Class Unmarshal (T : Type) : Type :=
  unmarshal : bool → JSON → T → T * option LibError.

(** [dec.Decode(dst)] *)
Definition Decode {T} `{Unmarshal T} (d : Decoder) (dst : T)
    : T * option LibError * Decoder :=
  match err d with
  | Some e => (dst, Some e, d)
  | None =>
      match readValue d with
      | (inr e, d') => (dst, Some e, d')
      | (inl v, d') =>
          let '(dst', e) := unmarshal (disallowUnknownFields d') v dst in
          (dst', e, d')
      end
  end.

(** Field names match exactly or, failing that, without regard to case. *)
Definition lower (c : ascii) : ascii :=
  if between 65 90 (byte c) then char (byte c + 32) else c.

Fixpoint foldName (s : string) : string :=
  match s with
  | EmptyString => EmptyString
  | String c r => String (lower c) (foldName r)
  end.

Definition field_matches (key name : string) : bool :=
  streq key name || streq (foldName key) (foldName name).

(** The first error is the one [Decode] returns ([saveError]). *)
Definition saveError (saved : option LibError) (e : LibError) : option LibError :=
  match saved with
  | Some e0 => Some e0
  | None => Some e
  end.

(** [struct{}]: the destination of the second [Decode] of [readJSON]. *)
Inductive emptyStruct : Type := EmptyStruct.

Global Instance Unmarshal_emptyStruct : Unmarshal emptyStruct :=
  λ disallow v dst,
    match v with
    | JNull => (dst, None)
    | JObject ms =>
        (dst,
         foldl (λ saved kv,
                  if disallow then saveError saved (json_UnknownField kv.1)
                  else saved) None ms)
    | _ => (dst, Some json_UnmarshalTypeError)
    end.

End Decoder.
Export Decoder.

(** ** The JSON helpers of the repository *)

Definition writeJSON (w : ResponseWriter) (status : Z) (payload : Payload)
    : ResponseWriter :=
  let w := Header_Set "Content-Type" "application/json" w in
  let w := WriteHeader status w in
  Encode payload w.

Definition errorJSON (w : ResponseWriter) (status : Z) (code : string)
    (message : Text) (details : option Payload) : ResponseWriter :=
  let resp : gmap string Payload :=
    {[ "error" := PText code; "message" := PText message ]} in
  let resp := match details with
              | Some d => <["details" := d]> resp
              | None => resp
              end in
  writeJSON w status (PMap resp).

Definition readJSON {T} `{Unmarshal T} (w : ResponseWriter) (r : Request) (dst : T)
    : T * option error :=
  (* limit 1MB *)
  let body := MaxBytesReader (Body r) (Z.shiftl 1 20) in
  let dec := NewDecoder body in
  let dec := DisallowUnknownFields dec in
  match Decode dec dst with
  | (dst, Some e, _) => (dst, Some (Lib e))
  | (dst, None, dec) =>
      match Decode dec EmptyStruct with
      | (_, e, _) =>
          if negb (is_EOF e)
          then (dst, Some (Lib (errors_New "unexpected extra JSON content")))
          else (dst, None)
      end
  end.

Definition requireMethod (w : ResponseWriter) (r : Request) (method : string)
    : bool * ResponseWriter :=
  if streq (Method r) method then (true, w)
  else
    (false,
     errorJSON w StatusMethodNotAllowed "method_not_allowed" "method not allowed"
       (Some (PMap {[ "method" := PText (Method r); "allow" := PText method ]}))).

Definition requireMethods (w : ResponseWriter) (r : Request) (allowed : list string)
    : bool * ResponseWriter :=
  if existsb (λ m, streq (Method r) m) allowed then (true, w)
  else
    let w := Header_Set "Allow" (strings.Join allowed ", ") w in
    (false,
     errorJSON w StatusMethodNotAllowed "method_not_allowed" "method not allowed"
       (Some (PMap {[ "method" := PText (Method r); "allow" := PStrings allowed ]}))).

(** ** users_service.go *)

(** What a request reads from outside the program: the clock, and the order
    in which [range] visits a map. *)
Record Env : Type := mkEnv {
  env_now : Time;
  env_range : gmap Z User → list (Z * User)
}.

(** [range] visits every entry once. *)
Definition Env_ok (env : Env) : Prop :=
  ∀ m, range_order m (env_range env m).

Definition Env_default (t : Time) : Env :=
  {| env_now := t; env_range := map_to_list |}.

(** The calls that reach the service and the store, in order. *)
Inductive Call : Type :=
  | CallCreateUser (name : string)
  | CallGetUser (id : Z)
  | CallDeleteUser (id : Z)
  | CallListUsers
  | CallCreate (name : string)
  | CallGet (id : Z)
  | CallDelete (id : Z)
  | CallList.

(** The store behind the service, and the calls made so far. *)
Record World : Type := mkWorld {
  store : UserStore;
  calls : list Call
}.

Definition called (c : Call) (σ : World) : World :=
  {| store := store σ; calls := calls σ ++ [c] |}.

Definition with_store (σ : World) (s : UserStore) : World :=
  {| store := s; calls := calls σ |}.

(** The methods of the store, called on the store of the world. *)
Definition store_Create (env : Env) (name : string) (σ : World) : User * World :=
  let σ := called (CallCreate name) σ in
  let '(u, s) := Create name (env_now env) (store σ) in
  (u, with_store σ s).

Definition store_Get (id : Z) (σ : World) : User * bool * World :=
  let σ := called (CallGet id) σ in
  (Get id (store σ), σ).

Definition store_Delete (id : Z) (σ : World) : bool * World :=
  let σ := called (CallDelete id) σ in
  let '(ok, s) := Delete id (store σ) in
  (ok, with_store σ s).

Definition store_List (env : Env) (σ : World) : list User * World :=
  let σ := called CallList σ in
  (List_loop (env_range env (items (store σ))), σ).

Definition CreateUser (env : Env) (name : string) (σ : World)
    : User * option error * World :=
  let σ := called (CallCreateUser name) σ in
  let name := strings.TrimSpace name in
  if streq name "" then
    (User_zero,
     Some (App {| Status := StatusBadRequest;
                  Code := "validation_failed";
                  Message := "missing required fields";
                  Details := Some (PStrings ["name is required"]) |}),
     σ)
  else
    let '(u, σ) := store_Create env name σ in
    (u, None, σ).

Definition GetUser (id : Z) (σ : World) : User * option error * World :=
  let σ := called (CallGetUser id) σ in
  let '(u, ok, σ) := store_Get id σ in
  if negb ok then
    (User_zero,
     Some (App {| Status := StatusNotFound;
                  Code := "not_found";
                  Message := "resource not found";
                  Details := None |}),
     σ)
  else (u, None, σ).

Definition DeleteUser (id : Z) (σ : World) : option error * World :=
  let σ := called (CallDeleteUser id) σ in
  let '(ok, σ) := store_Delete id σ in
  if negb ok then
    (Some (App {| Status := StatusNotFound;
                  Code := "not_found";
                  Message := "resource not found";
                  Details := None |}),
     σ)
  else (None, σ).

Definition ListUsers (env : Env) (σ : World) : list User * World :=
  let σ := called CallListUsers σ in
  store_List env σ.

(** ** users_handler.go *)

(** [createUserRequest], the body of [POST /users]. *)
Record createUserRequest : Type := mkCreateUserRequest {
  req_Name : string
}.

(** Decoding into [createUserRequest]: [null] changes nothing; of an object
    each member is stored into the field its key names, a string into
    [Name]; a key that names no field is an error under
    [DisallowUnknownFields]; any other value does not fit. *)
Global Instance Unmarshal_createUserRequest : Unmarshal createUserRequest :=
  λ disallow v dst,
    match v with
    | JNull => (dst, None)
    | JObject ms =>
        foldl (λ '(dst, saved) kv,
                 if field_matches kv.1 "name" then
                   match kv.2 with
                   | JString s => ({| req_Name := s |}, saved)
                   | JNull => (dst, saved)
                   | _ => (dst, saveError saved json_UnmarshalTypeError)
                   end
                 else if disallow
                 then (dst, saveError saved (json_UnknownField kv.1))
                 else (dst, saved))
          (dst, None) ms
    | _ => (dst, Some json_UnmarshalTypeError)
    end.

Definition parsePositiveInt (s : string) : Z * option error :=
  let s := strings.TrimSpace s in
  let '(n, err) := strconv.Atoi s in
  if bool_decide (err ≠ None) || (n <=? 0) then (0, Some (Lib strconv_ErrSyntax))
  else (n, None).

Definition writeAppError (w : ResponseWriter) (err : error) : ResponseWriter :=
  match err with
  | App ae => errorJSON w (Status ae) (Code ae) (Message ae) (Details ae)
  | _ =>
      errorJSON w StatusInternalServerError "internal_error" "unexpected error" None
  end.

(** /users -> GET list, POST create *)
Definition HandleUsers (env : Env) (w : ResponseWriter) (r : Request) (σ : World)
    : ResponseWriter * World :=
  let '(ok, w) := requireMethods w r [MethodGet; MethodPost] in
  if negb ok then (w, σ)
  else if streq (Method r) MethodGet then
    let '(users, σ) := ListUsers env σ in
    (writeJSON w StatusOK
       (PMap {[ "items" := PUsers users;
                "count" := PInt (Z.of_nat (length users)) ]}),
     σ)
  else if streq (Method r) MethodPost then
    let req := {| req_Name := "" |} in
    match readJSON w r req with
    | (_, Some err) =>
        (errorJSON w StatusBadRequest "invalid_json" (Error err) None, σ)
    | (req, None) =>
        match CreateUser env (req_Name req) σ with
        | (_, Some err, σ) => (writeAppError w err, σ)
        | (u, None, σ) => (writeJSON w StatusCreated (PUser u), σ)
        end
    end
  else (w, σ).

(** [parts] of [HandleUserRoutes]: the segments of the path after the
    prefix. *)
Definition route_parts (path : string) : list string :=
  let rest := strings.Trim (string_drop (String.length "/users/") path) "/" in
  strings.Split rest "/"%char.

(** /users/{id}, /users/{id}/profile, /users/{id}/orders/{orderId} *)
Definition HandleUserRoutes (env : Env) (w : ResponseWriter) (r : Request) (σ : World)
    : ResponseWriter * World :=
  let prefix := "/users/" in
  let path := Path r in
  if (String.length path <=? String.length prefix)%nat then
    (errorJSON w StatusBadRequest "invalid_path" "user id is required" None, σ)
  else
    let parts := route_parts path in
    let '(id, err) := parsePositiveInt (default "" (head parts)) in
    if bool_decide (err ≠ None) then
      (errorJSON w StatusBadRequest "invalid_path"
         "user id must be a positive integer" None, σ)
    else
      let not_found (w : ResponseWriter) (σ : World) :=
        (errorJSON w StatusNotFound "not_found" "resource not found"
           (Some (PMap {[ "path" := PText (Path r) ]})), σ) in
      (* /users/{id}/profile *)
      let profile (w : ResponseWriter) (σ : World) (k : ResponseWriter → World → ResponseWriter * World) :=
        if bool_decide (length parts = 2%nat)
           && streq (default "" (parts !! 1%nat)) "profile" then
          let '(ok, w) := requireMethods w r [MethodGet] in
          if negb ok then (w, σ)
          else
            match GetUser id σ with
            | (_, Some err, σ) => (writeAppError w err, σ)
            | (_, None, σ) =>
                (writeJSON w StatusOK
                   (PMap {[ "id" := PInt id; "profile" := PBool true ]}), σ)
            end
        else k w σ in
      (* /users/{id}/orders/{orderId} *)
      let orders (w : ResponseWriter) (σ : World) (k : ResponseWriter → World → ResponseWriter * World) :=
        if bool_decide (length parts = 3%nat)
           && streq (default "" (parts !! 1%nat)) "orders" then
          let '(ok, w) := requireMethods w r [MethodGet] in
          if negb ok then (w, σ)
          else
            let orderId := strings.TrimSpace (default "" (parts !! 2%nat)) in
            if streq orderId "" then
              (errorJSON w StatusBadRequest "invalid_path" "orderId is required" None,
               σ)
            else
              match GetUser id σ with
              | (_, Some err, σ) => (writeAppError w err, σ)
              | (_, None, σ) =>
                  (writeJSON w StatusOK
                     (PMap {[ "id" := PInt id; "orderId" := PText orderId ]}), σ)
              end
        else k w σ in
      let rest (w : ResponseWriter) (σ : World) :=
        profile w σ (λ w σ, orders w σ not_found) in
      (* /users/{id} *)
      if bool_decide (length parts = 1%nat) then
        let '(ok, w) := requireMethods w r [MethodGet; MethodDelete] in
        if negb ok then (w, σ)
        else if streq (Method r) MethodGet then
          match GetUser id σ with
          | (_, Some err, σ) => (writeAppError w err, σ)
          | (u, None, σ) => (writeJSON w StatusOK (PUser u), σ)
          end
        else if streq (Method r) MethodDelete then
          match DeleteUser id σ with
          | (Some err, σ) => (writeAppError w err, σ)
          | (None, σ) =>
              (writeJSON w StatusOK
                 (PMap {[ "deleted" := PBool true; "id" := PInt id ]}), σ)
          end
        else rest w σ
      else rest w σ.

(** ** main.go: the handlers that [main] registers besides the users routes

    The handlers are function literals in the source; they are named here
    after the route they serve. *)

(** Storing a JSON value into a field of type [*int] ([cur] is the pointer
    before, nil being [None]): [null] makes the pointer nil; any other value
    first makes a nil pointer point to a fresh zero; a number literal that
    [strconv.ParseInt] reads as an [int] is then stored behind it; anything
    else does not fit. *)
Definition store_int_ptr (v : JSON) (cur : option Z) : option Z * option LibError :=
  match v with
  | JNull => (None, None)
  | JNumber lit =>
      match strconv.ParseInt lit with
      | (n, None) => (Some n, None)
      | (_, Some _) => (Some (default 0 cur), Some json_UnmarshalTypeError)
      end
  | _ => (Some (default 0 cur), Some json_UnmarshalTypeError)
  end.

(** [sumRequest], the body of [POST /sum]. *)
Record sumRequest : Type := mkSumRequest {
  sum_A : option Z;
  sum_B : option Z
}.

Global Instance Unmarshal_sumRequest : Unmarshal sumRequest :=
  λ disallow v dst,
    match v with
    | JNull => (dst, None)
    | JObject ms =>
        foldl (λ '(dst, saved) kv,
                 if field_matches kv.1 "a" then
                   let '(a, e) := store_int_ptr kv.2 (sum_A dst) in
                   ({| sum_A := a; sum_B := sum_B dst |},
                    match e with Some e => saveError saved e | None => saved end)
                 else if field_matches kv.1 "b" then
                   let '(b, e) := store_int_ptr kv.2 (sum_B dst) in
                   ({| sum_A := sum_A dst; sum_B := b |},
                    match e with Some e => saveError saved e | None => saved end)
                 else if disallow
                 then (dst, saveError saved (json_UnknownField kv.1))
                 else (dst, saved))
          (dst, None) ms
    | _ => (dst, Some json_UnmarshalTypeError)
    end.

(** [mulRequest], the body of [POST /mul]. *)
Record mulRequest : Type := mkMulRequest {
  mul_A : option Z;
  mul_B : option Z
}.

Global Instance Unmarshal_mulRequest : Unmarshal mulRequest :=
  λ disallow v dst,
    match v with
    | JNull => (dst, None)
    | JObject ms =>
        foldl (λ '(dst, saved) kv,
                 if field_matches kv.1 "a" then
                   let '(a, e) := store_int_ptr kv.2 (mul_A dst) in
                   ({| mul_A := a; mul_B := mul_B dst |},
                    match e with Some e => saveError saved e | None => saved end)
                 else if field_matches kv.1 "b" then
                   let '(b, e) := store_int_ptr kv.2 (mul_B dst) in
                   ({| mul_A := mul_A dst; mul_B := b |},
                    match e with Some e => saveError saved e | None => saved end)
                 else if disallow
                 then (dst, saveError saved (json_UnknownField kv.1))
                 else (dst, saved))
          (dst, None) ms
    | _ => (dst, Some json_UnmarshalTypeError)
    end.

(** GET / *)
Definition HandleRoot (w : ResponseWriter) (r : Request) : ResponseWriter :=
  if negb (streq (Path r) "/") then
    writeJSON w StatusNotFound
      (PMap {[ "error" := PText "not_found"; "path" := PText (Path r) ]})
  else
    writeJSON w StatusOK
      (PMap {[ "service" := PText "golang-beginner-rest";
               "routes" := PStrings ["GET /health"; "GET /time"] ]}).

(** GET /health *)
Definition HandleHealth (w : ResponseWriter) (r : Request) : ResponseWriter :=
  let '(ok, w) := requireMethod w r MethodPost in
  if negb ok then w
  else writeJSON w StatusOK (PMap {[ "status" := PText "ok" ]}).

(** POST /sum *)
Definition HandleSum (w : ResponseWriter) (r : Request) : ResponseWriter :=
  let '(ok, w) := requireMethod w r MethodPost in
  if negb ok then w
  else
    let req := {| sum_A := None; sum_B := None |} in
    match readJSON w r req with
    | (_, Some err) => errorJSON w StatusBadRequest "invalid_json" (Error err) None
    | (req, None) =>
        match sum_A req, sum_B req with
        | Some a, Some b =>
            writeJSON w StatusOK (PMap {[ "result" := PInt (int_wrap (a + b)) ]})
        | _, _ =>
            errorJSON w StatusBadRequest "validation_failed"
              "missing required fields"
              (Some (PStrings ["a is required"; "b is required"]))
        end
    end.

(** POST /mul *)
Definition HandleMul (w : ResponseWriter) (r : Request) : ResponseWriter :=
  let '(ok, w) := requireMethod w r MethodPost in
  if negb ok then w
  else
    let req := {| mul_A := None; mul_B := None |} in
    match readJSON w r req with
    | (_, Some err) => errorJSON w StatusBadRequest "invalid_json" (Error err) None
    | (req, None) =>
        match mul_A req, mul_B req with
        | Some a, Some b =>
            writeJSON w StatusOK (PMap {[ "result" := PInt (int_wrap (a * b)) ]})
        | _, _ =>
            errorJSON w StatusBadRequest "validation_failed"
              "missing required fields"
              (Some (PStrings ["a is required"; "b is required"]))
        end
    end.

(** ** Vocabulary of the statements *)

(** [c] occurs in [s]. *)
Fixpoint has_byte (c : ascii) (s : string) : bool :=
  match s with
  | EmptyString => false
  | String d r => bool_decide (d = c) || has_byte c r
  end.

(** A path segment: not empty, no slash in it. *)
Definition segment (s : string) : Prop :=
  s ≠ EmptyString ∧ has_byte "/"%char s = false.

(** What follows a segment in a path: nothing, or a slash and more. *)
Definition path_tail (t : string) : Prop :=
  t = EmptyString ∨ ∃ t', t = String "/"%char t'.

(** The JSON object of an error response:
    [{"error": code, "message": message, "details": details}], the last
    member only when there are details. *)
Definition error_body (code : string) (message : Text) (details : option Payload)
    : Payload :=
  match details with
  | Some d =>
      PMap {[ "error" := PText code; "message" := PText message; "details" := d ]}
  | None => PMap {[ "error" := PText code; "message" := PText message ]}
  end.

(** The handler has answered with this status and this JSON value, and
    nothing else. *)
Definition responds (w : ResponseWriter) (status : Z) (payload : Payload) : Prop :=
  StatusCode w = Some status ∧
  Written w = [payload] ∧
  Header w !! "Content-Type" = Some "application/json".

(** A string of white space: the UTF-8 encodings of code points with the
    property White_Space, one after the other. *)
Definition blank (s : string) : Prop :=
  ∃ runes, Forall (λ r, r ∈ unicode.White_Space) runes ∧
           s = foldr (λ r acc, utf8.EncodeRune r +:+ acc) EmptyString runes.

(** An ASCII character other than white space. *)
Definition visible (c : ascii) : Prop :=
  byte c < utf8.RuneSelf ∧ unicode.IsSpace (byte c) = false.

(** A text that begins and ends with an ASCII character other than white
    space; between the two anything may stand, white space as well. *)
Definition solid (core : string) : Prop :=
  ∃ c rest d tser,
    core = String c rest ∧ String.rev core = String d tser ∧
    visible c ∧ visible d.

(** The value of a string of decimal digits read after the value [acc],
    [None] when a byte is not a digit. *)
Fixpoint digits_from (acc : Z) (s : string) : option Z :=
  match s with
  | EmptyString => Some acc
  | String c r =>
      if between 48 57 (byte c) then digits_from (acc * 10 + (byte c - 48)) r
      else None
  end.

Definition digits_value (s : string) : option Z := digits_from 0 s.

(** The decimal form of a natural number, without leading zeros. *)
Fixpoint decimal_go (fuel : nat) (n : Z) (acc : string) : string :=
  match fuel with
  | O => acc
  | S fuel =>
      let acc := String (char (48 + n `mod` 10)) acc in
      if n <? 10 then acc else decimal_go fuel (n `div` 10) acc
  end.

Definition decimal (n : Z) : string :=
  decimal_go (S (Z.to_nat (Z.log2 n))) n EmptyString.

Fixpoint zeros (k : nat) : string :=
  match k with
  | O => EmptyString
  | S k => String "0"%char (zeros k)
  end.

(** [s] is a decimal numeral of [n]: an optional sign and at least one
    digit. *)
Definition numeral (s : string) (n : Z) : Prop :=
  ∃ sign ds m,
    s = sign +:+ ds ∧ ds ≠ EmptyString ∧ digits_value ds = Some m ∧
    ((sign = EmptyString ∧ n = m) ∨ (sign = "+" ∧ n = m) ∨ (sign = "-" ∧ n = - m)).

(** The error of [CreateUser] on a blank name. *)
Definition validation_error : AppError :=
  {| Status := 400;
     Code := "validation_failed";
     Message := "missing required fields";
     Details := Some (PStrings ["name is required"]) |}.

(** The first JSON value of a body, as the scanner reads it. *)
Definition first_value (body : string) : json.ScanOutcome :=
  json.scan json.BeginValue [] body.

(** The body is longer than 1 MiB. *)
Definition oversized (r : Request) : Prop :=
  2 ^ 20 < Z.of_nat (String.length (Body r)).

(** The body starts with a JSON object one of whose keys names no field of
    [createUserRequest]. *)
Definition has_unknown_field (r : Request) : Prop :=
  ∃ ms rest key v,
    first_value (Body r) = json.Complete (JObject ms) rest ∧
    (key, v) ∈ ms ∧ field_matches key "name" = false.

(** After its first JSON value the body goes on with something else than
    JSON white space. *)
Definition has_trailing_content (r : Request) : Prop :=
  ∃ v rest,
    first_value (Body r) = json.Complete v rest ∧ nonSpace rest = true.

(** [store_inv n s]: [s] is a store on which [Create] has run [n] times since
    [NewUserStore], the counter not having left the range of [int]. *)
Definition store_inv (n : Z) (s : UserStore) : Prop :=
  0 ≤ n ≤ int_max ∧
  nextID s = int_wrap (1 + n) ∧
  ∀ k u, items s !! k = Some u → ID u = k ∧ 1 ≤ k ≤ n.

(** The error of [GetUser] and [DeleteUser] on an id that is not stored. *)
Definition not_found_error : AppError :=
  {| Status := 404;
     Code := "not_found";
     Message := "resource not found";
     Details := None |}.

(** The status codes and the error codes of the users routes. *)
Definition users_statuses : list Z := [200; 201; 400; 404; 405].

Definition users_error_codes : list string :=
  ["validation_failed"; "not_found"; "invalid_json"; "invalid_path";
   "method_not_allowed"].

(** The [Delete] calls of a run that removed a record. *)
Fixpoint removed (rs : list Result) : Z :=
  match rs with
  | [] => 0
  | RDelete true :: rs => 1 + removed rs
  | _ :: rs => removed rs
  end.

(** A JSON integer literal: [decimal], with a minus sign when negative. *)
Definition json_int (n : Z) : string :=
  if n <? 0 then String "-"%char (decimal (- n)) else decimal n.

(** The body [{"a": x, "b": y}], with white space [ws] between the tokens. *)
Definition ab_body (ws : string) (x y : Z) : string :=
  let q := String "034"%char EmptyString in
  ws +:+ "{" +:+ ws +:+ q +:+ "a" +:+ q +:+ ws +:+ ":" +:+ ws +:+ json_int x +:+ ws
     +:+ "," +:+ ws +:+ q +:+ "b" +:+ q +:+ ws +:+ ":" +:+ ws +:+ json_int y +:+ ws
     +:+ "}" +:+ ws.

(** A string of JSON white space: spaces, tabs, carriage returns, newlines. *)
Fixpoint json_blank (s : string) : bool :=
  match s with
  | EmptyString => true
  | String c r => json.isSpace c && json_blank r
  end.

(** The path [/users/seg/x1/.../xn]. *)
Definition users_path (seg : string) (more : list string) : string :=
  "/users/" +:+ seg +:+ foldr (λ x acc, String "/"%char (x +:+ acc)) EmptyString more.

(** The first JSON value of a body that was read whole, and what follows
    it: as [first_value], and at the end of the body a value that only a
    further byte could end is complete. *)
Definition whole_value (body : string) : option (JSON * string) :=
  match first_value body with
  | json.Complete v rest => Some (v, rest)
  | json.Pending step stack =>
      match json.scan_step step stack " "%char with
      | json.EndBefore v => Some (v, EmptyString)
      | _ => None
      end
  | json.SyntaxError => None
  end.

(** What a handler of the users routes has done with the request [r] in the
    world [σ], [out] being the response and the world it leaves: one JSON
    response, with one of five statuses; from 400 on the body is an error
    object whose code is one of five; the store is as before unless the
    response is the 201 of a POST or the 200 of a DELETE. *)
Definition answered (r : Request) (σ : World) (out : ResponseWriter * World) : Prop :=
  ∃ status payload,
    responds out.1 status payload ∧
    status ∈ users_statuses ∧
    (400 ≤ status →
     ∃ code message details,
       payload = error_body code message details ∧ code ∈ users_error_codes) ∧
    (store out.2 = store σ ∨
     (Method r = "POST" ∧ status = 201) ∨
     (Method r = "DELETE" ∧ status = 200)).

(** * Properties *)

(** ** Machine integers *)

Lemma int_wrap_in_range z : in_int z → int_wrap z = z.
Proof.
  unfold in_int, int_wrap, int_max, int_min, int_bits. intros Hz.
  rewrite Z.mod_small; lia.
Qed.

Lemma int_wrap_overflow : int_wrap (int_max + 1) = int_min.
Proof. reflexivity. Qed.

Lemma int_max_pos : 0 < int_max.
Proof. reflexivity. Qed.

(** ** The store *)

Lemma List_loop_values kvs : List_loop kvs = kvs.*2.
Proof.
  unfold List_loop.
  enough (∀ acc, foldl (λ out kv, out ++ [kv.2]) acc kvs = acc ++ kvs.*2) as ->
    by done.
  induction kvs as [|kv kvs IH]; intros acc; simpl.
  - by rewrite app_nil_r.
  - rewrite IH, <- app_assoc. done.
Qed.

Lemma List_returns_List s : List_returns s (List s).
Proof. exists (map_to_list (items s)). split; [unfold range_order|]; reflexivity. Qed.

Lemma List_returns_perm s out :
  List_returns s out ↔ out ≡ₚ (map_to_list (items s)).*2.
Proof.
  split.
  - intros (kvs & Hkvs & ->). unfold range_order in Hkvs.
    rewrite List_loop_values. by rewrite Hkvs.
  - intros Hperm.
    destruct (Permutation_map_inv snd (map_to_list (items s)) Hperm)
      as (kvs & -> & Hkvs).
    exists kvs. split; [unfold range_order; by symmetry|].
    by rewrite List_loop_values.
Qed.

Lemma store_inv_New : store_inv 0 NewUserStore.
Proof.
  split; [pose proof int_max_pos; lia|]. split; [reflexivity|].
  intros k u. simpl. by rewrite lookup_empty.
Qed.

Lemma creates_cons op ops :
  creates (op :: ops) = (if is_create op then 1 else 0) + creates ops.
Proof.
  unfold creates. rewrite filter_cons.
  destruct (decide (is_create op = true)) as [->|Hne].
  - rewrite length_cons. lia.
  - destruct (is_create op); [done|lia].
Qed.

Lemma creates_nonneg ops : 0 ≤ creates ops.
Proof. unfold creates. lia. Qed.

Lemma creates_app ops1 ops2 : creates (ops1 ++ ops2) = creates ops1 + creates ops2.
Proof. unfold creates. rewrite filter_app, length_app. lia. Qed.

Lemma store_inv_Create n name now s :
  store_inv n s → n < int_max →
  ID (Create name now s).1 = 1 + n ∧ store_inv (n + 1) (Create name now s).2.
Proof.
  intros (Hn & Hnext & Hitems) Hlt.
  assert (nextID s = 1 + n) as Hid.
  { rewrite Hnext. apply int_wrap_in_range.
    unfold in_int, int_min, int_max, int_bits in *. lia. }
  split; [done|]. split; [lia|]. split.
  - simpl. rewrite Hid. f_equal. lia.
  - intros k v. simpl. rewrite Hid, lookup_insert. case_decide as Hk.
    + intros [= <-]. simpl. lia.
    + intros Hv. destruct (Hitems k v Hv). lia.
Qed.

Lemma store_inv_Delete n id s : store_inv n s → store_inv n (Delete id s).2.
Proof.
  intros (Hn & Hnext & Hitems). unfold Delete.
  destruct (items s !! id) eqn:Hid; [|done].
  split; [done|]. split; [done|]. intros k v. simpl.
  rewrite lookup_delete. case_decide; [done|]. apply Hitems.
Qed.

(** The invariant along a run, and the ids the run hands out. *)
Lemma steps_store_inv s ops rs s' n :
  steps s ops rs s' →
  store_inv n s →
  n + creates ops ≤ int_max →
  store_inv (n + creates ops) s' ∧
  ID <$> created rs = seqZ (1 + n) (creates ops).
Proof.
  intros Hsteps. revert n.
  induction Hsteps as [s|s op r s1 ops rs s2 Hstep Hsteps IH]; intros n Hinv Hle.
  - change (creates []) with 0. rewrite Z.add_0_r. done.
  - rewrite creates_cons in Hle |- *. pose proof (creates_nonneg ops).
    inversion Hstep; subst; cbn [is_create] in Hle |- *.
    + destruct (store_inv_Create n name now s Hinv) as [Hid Hinv']; [lia|].
      destruct (IH (n + 1) Hinv') as [IH1 IH2]; [lia|].
      split.
      * by replace (n + (1 + creates ops)) with (n + 1 + creates ops) by lia.
      * cbn [created]. rewrite fmap_cons, IH2, Hid.
        rewrite (seqZ_cons (1 + n)) by lia. f_equal.
        f_equal; lia.
    + destruct (IH n Hinv) as [IH1 IH2]; [lia|]. done.
    + destruct (IH n (store_inv_Delete n id s Hinv)) as [IH1 IH2]; [lia|]. done.
    + destruct (IH n Hinv) as [IH1 IH2]; [lia|]. done.
Qed.

Lemma step_exec_op op s : step s op (exec_op op s).1 (exec_op op s).2.
Proof.
  destruct op as [name now|id|id|]; simpl.
  - apply step_Create.
  - unfold Get. destruct (items s !! id) eqn:E; simpl.
    + pose proof (step_Get s id) as H. unfold Get in H. by rewrite E in H.
    + pose proof (step_Get s id) as H. unfold Get in H. by rewrite E in H.
  - destruct (Delete id s) as [ok s'] eqn:E.
    pose proof (step_Delete s id) as H. by rewrite E in H.
  - apply step_List, List_returns_List.
Qed.

(** Every sequence of calls runs to completion. *)
Lemma steps_run ops s : steps s ops (run ops s).1 (run ops s).2.
Proof.
  revert s. induction ops as [|op ops IH]; intros s; simpl.
  - constructor.
  - pose proof (step_exec_op op s) as Hstep.
    destruct (exec_op op s) as [r s1]. specialize (IH s1).
    destruct (run ops s1) as [rs s2]. simpl in *. by econstructor.
Qed.

(** The store after a run does not depend on the orders [List] chose. *)
Lemma steps_store_det s ops rs s' : steps s ops rs s' → s' = (run ops s).2.
Proof.
  intros Hsteps.
  induction Hsteps as [s|s op r s1 ops rs s2 Hstep Hsteps IH]; [done|].
  simpl. subst s2.
  assert (s1 = (exec_op op s).2) as ->.
  { inversion Hstep; subst; simpl; try done.
    - by destruct (Get _ _).
    - by destruct (Delete _ _). }
  destruct (exec_op op s) as [r0 s1']. simpl.
  by destruct (run ops s1').
Qed.

Lemma seqZ_StronglySorted m n : StronglySorted Z.lt (seqZ m n).
Proof.
  unfold seqZ. generalize (Z.to_nat n) as len. generalize 0%nat as start.
  intros start len. revert start.
  induction len as [|len IH]; intros start; simpl; constructor.
  - apply IH.
  - apply Forall_fmap, Forall_seq. intros i Hi. simpl. lia.
Qed.

(** A record stays where it is while nothing deletes it and no [Create]
    hands out its id again. *)
Lemma steps_lookup_Some s ops rs s' id u :
  steps s ops rs s' →
  items s !! id = Some u →
  Forall (λ op, deletes_id id op = false) ops →
  Forall (λ u', ID u' ≠ id) (created rs) →
  items s' !! id = Some u.
Proof.
  intros Hsteps.
  induction Hsteps as [s|s op r s1 ops rs s2 Hstep Hsteps IH]; [done|].
  intros Hu Hdel Hcre. inversion Hdel as [|? ? Hop Hdel']; subst.
  inversion Hstep; subst; cbn [created] in Hcre.
  - inversion Hcre as [|? ? Hne Hcre']; subst. apply IH; [|done..].
    simpl in Hne |- *. by rewrite lookup_insert_ne.
  - by apply IH.
  - apply IH; [|done..]. simpl in Hop. apply bool_decide_eq_false in Hop.
    unfold Delete. destruct (items s !! id0); [|done]. simpl.
    by rewrite lookup_delete_ne.
  - by apply IH.
Qed.

(** An id stays absent while no [Create] hands it out. *)
Lemma steps_lookup_None s ops rs s' id :
  steps s ops rs s' →
  items s !! id = None →
  Forall (λ u', ID u' ≠ id) (created rs) →
  items s' !! id = None.
Proof.
  intros Hsteps.
  induction Hsteps as [s|s op r s1 ops rs s2 Hstep Hsteps IH]; [done|].
  intros Hu Hcre.
  inversion Hstep; subst; cbn [created] in Hcre.
  - inversion Hcre as [|? ? Hne Hcre']; subst. apply IH; [|done].
    simpl in Hne |- *. by rewrite lookup_insert_ne.
  - by apply IH.
  - apply IH; [|done]. unfold Delete. destruct (items s !! id0) eqn:E; [|done].
    simpl. rewrite lookup_delete. by case_decide.
  - by apply IH.
Qed.

(** Within the range of [int], the ids a run hands out are larger than every
    id handed out before. *)
Lemma steps_created_fresh s ops rs s' n :
  steps s ops rs s' →
  store_inv n s →
  n + creates ops ≤ int_max →
  Forall (λ u', n < ID u') (created rs).
Proof.
  intros Hsteps Hinv Hle.
  destruct (steps_store_inv _ _ _ _ _ Hsteps Hinv Hle) as [_ Hids].
  apply Forall_forall. intros u' Hu'.
  assert (ID u' ∈ ID <$> created rs) as Hin by (by apply list_elem_of_fmap_2).
  rewrite Hids in Hin. apply elem_of_seqZ in Hin. lia.
Qed.

Lemma Delete_true_iff id s : (Delete id s).1 = true ↔ is_Some (items s !! id).
Proof.
  unfold Delete. destruct (items s !! id) eqn:E; simpl.
  - split; [eauto|done].
  - split; [done|]. by intros [? ?].
Qed.

Lemma Delete_removes id s : items (Delete id s).2 !! id = None.
Proof.
  unfold Delete. destruct (items s !! id) eqn:E; simpl; [|done].
  apply lookup_delete_eq.
Qed.

Lemma steps_size_no_delete s ops rs s' n :
  steps s ops rs s' →
  store_inv n s →
  n + creates ops ≤ int_max →
  Forall (λ op, is_delete op = false) ops →
  Z.of_nat (size (items s')) = Z.of_nat (size (items s)) + creates ops.
Proof.
  intros Hsteps. revert n.
  induction Hsteps as [s|s op r s1 ops rs s2 Hstep Hsteps IH];
    intros n Hinv Hle Hdel.
  - change (creates []) with 0. lia.
  - rewrite creates_cons in Hle |- *. pose proof (creates_nonneg ops).
    inversion Hdel as [|? ? Hop Hdel']; subst.
    inversion Hstep; subst; cbn [is_create] in Hle |- *.
    + destruct (store_inv_Create n name now s Hinv) as [Hid Hinv']; [lia|].
      rewrite (IH (n + 1)); [|done|lia|done]. simpl.
      rewrite map_size_insert_None; [lia|].
      destruct Hinv as (_ & _ & Hitems). simpl in Hid.
      destruct (items s !! nextID s) as [v|] eqn:E; [|done].
      destruct (Hitems _ _ E). lia.
    + rewrite (IH n); [lia|done|lia|done].
    + done.
    + rewrite (IH n); [lia|done|lia|done].
Qed.

(** A stored id stays stored while nothing deletes it: [Create] can replace
    a record but never removes one. *)
Lemma steps_lookup_is_Some s ops rs s' id :
  steps s ops rs s' →
  is_Some (items s !! id) →
  Forall (λ op, deletes_id id op = false) ops →
  is_Some (items s' !! id).
Proof.
  intros Hsteps.
  induction Hsteps as [s|s op r s1 ops rs s2 Hstep Hsteps IH]; [done|].
  intros Hu Hdel. inversion Hdel as [|? ? Hop Hdel']; subst.
  apply IH; [|done]. inversion Hstep; subst; try done.
  - simpl. rewrite lookup_insert. case_decide; eauto.
  - simpl in Hop. apply bool_decide_eq_false in Hop. unfold Delete.
    destruct (items s !! id0); [|done]. simpl.
    by rewrite lookup_delete_ne.
Qed.

(** C1. From a fresh store, along every sequence of calls whose [Create]
    calls do not exhaust the range of [int], the k-th [Create] returns id k:
    the ids are 1, 2, 3, ... in call order, hence strictly increasing and
    never handed out twice, whatever was deleted in between; and the records
    of the store carry pairwise distinct ids, each stored under its own id. *)
Theorem create_ids_increase_from_one ops rs s :
  steps NewUserStore ops rs s →
  creates ops ≤ int_max →
  ID <$> created rs = seqZ 1 (creates ops) ∧
  (∀ i j ui uj, created rs !! i = Some ui → created rs !! j = Some uj →
     (i < j)%nat → ID ui < ID uj) ∧
  NoDup (ID <$> created rs) ∧
  (∀ k u, items s !! k = Some u → ID u = k ∧ ID u ∈ ID <$> created rs) ∧
  (∀ k1 u1 k2 u2, items s !! k1 = Some u1 → items s !! k2 = Some u2 →
     k1 ≠ k2 → ID u1 ≠ ID u2).
Proof.
  intros Hsteps Hle.
  destruct (steps_store_inv _ _ _ _ 0 Hsteps store_inv_New) as [Hinv Hids];
    [lia|].
  rewrite Z.add_0_r in Hids. change (1 + 0) with 1 in Hids.
  destruct Hinv as (_ & _ & Hitems).
  split; [done|]. split; [|split; [|split]].
  - intros i j ui uj Hi Hj Hij.
    assert ((ID <$> created rs) !! i = Some (ID ui)) as Hi'
      by (by rewrite list_lookup_fmap, Hi).
    assert ((ID <$> created rs) !! j = Some (ID uj)) as Hj'
      by (by rewrite list_lookup_fmap, Hj).
    rewrite Hids in Hi', Hj'.
    apply lookup_seqZ in Hi', Hj'. lia.
  - rewrite Hids. apply NoDup_seqZ.
  - intros k u Hu. destruct (Hitems k u Hu) as [Hk Hrange].
    split; [done|]. rewrite Hids, Hk. apply elem_of_seqZ. lia.
  - intros k1 u1 k2 u2 H1 H2 Hne.
    destruct (Hitems k1 u1 H1) as [-> _]. destruct (Hitems k2 u2 H2) as [-> _].
    done.
Qed.

Lemma create_ids_increase_from_one_witness :
  let ops := [OpCreate "ada" (TimeUTC 10); OpCreate "bob" (TimeUTC 20);
              OpDelete 2; OpCreate "cy" (TimeUTC 30); OpList] in
  creates ops ≤ int_max ∧
  ID <$> created (run ops NewUserStore).1 = [1; 2; 3] ∧
  NoDup (ID <$> created (run ops NewUserStore).1).
Proof.
  intros ops.
  pose proof (create_ids_increase_from_one ops _ _ (steps_run ops NewUserStore))
    as H.
  assert (creates ops ≤ int_max) as Hle by (vm_compute; discriminate).
  destruct (H Hle) as (Hids & _ & Hnodup & _).
  split; [exact Hle|]. split; [exact Hids|exact Hnodup].
Defined.

(** C3. [Delete id] returns true exactly when a user with that id is stored
    at the time of the call, and then the record is gone; a false return
    leaves the store as it was. After a [Create] that returned [u], the
    first [Delete] of its id returns true, and a later [Delete] of that id
    returns false, as long as no [Create] in between returned that id again;
    from a fresh store and within the range of [int] no [Create] does. *)
Theorem delete_true_once :
  (∀ id s, (Delete id s).1 = true ↔ is_Some (items s !! id)) ∧
  (∀ id s, (Delete id s).1 = false → (Delete id s).2 = s) ∧
  (∀ id s, (Delete id s).1 = true →
     items (Delete id s).2 = delete id (items s) ∧
     items (Delete id s).2 !! id = None ∧
     nextID (Delete id s).2 = nextID s) ∧
  (∀ s0 name now ops1 rs1 s1 ops2 rs2 s2,
     let u := (Create name now s0).1 in
     steps (Create name now s0).2 ops1 rs1 s1 →
     Forall (λ op, deletes_id (ID u) op = false) ops1 →
     steps (Delete (ID u) s1).2 ops2 rs2 s2 →
     Forall (λ u', ID u' ≠ ID u) (created rs2) →
     (Delete (ID u) s1).1 = true ∧ (Delete (ID u) s2).1 = false) ∧
  (∀ ops0 rs0 s0 name now ops1 rs1 s1 ops2 rs2 s2,
     let u := (Create name now s0).1 in
     steps NewUserStore ops0 rs0 s0 →
     steps (Create name now s0).2 ops1 rs1 s1 →
     Forall (λ op, deletes_id (ID u) op = false) ops1 →
     steps (Delete (ID u) s1).2 ops2 rs2 s2 →
     creates ops0 + 1 + creates ops1 + creates ops2 ≤ int_max →
     (Delete (ID u) s1).1 = true ∧ (Delete (ID u) s2).1 = false).
Proof.
  assert (∀ s0 name now ops1 rs1 s1 ops2 rs2 s2,
     let u := (Create name now s0).1 in
     steps (Create name now s0).2 ops1 rs1 s1 →
     Forall (λ op, deletes_id (ID u) op = false) ops1 →
     steps (Delete (ID u) s1).2 ops2 rs2 s2 →
     Forall (λ u', ID u' ≠ ID u) (created rs2) →
     (Delete (ID u) s1).1 = true ∧ (Delete (ID u) s2).1 = false) as Hrun.
  { intros s0 name now ops1 rs1 s1 ops2 rs2 s2 u H1 Hdel H2 Hcre2.
    split.
    - apply Delete_true_iff. eapply steps_lookup_is_Some; [exact H1| |done].
      simpl. rewrite lookup_insert_eq. eauto.
    - destruct (Delete (ID u) s2) as [[] s3] eqn:E; [|done].
      assert (is_Some (items s2 !! ID u)) as [v Hv].
      { apply Delete_true_iff. by rewrite E. }
      rewrite (steps_lookup_None _ _ _ _ _ H2 (Delete_removes _ _) Hcre2) in Hv.
      done. }
  split; [apply Delete_true_iff|]. split; [|split; [|split]].
  - intros id s. unfold Delete. by destruct (items s !! id).
  - intros id s. unfold Delete. destruct (items s !! id); [|done].
    intros _. simpl. by rewrite lookup_delete_eq.
  - exact Hrun.
  - intros ops0 rs0 s0 name now ops1 rs1 s1 ops2 rs2 s2 u H0 H1 Hdel H2 Hle.
    pose proof (creates_nonneg ops0). pose proof (creates_nonneg ops1).
    pose proof (creates_nonneg ops2).
    destruct (steps_store_inv _ _ _ _ 0 H0 store_inv_New) as [Hinv0 _]; [lia|].
    rewrite Z.add_0_l in Hinv0.
    destruct (store_inv_Create _ name now _ Hinv0) as [Hid Hinvc]; [lia|].
    fold u in Hid.
    destruct (steps_store_inv _ _ _ _ _ H1 Hinvc) as [Hinv1 _]; [lia|].
    pose proof (steps_created_fresh _ _ _ _ _ H2
                  (store_inv_Delete _ (ID u) _ Hinv1) ltac:(lia)) as Hf2.
    apply (Hrun s0 name now ops1 rs1 s1 ops2 rs2 s2 H1 Hdel H2).
    eapply Forall_impl; [exact Hf2|]. intros u' Hu'. simpl in Hu'. fold u. lia.
Qed.

Lemma delete_true_once_witness :
  let t := TimeUTC 5 in
  let ops0 := [OpCreate "ada" t] in
  let s0 := (run ops0 NewUserStore).2 in
  let u := (Create "bob" t s0).1 in
  let ops1 := [OpGet 2; OpCreate "cy" t; OpDelete 1] in
  let s1 := (run ops1 (Create "bob" t s0).2).2 in
  let ops2 := [OpCreate "dee" t; OpDelete 3; OpList] in
  let s2 := (run ops2 (Delete (ID u) s1).2).2 in
  Forall (λ op, deletes_id (ID u) op = false) ops1 ∧
  creates ops0 + 1 + creates ops1 + creates ops2 ≤ int_max ∧
  (Delete (ID u) s1).1 = true ∧ (Delete (ID u) s2).1 = false.
Proof.
  intros t ops0 s0 u ops1 s1 ops2 s2.
  assert (Forall (λ op, deletes_id (ID u) op = false) ops1) as Hdel
    by (repeat constructor).
  assert (creates ops0 + 1 + creates ops1 + creates ops2 ≤ int_max) as Hle
    by (vm_compute; discriminate).
  split; [exact Hdel|]. split; [exact Hle|].
  destruct delete_true_once as (_ & _ & _ & _ & H).
  exact (H ops0 _ s0 "bob" t ops1 _ s1 ops2 _ s2
           (steps_run ops0 NewUserStore) (steps_run ops1 _) Hdel
           (steps_run ops2 _) Hle).
Defined.

(** C4. From a fresh store and within the range of [int]: once [Create] has
    returned a record [u], [Get] of its id returns found together with that
    very record (same id, same name, same creation time) after any further
    calls that do not delete that id; and a [Get] leaves the store as it
    was. *)
Theorem get_returns_created_record ops0 rs0 s0 name now ops1 rs1 s1 :
  let u := (Create name now s0).1 in
  steps NewUserStore ops0 rs0 s0 →
  steps (Create name now s0).2 ops1 rs1 s1 →
  Forall (λ op, deletes_id (ID u) op = false) ops1 →
  creates ops0 + 1 + creates ops1 ≤ int_max →
  Get (ID u) s1 = (u, true) ∧
  ID u = creates ops0 + 1 ∧ Name u = name ∧ CreatedAt u = now ∧
  (∀ s id r s', step s (OpGet id) r s' → s' = s).
Proof.
  intros u H0 H1 Hdel Hle.
  pose proof (creates_nonneg ops0). pose proof (creates_nonneg ops1).
  destruct (steps_store_inv _ _ _ _ 0 H0 store_inv_New) as [Hinv0 _]; [lia|].
  rewrite Z.add_0_l in Hinv0.
  destruct (store_inv_Create _ name now _ Hinv0) as [Hid Hinvc]; [lia|].
  fold u in Hid.
  pose proof (steps_created_fresh _ _ _ _ _ H1 Hinvc ltac:(lia)) as Hfresh.
  assert (items s1 !! ID u = Some u) as Hu.
  { eapply steps_lookup_Some; [exact H1| |exact Hdel|].
    - simpl. apply lookup_insert_eq.
    - eapply Forall_impl; [exact Hfresh|]. intros u' Hu'. simpl in Hu'. lia. }
  split; [unfold Get; by rewrite Hu|].
  split; [lia|]. split; [done|]. split; [done|].
  intros s id r s' Hstep. by inversion Hstep.
Qed.

Lemma get_returns_created_record_witness :
  let t := TimeUTC 7 in
  let ops0 := [OpCreate "ada" t; OpDelete 1] in
  let s0 := (run ops0 NewUserStore).2 in
  let ops1 := [OpCreate "cy" (TimeUTC 9); OpDelete 3; OpList; OpGet 2] in
  let s1 := (run ops1 (Create "bob" t s0).2).2 in
  Forall (λ op, deletes_id 2 op = false) ops1 ∧
  creates ops0 + 1 + creates ops1 ≤ int_max ∧
  Get 2 s1 = (mkUser 2 "bob" t, true).
Proof.
  intros t ops0 s0 ops1 s1.
  assert (Forall (λ op, deletes_id 2 op = false) ops1) as Hdel
    by (repeat constructor).
  assert (creates ops0 + 1 + creates ops1 ≤ int_max) as Hle
    by (vm_compute; discriminate).
  split; [exact Hdel|]. split; [exact Hle|].
  exact (proj1 (get_returns_created_record ops0 _ s0 "bob" t ops1 _ s1
                  (steps_run ops0 NewUserStore) (steps_run ops1 _) Hdel Hle)).
Defined.

(** C5. From a fresh store, after a run with N [Create] calls and no
    [Delete] (N within the range of [int]), whatever [List] returns has
    exactly N records with pairwise distinct ids. In every store, [List]
    returns exactly the stored records, each once, in some order; it can
    always return; and it leaves the store as it was. *)
Theorem list_returns_stored_records :
  (∀ ops rs s out,
     steps NewUserStore ops rs s →
     Forall (λ op, is_delete op = false) ops →
     creates ops ≤ int_max →
     List_returns s out →
     Z.of_nat (length out) = creates ops ∧ NoDup (ID <$> out) ∧ NoDup out) ∧
  (∀ s out, List_returns s out ↔ out ≡ₚ (map_to_list (items s)).*2) ∧
  (∀ s out u, List_returns s out → u ∈ out ↔ ∃ k, items s !! k = Some u) ∧
  (∀ s out, List_returns s out → length out = size (items s)) ∧
  (∀ s, List_returns s (List s)) ∧
  (∀ s r s', step s OpList r s' → s' = s).
Proof.
  split; [|split; [|split; [|split; [|split]]]].
  - intros ops rs s out Hsteps Hdel Hle Hout.
    apply List_returns_perm in Hout.
    destruct (steps_store_inv _ _ _ _ 0 Hsteps store_inv_New) as [Hinv _];
      [lia|].
    destruct Hinv as (_ & _ & Hitems).
    pose proof (steps_size_no_delete _ _ _ _ 0 Hsteps store_inv_New
                  ltac:(lia) Hdel) as Hsize.
    simpl in Hsize. rewrite map_size_empty in Hsize.
    assert (ID <$> (map_to_list (items s)).*2 = (map_to_list (items s)).*1)
      as Hkeys.
    { rewrite <- list_fmap_compose. apply list_fmap_ext.
      intros i [k v] Hkv. simpl.
      apply list_elem_of_lookup_2, elem_of_map_to_list in Hkv.
      by destruct (Hitems k v Hkv). }
    assert (NoDup (ID <$> out)) as Hnodup.
    { rewrite Hout, Hkeys. apply NoDup_fst_map_to_list. }
    split; [|split; [done|by eapply NoDup_fmap_1]].
    rewrite Hout, length_fmap, length_map_to_list. lia.
  - apply List_returns_perm.
  - intros s out u Hout. apply List_returns_perm in Hout. rewrite Hout.
    rewrite list_elem_of_fmap. split.
    + intros ([k v] & -> & Hkv). exists k. by apply elem_of_map_to_list.
    + intros (k & Hk). exists (k, u). split; [done|].
      by apply elem_of_map_to_list.
  - intros s out Hout. apply List_returns_perm in Hout.
    by rewrite Hout, length_fmap, length_map_to_list.
  - apply List_returns_List.
  - intros s r s' Hstep. by inversion Hstep.
Qed.

Lemma list_returns_stored_records_witness :
  let ops := [OpCreate "ada" (TimeUTC 1); OpGet 1; OpCreate "bob" (TimeUTC 2);
              OpList; OpCreate "cy" (TimeUTC 3)] in
  let s := (run ops NewUserStore).2 in
  Forall (λ op, is_delete op = false) ops ∧
  creates ops ≤ int_max ∧
  Z.of_nat (length (List s)) = 3 ∧ NoDup (ID <$> List s).
Proof.
  intros ops s.
  assert (Forall (λ op, is_delete op = false) ops) as Hdel
    by (repeat constructor).
  assert (creates ops ≤ int_max) as Hle by (vm_compute; discriminate).
  split; [exact Hdel|]. split; [exact Hle|].
  destruct list_returns_stored_records as (H & _).
  destruct (H ops _ s (List s) (steps_run ops NewUserStore) Hdel Hle
              (List_returns_List s)) as (Hlen & Hnodup & _).
  split; [exact Hlen|exact Hnodup].
Defined.

(** Beyond the range: the [Create] that hands out [int_max] leaves the
    counter at [int_min]. *)
Lemma Create_counter_wraps name now m :
  nextID (Create name now {| nextID := int_max; items := m |}).2 = int_min.
Proof. reflexivity. Qed.

(** ** Strings *)

Lemma string_app_cons (c : ascii) (a b : string) :
  String c a +:+ b = String c (a +:+ b).
Proof. reflexivity. Qed.

Lemma string_app_nil_l (s : string) : "" +:+ s = s.
Proof. reflexivity. Qed.

Lemma string_app_nil_r (s : string) : s +:+ "" = s.
Proof.
  induction s as [|c s IH]; [done|]. by rewrite string_app_cons, IH.
Qed.

Lemma string_app_assoc (a b c : string) : (a +:+ b) +:+ c = a +:+ (b +:+ c).
Proof.
  induction a as [|x a IH]; [done|]. by rewrite !string_app_cons, IH.
Qed.

Lemma string_rev_app_spec (a b : string) :
  String.rev_app a b = String.rev a +:+ b.
Proof.
  unfold String.rev. revert b.
  induction a as [|c a IH]; intros b; [done|]. cbn.
  rewrite (IH (String c b)), (IH (String c "")), string_app_assoc. done.
Qed.

Lemma string_rev_cons (c : ascii) (s : string) :
  String.rev (String c s) = String.rev s +:+ String c "".
Proof. unfold String.rev at 1. cbn. apply string_rev_app_spec. Qed.

Lemma string_rev_app (a b : string) :
  String.rev (a +:+ b) = String.rev b +:+ String.rev a.
Proof.
  induction a as [|c a IH].
  - change (String.rev "") with "". by rewrite string_app_nil_l, string_app_nil_r.
  - rewrite string_app_cons, !string_rev_cons, IH, string_app_assoc. done.
Qed.

Lemma string_rev_involutive (s : string) : String.rev (String.rev s) = s.
Proof.
  induction s as [|c s IH]; [done|].
  rewrite string_rev_cons, string_rev_app, IH. done.
Qed.

Lemma string_rev_nil_inv (s : string) : String.rev s = "" → s = "".
Proof. intros H. by rewrite <- (string_rev_involutive s), H. Qed.

Lemma string_drop_app (a b : string) : string_drop (String.length a) (a +:+ b) = b.
Proof. induction a as [|c a IH]; [by destruct b|]. apply IH. Qed.

Lemma string_length_app (a b : string) :
  String.length (a +:+ b) = (String.length a + String.length b)%nat.
Proof.
  induction a as [|c a IH]; [done|]. rewrite string_app_cons. cbn. by rewrite IH.
Qed.

(** ** strings.Trim and strings.Split *)

Lemma trimLeftBytes_suffix cs s : ∃ p, s = p +:+ strings.trimLeftBytes cs s.
Proof.
  induction s as [|c s [p IH]]; [by exists ""|]. cbn.
  destruct (strings.in_cutset cs c).
  - exists (String c p). rewrite string_app_cons. by rewrite <- IH.
  - by exists "".
Qed.

Lemma trimLeftBytes_app cs a c b :
  strings.in_cutset cs c = false →
  strings.trimLeftBytes cs (a +:+ String c b) =
  strings.trimLeftBytes cs a +:+ String c b.
Proof.
  intros Hc. induction a as [|x a IH].
  - rewrite !string_app_nil_l. cbn. by rewrite Hc.
  - rewrite string_app_cons. cbn. destruct (strings.in_cutset cs x); [done|].
    by rewrite string_app_cons.
Qed.

Lemma has_byte_app c a b : has_byte c (a +:+ b) = has_byte c a || has_byte c b.
Proof.
  induction a as [|x a IH]; [done|]. rewrite string_app_cons. cbn.
  rewrite IH. by rewrite orb_assoc.
Qed.

Lemma has_byte_rev c s : has_byte c (String.rev s) = has_byte c s.
Proof.
  induction s as [|x s IH]; [done|].
  rewrite string_rev_cons, has_byte_app, IH. cbn.
  rewrite orb_false_r. apply orb_comm.
Qed.

Lemma in_cutset_slash c : strings.in_cutset "/" c = bool_decide (c = "/"%char).
Proof.
  unfold strings.in_cutset. cbn. apply bool_decide_ext.
  rewrite list_elem_of_singleton. done.
Qed.

(** [Trim] keeps a leading segment and trims what follows it on the right. *)
Lemma Trim_segment seg tail :
  segment seg →
  ∃ tail', strings.Trim (seg +:+ tail) "/" = seg +:+ tail' ∧
           (∃ p, tail = tail' +:+ p) ∧
           (String.rev tail' = strings.trimLeftBytes "/" (String.rev tail)).
Proof.
  intros [Hne Hslash].
  exists (String.rev (strings.trimLeftBytes "/" (String.rev tail))).
  split; [|split].
  - unfold strings.Trim. rewrite string_rev_app.
    destruct (String.rev seg) as [|c rs] eqn:Hrev.
    { by apply string_rev_nil_inv in Hrev. }
    assert (strings.in_cutset "/" c = false) as Hc.
    { rewrite in_cutset_slash. rewrite <- has_byte_rev, Hrev in Hslash.
      cbn in Hslash. by apply orb_false_elim in Hslash as [-> _]. }
    rewrite trimLeftBytes_app by done.
    rewrite string_rev_app, <- Hrev, string_rev_involutive.
    destruct seg as [|d seg]; [done|]. rewrite string_app_cons. cbn.
    rewrite in_cutset_slash. cbn in Hslash.
    by apply orb_false_elim in Hslash as [-> _].
  - destruct (trimLeftBytes_suffix "/" (String.rev tail)) as [p Hp].
    exists (String.rev p).
    rewrite <- string_rev_app, <- Hp, string_rev_involutive. done.
  - by rewrite string_rev_involutive.
Qed.

Lemma Split_go_segment sep cur seg t :
  has_byte sep seg = false →
  strings.Split_go sep cur (seg +:+ t) =
  strings.Split_go sep (String.rev seg +:+ cur) t.
Proof.
  revert cur. induction seg as [|c seg IH]; intros cur Hseg; [done|].
  cbn in Hseg. apply orb_false_elim in Hseg as [Hc Hseg].
  rewrite string_rev_cons, string_app_assoc.
  change (String c "" +:+ cur) with (String c cur).
  rewrite string_app_cons. cbn [strings.Split_go]. rewrite Hc. by apply IH.
Qed.

Lemma Split_segment_last seg :
  has_byte "/"%char seg = false → strings.Split seg "/"%char = [seg].
Proof.
  intros H. unfold strings.Split.
  rewrite <- (string_app_nil_r seg) at 1. rewrite Split_go_segment by done.
  cbn. by rewrite string_app_nil_r, string_rev_involutive.
Qed.

Lemma Split_segment_cons seg t :
  has_byte "/"%char seg = false →
  strings.Split (seg +:+ String "/"%char t) "/"%char = seg :: strings.Split t "/"%char.
Proof.
  intros H. unfold strings.Split. rewrite Split_go_segment by done.
  cbn. by rewrite string_app_nil_r, string_rev_involutive.
Qed.

Lemma Split_nonempty s sep : strings.Split s sep ≠ [].
Proof.
  unfold strings.Split. generalize EmptyString as cur.
  induction s as [|c s IH]; intros cur; cbn; [done|].
  case_bool_decide; [done|apply IH].
Qed.

Lemma segment_rev_head seg :
  segment seg → ∃ c r, String.rev seg = String c r ∧ c ≠ "/"%char.
Proof.
  intros [Hne Hslash]. destruct (String.rev seg) as [|c r] eqn:Hrev.
  { by apply string_rev_nil_inv in Hrev. }
  exists c, r. split; [done|].
  rewrite <- has_byte_rev, Hrev in Hslash. cbn in Hslash.
  apply orb_false_elim in Hslash as [Hc _]. by apply bool_decide_eq_false in Hc.
Qed.

Lemma route_parts_users rest :
  route_parts ("/users/" +:+ rest) = strings.Split (strings.Trim rest "/") "/"%char.
Proof. unfold route_parts. by rewrite string_drop_app. Qed.

(** The first segment of the path after [/users/] is the first of [parts]. *)
Lemma route_parts_head seg tail :
  segment seg → path_tail tail →
  head (route_parts ("/users/" +:+ seg +:+ tail)) = Some seg.
Proof.
  intros Hseg Htail. rewrite route_parts_users.
  destruct (Trim_segment seg tail Hseg) as (tail' & -> & [p Hp] & _).
  destruct Hseg as [_ Hslash].
  destruct tail' as [|c tail'].
  - by rewrite string_app_nil_r, Split_segment_last.
  - destruct Htail as [->|[t ->]]; [done|].
    rewrite string_app_cons in Hp. injection Hp as <- _.
    by rewrite Split_segment_cons.
Qed.

Lemma route_parts_single seg :
  segment seg → route_parts ("/users/" +:+ seg) = [seg].
Proof.
  intros Hseg. rewrite route_parts_users.
  destruct (Trim_segment seg "" Hseg) as (tail' & Htrim & [p Hp] & _).
  rewrite string_app_nil_r in Htrim. rewrite Htrim.
  destruct tail' as [|c tail']; [|done].
  rewrite string_app_nil_r. apply Split_segment_last, Hseg.
Qed.

Lemma route_parts_orders seg o :
  segment seg → segment o →
  route_parts ("/users/" +:+ seg +:+ "/orders/" +:+ o) = [seg; "orders"; o].
Proof.
  intros Hseg Ho. rewrite route_parts_users.
  destruct (Trim_segment seg ("/orders/" +:+ o) Hseg) as (tail' & -> & _ & Hrev).
  destruct (segment_rev_head o Ho) as (c & r & Hro & Hc).
  rewrite string_rev_app, Hro in Hrev. rewrite string_app_cons in Hrev.
  cbn [strings.trimLeftBytes] in Hrev. rewrite in_cutset_slash in Hrev.
  rewrite bool_decide_eq_false_2 in Hrev by done.
  rewrite <- string_app_cons, <- Hro, <- string_rev_app in Hrev.
  apply (f_equal String.rev) in Hrev. rewrite !string_rev_involutive in Hrev.
  subst tail'.
  change ("/orders/" +:+ o) with (String "/"%char ("orders" +:+ String "/"%char o)).
  rewrite Split_segment_cons by apply Hseg.
  rewrite Split_segment_cons by done.
  rewrite Split_segment_last by apply Ho. done.
Qed.

(** With nothing after [orders], or a slash only, the path has two
    segments: [Trim] removes the slash at the end. *)
Lemma route_parts_orders_end seg slash :
  segment seg → slash = "" ∨ slash = "/" →
  route_parts ("/users/" +:+ seg +:+ "/orders" +:+ slash) = [seg; "orders"].
Proof.
  intros Hseg Hslash. rewrite route_parts_users.
  destruct (Trim_segment seg ("/orders" +:+ slash) Hseg) as (tail' & -> & _ & Hrev).
  assert (tail' = "/orders") as ->.
  { apply (f_equal String.rev) in Hrev. rewrite string_rev_involutive in Hrev.
    rewrite Hrev. by destruct Hslash as [-> | ->]. }
  change "/orders" with (String "/"%char "orders").
  rewrite Split_segment_cons by apply Hseg.
  by rewrite Split_segment_last.
Qed.

Lemma users_path_long seg tail :
  segment seg →
  (String.length ("/users/" +:+ seg +:+ tail) <=? String.length "/users/")%nat
  = false.
Proof.
  intros [Hne _]. apply Nat.leb_gt. rewrite string_length_app.
  destruct seg; [done|]. rewrite string_app_cons. cbn. lia.
Qed.

(** ** The JSON helpers *)

Lemma error_body_details code message d :
  error_body code message (Some d) =
  PMap (<["details" := d]> {[ "error" := PText code; "message" := PText message ]}).
Proof.
  reflexivity.
Qed.

Lemma errorJSON_writes w status code message details :
  errorJSON w status code message details =
  writeJSON w status (error_body code message details).
Proof.
  unfold errorJSON. destruct details as [d|]; [|done].
  by rewrite error_body_details.
Qed.

Lemma writeJSON_responds status payload :
  responds (writeJSON NewResponseWriter status payload) status payload.
Proof. done. Qed.

Lemma errorJSON_responds status code message details :
  responds (errorJSON NewResponseWriter status code message details) status
    (error_body code message details).
Proof. rewrite errorJSON_writes. apply writeJSON_responds. Qed.

Lemma requireMethods_allowed w r allowed :
  Method r ∈ allowed → requireMethods w r allowed = (true, w).
Proof.
  intros Hin. unfold requireMethods.
  replace (existsb (λ m : string, streq (Method r) m) allowed) with true; [done|].
  symmetry. apply existsb_exists. exists (Method r). split.
  - by apply list_elem_of_In.
  - by apply bool_decide_eq_true_2.
Qed.

Lemma requireMethods_refused w r allowed :
  Method r ∉ allowed →
  requireMethods w r allowed =
  (false,
   errorJSON (Header_Set "Allow" (strings.Join allowed ", ") w)
     StatusMethodNotAllowed "method_not_allowed" "method not allowed"
     (Some (PMap {[ "method" := PText (Method r); "allow" := PStrings allowed ]}))).
Proof.
  intros Hin. unfold requireMethods.
  replace (existsb (λ m : string, streq (Method r) m) allowed) with false; [done|].
  symmetry. apply not_true_is_false. intros (m & Hm & Heq)%existsb_exists.
  apply bool_decide_eq_true in Heq. subst m. by apply Hin, list_elem_of_In.
Qed.

(** ** The router *)

Lemma HandleUserRoutes_invalid_id env w r σ :
  (String.length (Path r) <=? String.length "/users/")%nat = false →
  (parsePositiveInt (default "" (head (route_parts (Path r))))).2 ≠ None →
  HandleUserRoutes env w r σ =
  (errorJSON w StatusBadRequest "invalid_path"
     "user id must be a positive integer" None, σ).
Proof.
  intros Hlen Herr. unfold HandleUserRoutes. rewrite Hlen.
  destruct (parsePositiveInt _) as [id err]. simpl in Herr.
  by rewrite bool_decide_eq_true_2.
Qed.

Lemma HandleUserRoutes_short_path env w r σ :
  (String.length (Path r) <=? String.length "/users/")%nat = true →
  HandleUserRoutes env w r σ =
  (errorJSON w StatusBadRequest "invalid_path" "user id is required" None, σ).
Proof. intros Hlen. unfold HandleUserRoutes. by rewrite Hlen. Qed.

Lemma not_elem_of_pair (m a b : string) : m ≠ a → m ≠ b → m ∉ [a; b].
Proof.
  intros Ha Hb Hin. apply elem_of_cons in Hin as [?|Hin]; [done|].
  apply elem_of_cons in Hin as [?|Hin]; [done|]. by apply elem_of_nil in Hin.
Qed.

(** C6. A request whose path is [/users/seg...], where the first segment
    [seg] does not parse as a positive integer ([seg] may be missing: the
    path [/users/]), is answered 400 with the error code "invalid_path";
    the world is returned as it was: no call reached the service or the
    store. *)
Theorem invalid_user_id_is_rejected env r σ seg tail :
  Path r = "/users/" +:+ seg +:+ tail →
  (segment seg ∧ path_tail tail) ∨ (seg = "" ∧ tail = "") →
  (parsePositiveInt seg).2 ≠ None →
  ∃ w message,
    HandleUserRoutes env NewResponseWriter r σ = (w, σ) ∧
    responds w 400 (error_body "invalid_path" message None) ∧
    (seg ≠ "" → message = Lit "user id must be a positive integer").
Proof.
  intros Hpath [[Hseg Htail]|[-> ->]] Herr.
  - eexists _, _. split; [|split; [apply errorJSON_responds|done]].
    apply HandleUserRoutes_invalid_id.
    + rewrite Hpath. by apply users_path_long.
    + rewrite Hpath, route_parts_head by done. done.
  - exists (errorJSON NewResponseWriter 400 "invalid_path" "user id is required" None),
      (Lit "user id is required").
    split; [|split; [apply errorJSON_responds|done]].
    apply HandleUserRoutes_short_path. by rewrite Hpath.
Qed.

Lemma invalid_user_id_is_rejected_witness :
  let r := mkRequest "GET" "/users/abc" "" in
  let σ := {| store := (Create "ada" (TimeUTC 1) NewUserStore).2; calls := [] |} in
  (parsePositiveInt "abc").2 ≠ None ∧
  ∃ w message,
    HandleUserRoutes (Env_default (TimeUTC 2)) NewResponseWriter r σ = (w, σ) ∧
    responds w 400 (error_body "invalid_path" message None) ∧
    ("abc" ≠ "" → message = Lit "user id must be a positive integer").
Proof.
  intros r σ.
  assert ((parsePositiveInt "abc").2 ≠ None) as Herr by (vm_compute; discriminate).
  split; [exact Herr|].
  apply (invalid_user_id_is_rejected _ r σ "abc" "").
  - reflexivity.
  - left. split; [split; [discriminate|reflexivity]|left; reflexivity].
  - exact Herr.
Defined.

(** The segments the specification names are rejected: not a number, zero, a
    negative number. *)
Lemma parsePositiveInt_rejects_examples :
  parsePositiveInt "abc" = (0, Some (Lib strconv_ErrSyntax)) ∧
  parsePositiveInt "0" = (0, Some (Lib strconv_ErrSyntax)) ∧
  parsePositiveInt "-5" = (0, Some (Lib strconv_ErrSyntax)) ∧
  parsePositiveInt "" = (0, Some (Lib strconv_ErrSyntax)).
Proof. repeat split; vm_compute; reflexivity. Qed.

(** C7. A request to [/users] whose method is neither GET nor POST, and a
    request to [/users/{id}] with a valid id whose method is neither GET nor
    DELETE, is answered 405 with the error code "method_not_allowed"; the
    allowed methods of the endpoint stand in the [Allow] header
    ("GET, POST", "GET, DELETE") and in the details of the error; the world
    is returned as it was: no call reached the service. *)
Theorem wrong_method_gets_405_with_allow :
  (∀ env r σ,
     Method r ≠ "GET" → Method r ≠ "POST" →
     ∃ w, HandleUsers env NewResponseWriter r σ = (w, σ) ∧
          responds w 405
            (error_body "method_not_allowed" "method not allowed"
               (Some (PMap {[ "method" := PText (Method r);
                              "allow" := PStrings ["GET"; "POST"] ]}))) ∧
          Header w !! "Allow" = Some "GET, POST") ∧
  (∀ env r σ seg id,
     Path r = "/users/" +:+ seg → segment seg →
     parsePositiveInt seg = (id, None) →
     Method r ≠ "GET" → Method r ≠ "DELETE" →
     ∃ w, HandleUserRoutes env NewResponseWriter r σ = (w, σ) ∧
          responds w 405
            (error_body "method_not_allowed" "method not allowed"
               (Some (PMap {[ "method" := PText (Method r);
                              "allow" := PStrings ["GET"; "DELETE"] ]}))) ∧
          Header w !! "Allow" = Some "GET, DELETE").
Proof.
  split.
  - intros env r σ Hget Hpost. eexists. split.
    + unfold HandleUsers.
      rewrite requireMethods_refused by (by apply not_elem_of_pair). done.
    + rewrite errorJSON_writes. done.
  - intros env r σ seg id Hpath Hseg Hparse Hget Hdel. eexists. split.
    + unfold HandleUserRoutes.
      rewrite Hpath at 1.
      rewrite <- (string_app_nil_r seg) at 1.
      rewrite users_path_long by done.
      rewrite Hpath, route_parts_single by done.
      change (default "" (head [seg])) with seg.
      rewrite Hparse. rewrite bool_decide_eq_false_2 by (by intros []).
      cbn [length]. rewrite bool_decide_eq_true_2 by done.
      rewrite requireMethods_refused by (by apply not_elem_of_pair). done.
    + rewrite errorJSON_writes. done.
Qed.

Lemma wrong_method_gets_405_with_allow_witness :
  let r := mkRequest "PUT" "/users/1" "" in
  let σ := {| store := NewUserStore; calls := [] |} in
  parsePositiveInt "1" = (1, None) ∧
  ∃ w, HandleUserRoutes (Env_default (TimeUTC 2)) NewResponseWriter r σ = (w, σ) ∧
       StatusCode w = Some 405 ∧
       Header w !! "Allow" = Some "GET, DELETE".
Proof.
  intros r σ.
  assert (parsePositiveInt "1" = (1, None)) as Hparse by (vm_compute; reflexivity).
  split; [exact Hparse|].
  destruct (proj2 wrong_method_gets_405_with_allow (Env_default (TimeUTC 2)) r σ
              "1" 1) as (w & Hw & Hresp & Hallow).
  - reflexivity.
  - split; [discriminate|reflexivity].
  - exact Hparse.
  - discriminate.
  - discriminate.
  - exists w. split; [exact Hw|]. split; [apply Hresp|exact Hallow].
Defined.

(** C9. In [HandleUserRoutes] the checks of the path come first. A first
    segment that is not a positive integer is answered 400 "invalid_path"
    whatever the method [m], also one the endpoint does not allow. And
    GET [/users/{id}/orders/{orderId}] with an [orderId] that is not empty
    but empty after trimming, white space only, is answered 400
    "invalid_path" in every world, also when no user has that id: the world
    is returned as it was, so the existence check has not run. An empty
    [orderId] does not reach that check: the slash at the end of
    [/users/{id}/orders/] is removed before the path is split, the path is
    that of no route, and the answer is 404 "not_found" whatever the
    method, the world again as it was. *)
Theorem path_checks_come_first :
  (∀ env r σ m seg tail,
     Method r = m →
     Path r = "/users/" +:+ seg +:+ tail →
     segment seg → path_tail tail →
     (parsePositiveInt seg).2 ≠ None →
     ∃ w, HandleUserRoutes env NewResponseWriter r σ = (w, σ) ∧
          responds w 400
            (error_body "invalid_path" "user id must be a positive integer" None)) ∧
  (∀ env r σ seg id o,
     Method r = "GET" →
     Path r = "/users/" +:+ seg +:+ "/orders/" +:+ o →
     segment seg → segment o →
     parsePositiveInt seg = (id, None) →
     strings.TrimSpace o = "" →
     ∃ w, HandleUserRoutes env NewResponseWriter r σ = (w, σ) ∧
          responds w 400 (error_body "invalid_path" "orderId is required" None)) ∧
  (∀ env r σ seg id slash,
     Path r = "/users/" +:+ seg +:+ "/orders" +:+ slash →
     slash = "" ∨ slash = "/" →
     segment seg →
     parsePositiveInt seg = (id, None) →
     ∃ w, HandleUserRoutes env NewResponseWriter r σ = (w, σ) ∧
          responds w 404
            (error_body "not_found" "resource not found"
               (Some (PMap {[ "path" := PText (Path r) ]})))).
Proof.
  split; [|split].
  - intros env r σ m seg tail _ Hpath Hseg Htail Herr. eexists. split.
    + apply HandleUserRoutes_invalid_id.
      * rewrite Hpath. by apply users_path_long.
      * rewrite Hpath, route_parts_head by done. done.
    + apply errorJSON_responds.
  - intros env r σ seg id o Hget Hpath Hseg Ho Hparse Htrim. eexists. split.
    + unfold HandleUserRoutes.
      rewrite Hpath at 1. rewrite users_path_long by done.
      rewrite Hpath, route_parts_orders by done.
      change (default "" (head [seg; "orders"; o])) with seg.
      rewrite Hparse. rewrite bool_decide_eq_false_2 by (by intros []).
      cbn [length]. rewrite (bool_decide_eq_false_2 (3 = 1)%nat) by done.
      rewrite (bool_decide_eq_false_2 (3 = 2)%nat) by done.
      rewrite (bool_decide_eq_true_2 (3 = 3)%nat) by done.
      cbn [andb].
      change (default "" ([seg; "orders"; o] !! 1%nat)) with "orders".
      change (streq "orders" "orders") with true. cbv iota.
      rewrite requireMethods_allowed
        by (rewrite Hget; apply list_elem_of_singleton; reflexivity).
      cbn [negb].
      change (default "" ([seg; "orders"; o] !! 2%nat)) with o.
      rewrite Htrim. done.
    + apply errorJSON_responds.
  - intros env r σ seg id slash Hpath Hslash Hseg Hparse. eexists. split.
    + assert (route_parts (Path r) = [seg; "orders"]) as Hparts
        by (rewrite Hpath; by apply route_parts_orders_end).
      assert ((String.length (Path r) <=? String.length "/users/")%nat = false)
        as Hlong by (rewrite Hpath; by apply users_path_long).
      unfold HandleUserRoutes. rewrite Hlong, !Hparts.
      change (default "" (head [seg; "orders"])) with seg.
      rewrite Hparse. rewrite bool_decide_eq_false_2 by (by intros []).
      cbn [length]. rewrite (bool_decide_eq_false_2 (2 = 1)%nat) by done.
      rewrite (bool_decide_eq_true_2 (2 = 2)%nat) by done.
      rewrite (bool_decide_eq_false_2 (2 = 3)%nat) by done.
      change (default "" ([seg; "orders"] !! 1%nat)) with "orders".
      change (streq "orders" "profile") with false. cbn [andb]. done.
    + apply errorJSON_responds.
Qed.

Lemma path_checks_come_first_witness :
  let σ := {| store := NewUserStore; calls := [] |} in
  let env := Env_default (TimeUTC 2) in
  (parsePositiveInt "abc").2 ≠ None ∧
  parsePositiveInt "5" = (5, None) ∧
  strings.TrimSpace " " = "" ∧
  items (store σ) !! 5 = None ∧
  (∃ w, HandleUserRoutes env NewResponseWriter (mkRequest "PUT" "/users/abc" "") σ
        = (w, σ) ∧
        responds w 400
          (error_body "invalid_path" "user id must be a positive integer" None)) ∧
  (∃ w, HandleUserRoutes env NewResponseWriter (mkRequest "GET" "/users/5/orders/ " "") σ
        = (w, σ) ∧
        responds w 400 (error_body "invalid_path" "orderId is required" None)) ∧
  (∃ w, HandleUserRoutes env NewResponseWriter (mkRequest "GET" "/users/5/orders/" "") σ
        = (w, σ) ∧
        responds w 404
          (error_body "not_found" "resource not found"
             (Some (PMap {[ "path" := PText "/users/5/orders/" ]})))).
Proof.
  intros σ env.
  assert ((parsePositiveInt "abc").2 ≠ None) as Herr by (vm_compute; discriminate).
  assert (parsePositiveInt "5" = (5, None)) as Hparse by (vm_compute; reflexivity).
  assert (strings.TrimSpace " " = "") as Htrim by (vm_compute; reflexivity).
  split; [exact Herr|]. split; [exact Hparse|]. split; [exact Htrim|].
  split; [reflexivity|]. split; [|split].
  - apply (proj1 path_checks_come_first env _ σ "PUT" "abc" "").
    + reflexivity.
    + reflexivity.
    + split; [discriminate|reflexivity].
    + left; reflexivity.
    + exact Herr.
  - apply (proj1 (proj2 path_checks_come_first) env _ σ "5" 5 " ").
    + reflexivity.
    + reflexivity.
    + split; [discriminate|reflexivity].
    + split; [discriminate|reflexivity].
    + exact Hparse.
    + exact Htrim.
  - apply (proj2 (proj2 path_checks_come_first) env
             (mkRequest "GET" "/users/5/orders/" "") σ "5" 5 "/").
    + reflexivity.
    + right; reflexivity.
    + split; [discriminate|reflexivity].
    + exact Hparse.
Defined.

(** GET [/users/5/orders/], the [orderId] empty, no user stored: the path
    has two segments, not three, so it is not the orders route; the answer
    is 404 "not_found" like that of any unknown sub-path, not
    400 "invalid_path". *)
Lemma orders_without_third_segment_not_found :
  strings.TrimSpace "" = "" ∧
  parsePositiveInt "5" = (5, None) ∧
  route_parts "/users/5/orders/" = ["5"; "orders"] ∧
  ∃ w, HandleUserRoutes (Env_default (TimeUTC 2)) NewResponseWriter
         (mkRequest "GET" ("/users/" +:+ "5" +:+ "/orders/" +:+ "") "")
         {| store := NewUserStore; calls := [] |}
       = (w, {| store := NewUserStore; calls := [] |}) ∧
       responds w 404
         (error_body "not_found" "resource not found"
            (Some (PMap {[ "path" := PText "/users/5/orders/" ]}))) ∧
       ¬ responds w 400 (error_body "invalid_path" "orderId is required" None).
Proof.
  split; [reflexivity|]. split; [vm_compute; reflexivity|].
  split; [vm_compute; reflexivity|].
  eexists. split; [vm_compute; reflexivity|]. split; [done|].
  intros (Hstatus & _). discriminate Hstatus.
Qed.

(** ** The service *)

Lemma CreateUser_blank env name σ :
  strings.TrimSpace name = "" →
  CreateUser env name σ =
  (User_zero, Some (App validation_error), called (CallCreateUser name) σ).
Proof. intros Htrim. unfold CreateUser. rewrite Htrim. reflexivity. Qed.

(** The round trip of the specification: the name ["  Ada  "] is stored
    and returned as ["Ada"]. *)
Lemma create_user_trims_example :
  let q := String "034"%char "" in
  let body := "{" +:+ q +:+ "name" +:+ q +:+ ": " +:+ q +:+ "  Ada  " +:+ q +:+ "}" in
  let out := HandleUsers (Env_default (TimeUTC 2)) NewResponseWriter
               (mkRequest "POST" "/users" body)
               {| store := NewUserStore; calls := [] |} in
  responds out.1 201 (PUser (mkUser 1 "Ada" (TimeUTC 2))) ∧
  Get 1 (store out.2) = (mkUser 1 "Ada" (TimeUTC 2), true) ∧
  calls out.2 = [CallCreateUser "  Ada  "; CallCreate "Ada"].
Proof. repeat split; vm_compute; reflexivity. Qed.


(** ** readJSON *)

Lemma saveError_not_EOF saved e :
  is_EOF saved = false → e ≠ io_EOF → is_EOF (saveError saved e) = false.
Proof. destruct saved as [e0|]; [done|]. by destruct e. Qed.

Lemma unmarshal_emptyStruct_not_EOF disallow v (dst : emptyStruct) :
  is_EOF (unmarshal disallow v dst).2 = false.
Proof.
  destruct v as [| | | | |ms]; try done. cbn.
  generalize (eq_refl : is_EOF None = false). generalize (@None LibError).
  induction ms as [|kv ms IH]; intros saved Hsaved; [done|]. cbn.
  apply IH. destruct disallow; [|done]. by apply saveError_not_EOF.
Qed.

(** A [Decode] into [struct{}] returns [io.EOF] only at the end of a body
    that was read whole, with nothing but white space left. *)
Lemma Decode_emptyStruct_EOF d :
  err d = None →
  is_EOF (Decode d EmptyStruct).1.2 = true →
  rd_err d = io_EOF ∧ nonSpace (buf d) = false.
Proof.
  intros Herr. unfold Decode. rewrite Herr. unfold readValue.
  destruct (json.scan _ _ _) as [v rest| |step stack].
  - pose proof (unmarshal_emptyStruct_not_EOF
                  (disallowUnknownFields (with_buf d rest)) v EmptyStruct) as Hnot.
    destruct (unmarshal _ v EmptyStruct) as [dst' e]. simpl in *. congruence.
  - done.
  - case_bool_decide as Hrd.
    + destruct (json.scan_step step stack " ") as [? ?|v|v|] eqn:Hstep;
        try (destruct (nonSpace (buf d)); simpl; by intros).
      pose proof (unmarshal_emptyStruct_not_EOF
                    (disallowUnknownFields (with_buf d "")) v EmptyStruct) as Hnot.
      destruct (unmarshal _ v EmptyStruct) as [dst' e]. simpl in *. congruence.
    + simpl. destruct (rd_err d); done.
Qed.

(** What a successful [Decode] leaves behind. *)
Lemma Decode_ok `{Unmarshal T} d (dst dst' : T) d' :
  err d = None →
  Decode d dst = (dst', None, d') →
  err d' = None ∧ rd_err d' = rd_err d ∧
  disallowUnknownFields d' = disallowUnknownFields d ∧
  ((∃ v, json.scan json.BeginValue [] (buf d) = json.Complete v (buf d') ∧
         unmarshal (disallowUnknownFields d) v dst = (dst', None)) ∨
   (∃ step stack, json.scan json.BeginValue [] (buf d) = json.Pending step stack ∧
                  buf d' = "")).
Proof.
  intros Herr. unfold Decode. rewrite Herr. unfold readValue.
  destruct (json.scan _ _ _) as [v rest| |step stack] eqn:Hscan.
  - destruct (unmarshal _ v dst) as [dst1 e] eqn:Hun. intros [= -> -> <-].
    repeat split; try done. left. exists v. by split.
  - done.
  - case_bool_decide as Hrd; [|done].
    destruct (json.scan_step step stack " ") as [? ?|v|v|]; try done.
    destruct (unmarshal _ v dst) as [dst1 e] eqn:Hun. intros [= -> -> <-].
    repeat split; try done. right. by exists step, stack.
Qed.

Lemma unmarshal_unknown_field ms key v (dst : createUserRequest) :
  (key, v) ∈ ms → field_matches key "name" = false →
  (unmarshal true (JObject ms) dst).2 ≠ None.
Proof.
  intros Hin Hkey. cbn.
  assert (∀ (l : list (string * JSON)) acc, acc.2 ≠ None →
    (foldl (λ '(dst, saved) kv,
              if field_matches kv.1 "name" then
                match kv.2 with
                | JString s => ({| req_Name := s |}, saved)
                | JNull => (dst, saved)
                | _ => (dst, saveError saved json_UnmarshalTypeError)
                end
              else (dst, saveError saved (json_UnknownField kv.1)))
       acc l).2 ≠ None) as Hkeep.
  { induction l as [|kv l IH]; intros [d0 saved] Hacc; [done|]. cbn.
    apply IH. simpl in Hacc.
    destruct (field_matches kv.1 "name"); [destruct kv.2|]; simpl;
      try done; by destruct saved. }
  generalize (dst, @None LibError).
  induction ms as [|kv ms IH]; intros [d0 saved]; [by apply elem_of_nil in Hin|].
  apply elem_of_cons in Hin as [<-|Hin].
  - cbn. rewrite Hkey. apply Hkeep. by destruct saved.
  - cbn. by apply IH.
Qed.

Lemma string_take_all n s :
  (String.length s ≤ n)%nat → http.string_take n s = s.
Proof.
  unfold http.string_take. revert n.
  induction s as [|c s IH]; intros n Hn; [by destruct n|].
  destruct n as [|n]; [simpl in Hn; lia|]. cbn. rewrite IH; [done|].
  simpl in Hn. lia.
Qed.

Lemma MaxBytesReader_within body :
  Z.of_nat (String.length body) ≤ 2 ^ 20 →
  MaxBytesReader body (Z.shiftl 1 20) = {| data := body; at_end := io_EOF |}.
Proof.
  intros Hlen. unfold MaxBytesReader.
  change (Z.shiftl 1 20) with (2 ^ 20).
  by rewrite (proj2 (Z.leb_le _ _) Hlen).
Qed.

Lemma MaxBytesReader_beyond body :
  2 ^ 20 < Z.of_nat (String.length body) →
  at_end (MaxBytesReader body (Z.shiftl 1 20)) = http_MaxBytesError.
Proof.
  intros Hlen. unfold MaxBytesReader.
  change (Z.shiftl 1 20) with (2 ^ 20).
  by rewrite (proj2 (Z.leb_gt _ _) Hlen).
Qed.

(** [readJSON] with the decoder spelled out. *)
Lemma readJSON_unfold w r (dst : createUserRequest) :
  readJSON w r dst =
  let dec := DisallowUnknownFields
               (NewDecoder (MaxBytesReader (Body r) (Z.shiftl 1 20))) in
  match Decode dec dst with
  | (dst, Some e, _) => (dst, Some (Lib e))
  | (dst, None, dec) =>
      if negb (is_EOF (Decode dec EmptyStruct).1.2)
      then (dst, Some (Lib (errors_New "unexpected extra JSON content")))
      else (dst, None)
  end.
Proof.
  unfold readJSON. cbv zeta.
  destruct (Decode _ dst) as [[dst1 [e|]] dec1]; [done|].
  by destruct (Decode dec1 EmptyStruct) as [[? ?] ?].
Qed.

Lemma readJSON_oversized w r (dst : createUserRequest) :
  oversized r → (readJSON w r dst).2 ≠ None.
Proof.
  intros Hbig. rewrite readJSON_unfold. cbv zeta.
  destruct (Decode _ dst) as [[dst1 [e|]] dec1] eqn:Hdec; [done|].
  edestruct @Decode_ok as (Herr & Hrd & _); [|exact Hdec|]; [reflexivity|].
  destruct (is_EOF (Decode dec1 EmptyStruct).1.2) eqn:Heof; [|done].
  destruct (Decode_emptyStruct_EOF dec1 Herr Heof) as [Hrd' _].
  rewrite Hrd in Hrd'. simpl in Hrd'.
  by rewrite (MaxBytesReader_beyond _ Hbig) in Hrd'.
Qed.

Lemma readJSON_unknown_field w r (dst : createUserRequest) :
  has_unknown_field r → (readJSON w r dst).2 ≠ None.
Proof.
  intros (ms & rest & key & v & Hfirst & Hin & Hkey).
  destruct (decide (Z.of_nat (String.length (Body r)) ≤ 2 ^ 20)) as [Hlen|Hlen];
    [|apply readJSON_oversized; unfold oversized; lia].
  rewrite readJSON_unfold. cbv zeta.
  destruct (Decode _ dst) as [[dst1 [e|]] dec1] eqn:Hdec; [done|].
  edestruct @Decode_ok as (_ & _ & _ & Hcase); [|exact Hdec|]; [reflexivity|].
  simpl in Hcase. rewrite (MaxBytesReader_within _ Hlen) in Hcase.
  simpl in Hcase. unfold first_value in Hfirst. rewrite Hfirst in Hcase.
  destruct Hcase as [(v' & [= <- _] & Hun)|(? & ? & [=] & _)].
  pose proof (unmarshal_unknown_field ms key v dst Hin Hkey) as Hne.
  by rewrite Hun in Hne.
Qed.

Lemma readJSON_trailing_content w r (dst : createUserRequest) :
  has_trailing_content r → (readJSON w r dst).2 ≠ None.
Proof.
  intros (v & rest & Hfirst & Hrest).
  destruct (decide (Z.of_nat (String.length (Body r)) ≤ 2 ^ 20)) as [Hlen|Hlen];
    [|apply readJSON_oversized; unfold oversized; lia].
  rewrite readJSON_unfold. cbv zeta.
  destruct (Decode _ dst) as [[dst1 [e|]] dec1] eqn:Hdec; [done|].
  edestruct @Decode_ok as (Herr & _ & _ & Hcase); [|exact Hdec|]; [reflexivity|].
  simpl in Hcase. rewrite (MaxBytesReader_within _ Hlen) in Hcase.
  simpl in Hcase. unfold first_value in Hfirst. rewrite Hfirst in Hcase.
  destruct Hcase as [(v' & [= _ Hbuf] & _)|(? & ? & [=] & _)].
  destruct (is_EOF (Decode dec1 EmptyStruct).1.2) eqn:Heof; [|done].
  destruct (Decode_emptyStruct_EOF dec1 Herr Heof) as [_ Hns].
  congruence.
Qed.

Lemma HandleUsers_invalid_json env r σ req e :
  Method r = "POST" →
  readJSON NewResponseWriter r {| req_Name := "" |} = (req, Some e) →
  HandleUsers env NewResponseWriter r σ =
  (errorJSON NewResponseWriter 400 "invalid_json" (Error e) None, σ).
Proof.
  intros Hpost Hread. unfold HandleUsers.
  rewrite requireMethods_allowed
    by (rewrite Hpost; apply elem_of_cons; right; apply list_elem_of_singleton;
        reflexivity).
  cbn [negb]. rewrite Hpost.
  change (streq "POST" MethodGet) with false.
  change (streq "POST" MethodPost) with true. cbv iota.
  by rewrite Hread.
Qed.

(** C8. A POST body that is longer than 1 MiB, or whose JSON object has a
    field that [createUserRequest] does not declare, or that goes on after
    its first JSON value with anything but white space, makes [readJSON]
    fail, and every failure of [readJSON] makes the handler answer 400
    with the error code "invalid_json", the service not being called. A
    body of up to 1 MiB reaches the decoder whole. *)
Theorem bad_body_is_invalid_json :
  (∀ env r σ,
     Method r = "POST" →
     oversized r ∨ has_unknown_field r ∨ has_trailing_content r →
     ∃ w e, (readJSON NewResponseWriter r {| req_Name := "" |}).2 = Some e ∧
            HandleUsers env NewResponseWriter r σ = (w, σ) ∧
            responds w 400 (error_body "invalid_json" (Error e) None)) ∧
  (∀ env r σ e,
     Method r = "POST" →
     (readJSON NewResponseWriter r {| req_Name := "" |}).2 = Some e →
     ∃ w, HandleUsers env NewResponseWriter r σ = (w, σ) ∧
          responds w 400 (error_body "invalid_json" (Error e) None)) ∧
  (∀ body,
     Z.of_nat (String.length body) ≤ 2 ^ 20 →
     MaxBytesReader body (Z.shiftl 1 20) = {| data := body; at_end := io_EOF |}).
Proof.
  assert (∀ env r σ e,
     Method r = "POST" →
     (readJSON NewResponseWriter r {| req_Name := "" |}).2 = Some e →
     ∃ w, HandleUsers env NewResponseWriter r σ = (w, σ) ∧
          responds w 400 (error_body "invalid_json" (Error e) None)) as Hany.
  { intros env r σ e Hpost Hread.
    destruct (readJSON _ r _) as [req e'] eqn:Hr. simpl in Hread. subst e'.
    eexists. split; [by eapply HandleUsers_invalid_json|].
    apply errorJSON_responds. }
  split; [|split; [exact Hany|exact MaxBytesReader_within]].
  intros env r σ Hpost Hbad.
  assert ((readJSON NewResponseWriter r {| req_Name := "" |}).2 ≠ None) as Hne.
  { destruct Hbad as [?|[?|?]];
      [by apply readJSON_oversized|by apply readJSON_unknown_field|
       by apply readJSON_trailing_content]. }
  destruct (readJSON _ r _).2 as [e|] eqn:He; [|done].
  destruct (Hany env r σ e Hpost He) as (w & Hw & Hresp).
  by exists w, e.
Qed.

Lemma bad_body_is_invalid_json_witness :
  let q := String "034"%char "" in
  let body := "{" +:+ q +:+ "name" +:+ q +:+ ":" +:+ q +:+ "ada" +:+ q +:+ "} {}" in
  let r := mkRequest "POST" "/users" body in
  let σ := {| store := NewUserStore; calls := [] |} in
  let env := Env_default (TimeUTC 2) in
  has_trailing_content r ∧
  ∃ w, HandleUsers env NewResponseWriter r σ = (w, σ) ∧
       responds w 400
         (error_body "invalid_json" "unexpected extra JSON content" None).
Proof.
  intros q body r σ env.
  assert (has_trailing_content r) as Htrail.
  { exists (JObject [("name", JString "ada")]), " {}".
    split; vm_compute; reflexivity. }
  split; [exact Htrail|].
  destruct (proj1 bad_body_is_invalid_json env r σ eq_refl
              (or_intror (or_intror Htrail))) as (w & e & He & Hw & Hresp).
  exists w. split; [exact Hw|].
  assert ((readJSON NewResponseWriter r {| req_Name := "" |}).2
          = Some (Lib (errors_New "unexpected extra JSON content"))) as He'
    by (vm_compute; reflexivity).
  rewrite He' in He. injection He as <-. exact Hresp.
Defined.

(** White space after the value is not content: the second [Decode] reads
    it as [io.EOF]. And a key names a field without regard to case. *)
Lemma readJSON_accepts_examples :
  let q := String "034"%char "" in
  let nl := String "010"%char "" in
  let read body :=
    readJSON NewResponseWriter (mkRequest "POST" "/users" body)
      {| req_Name := "" |} in
  read ("{" +:+ q +:+ "name" +:+ q +:+ ":" +:+ q +:+ "ada" +:+ q +:+ "}" +:+ nl)
  = ({| req_Name := "ada" |}, None) ∧
  read ("{" +:+ q +:+ "NAME" +:+ q +:+ ":" +:+ q +:+ "ada" +:+ q +:+ "}")
  = ({| req_Name := "ada" |}, None) ∧
  read ("{" +:+ q +:+ "nam" +:+ q +:+ ":" +:+ q +:+ "ada" +:+ q +:+ "}")
  = ({| req_Name := "" |}, Some (Lib (json_UnknownField "nam"))) ∧
  read "" = ({| req_Name := "" |}, Some (Lib io_EOF)).
Proof. repeat split; vm_compute; reflexivity. Qed.


(** ** strconv.Atoi *)

Lemma byte_range c : 0 ≤ byte c < 256.
Proof.
  unfold byte. pose proof (N_ascii_bounded c). lia.
Qed.

Lemma byte_char b : 0 ≤ b < 256 → byte (char b) = b.
Proof.
  intros Hb. unfold byte, char. rewrite N_ascii_embedding by lia. lia.
Qed.

Lemma digits_from_ge s acc v : 0 ≤ acc → digits_from acc s = Some v → acc ≤ v.
Proof.
  revert acc. induction s as [|c s IH]; intros acc Hacc; cbn.
  - intros [= <-]. lia.
  - destruct (between 48 57 (byte c)) eqn:Hd; [|done].
    unfold between in Hd. apply andb_true_iff in Hd as [H1 H2].
    apply Z.leb_le in H1, H2. intros Hv. apply IH in Hv; lia.
Qed.

Lemma digits_from_app a b acc :
  digits_from acc (a +:+ b) = digits_from acc a ≫= λ v, digits_from v b.
Proof.
  revert acc. induction a as [|c a IH]; intros acc; [done|].
  rewrite string_app_cons. cbn. destruct (between 48 57 (byte c)); [|done].
  apply IH.
Qed.

Lemma ParseUint_go_spec s n :
  0 ≤ n ≤ strconv.maxUint64 →
  match digits_from n s with
  | Some v =>
      (v ≤ strconv.maxUint64 → strconv.ParseUint_go n s = (v, None)) ∧
      (strconv.maxUint64 < v →
       strconv.ParseUint_go n s = (strconv.maxUint64, Some strconv.ErrRange))
  | None =>
      strconv.ParseUint_go n s = (0, Some strconv.ErrSyntax) ∨
      strconv.ParseUint_go n s = (strconv.maxUint64, Some strconv.ErrRange)
  end.
Proof.
  revert n. induction s as [|c s IH]; intros n Hn; cbn.
  - split; [done|lia].
  - destruct (between 48 57 (byte c)) eqn:Hd; [|by left].
    unfold between in Hd. apply andb_true_iff in Hd as [H1 H2].
    apply Z.leb_le in H1, H2.
    assert (strconv.maxUint64 = 18446744073709551615) as Hmax by reflexivity.
    destruct (Z.leb_spec (strconv.maxUint64 `div` 10 + 1) n) as [Hcut|Hcut].
    { rewrite Hmax in Hcut. change (18446744073709551615 `div` 10 + 1)
        with 1844674407370955162 in Hcut.
      destruct (digits_from _ s) as [v|] eqn:Hv; [|by right].
      apply digits_from_ge in Hv; [|lia]. split; [lia|done]. }
    destruct (Z.ltb_spec strconv.maxUint64 (n * 10 + (byte c - 48))) as [Hov|Hov].
    { destruct (digits_from _ s) as [v|] eqn:Hv; [|by right].
      apply digits_from_ge in Hv; [|lia]. split; [lia|done]. }
    apply IH. lia.
Qed.

Lemma ParseUint_spec s :
  match digits_value s with
  | Some v =>
      if bool_decide (s = "") then strconv.ParseUint s = (0, Some strconv.ErrSyntax)
      else if bool_decide (v ≤ strconv.maxUint64) then strconv.ParseUint s = (v, None)
      else strconv.ParseUint s = (strconv.maxUint64, Some strconv.ErrRange)
  | None =>
      strconv.ParseUint s = (0, Some strconv.ErrSyntax) ∨
      strconv.ParseUint s = (strconv.maxUint64, Some strconv.ErrRange)
  end.
Proof.
  unfold digits_value.
  pose proof (ParseUint_go_spec s 0 ltac:(done)) as H.
  destruct s as [|c s]; [done|].
  change (strconv.ParseUint (String c s)) with (strconv.ParseUint_go 0 (String c s)).
  destruct (digits_from 0 (String c s)) as [v|]; [|done].
  rewrite bool_decide_eq_false_2 by done. destruct H as [H1 H2].
  case_bool_decide; [by apply H1|apply H2; lia].
Qed.

(** [ParseInt] after the sign has been picked off: [un] is what [ParseUint]
    returned for the digits. *)
Lemma ParseInt_cons c r :
  strconv.ParseInt (String c r) =
  let neg := bool_decide (c = "-"%char) in
  let s1 := if bool_decide (c = "+"%char) || neg then r else String c r in
  match strconv.ParseUint s1 with
  | (_, Some strconv.ErrSyntax) => (0, Some strconv.ErrSyntax)
  | (un, _) =>
      if negb neg && (2 ^ 63 <=? un) then (2 ^ 63 - 1, Some strconv.ErrRange)
      else if neg && (2 ^ 63 <? un) then (- 2 ^ 63, Some strconv.ErrRange)
      else (if neg then - un else un, None)
  end.
Proof. reflexivity. Qed.

(** What [ParseInt] makes of the digits [s1] behind a sign. *)
Lemma ParseInt_digits (neg : bool) s1 n :
  (match strconv.ParseUint s1 with
   | (_, Some strconv.ErrSyntax) => (0, Some strconv.ErrSyntax)
   | (un, _) =>
       if negb neg && (2 ^ 63 <=? un) then (2 ^ 63 - 1, Some strconv.ErrRange)
       else if neg && (2 ^ 63 <? un) then (- 2 ^ 63, Some strconv.ErrRange)
       else (if neg then - un else un, None)
   end) = (n, None) ↔
  ∃ m, s1 ≠ "" ∧ digits_value s1 = Some m ∧
       n = (if neg then - m else m) ∧ int_min ≤ n ≤ int_max.
Proof.
  assert (strconv.maxUint64 = 18446744073709551615) as Hmax by reflexivity.
  assert (int_max = 9223372036854775807) as Himax by reflexivity.
  assert (int_min = -9223372036854775808) as Himin by reflexivity.
  change (2 ^ 63) with 9223372036854775808.
  pose proof (ParseUint_spec s1) as Hspec.
  destruct (digits_value s1) as [v|] eqn:Hv.
  - assert (0 ≤ v) as Hv0 by (by eapply (digits_from_ge s1 0)).
    case_bool_decide as Hnil.
    { rewrite Hspec. split; [done|]. by intros (m & Hne & _). }
    case_bool_decide as Hle; rewrite Hspec.
    + destruct neg; cbn [negb andb].
      * destruct (Z.ltb_spec 9223372036854775808 v).
        -- split; [done|]. intros (m & _ & [= <-] & -> & Hr). lia.
        -- split.
           ++ intros [= <-]. exists v. repeat split; try done; lia.
           ++ intros (m & _ & [= <-] & -> & Hr). done.
      * destruct (Z.leb_spec 9223372036854775808 v).
        -- split; [done|]. intros (m & _ & [= <-] & -> & Hr). lia.
        -- split.
           ++ intros [= <-]. exists v. repeat split; try done; lia.
           ++ intros (m & _ & [= <-] & -> & Hr). done.
    + rewrite Hmax. destruct neg; cbn [negb andb].
      * cbn. split; [done|]. intros (m & _ & [= <-] & -> & Hr). lia.
      * cbn. split; [done|]. intros (m & _ & [= <-] & -> & Hr). lia.
  - destruct Hspec as [-> | ->].
    + split; [done|]. by intros (m & _ & [=] & _).
    + rewrite Hmax. destruct neg; cbn; (split; [done|]); by intros (m & _ & [=] & _).
Qed.

Lemma digits_first_byte c r acc v :
  digits_from acc (String c r) = Some v → between 48 57 (byte c) = true.
Proof. cbn. by destruct (between 48 57 (byte c)). Qed.

(** [Atoi] accepts exactly the decimal numerals of the values of [int]. *)
Lemma Atoi_spec s n :
  strconv.Atoi s = (n, None) ↔ numeral s n ∧ int_min ≤ n ≤ int_max.
Proof.
  unfold strconv.Atoi. destruct s as [|c r].
  { split; [done|]. intros [(sign & ds & m & Hs & Hne & _) _].
    destruct sign; [|done]. by destruct ds. }
  rewrite ParseInt_cons. cbv zeta.
  destruct (decide (c = "+"%char)) as [->|Hplus].
  - change (bool_decide ("+"%char = "-"%char)) with false.
    change (bool_decide ("+"%char = "+"%char)) with true. cbn [orb].
    rewrite (ParseInt_digits false). split.
    + intros (m & Hne & Hm & -> & Hr). split; [|done].
      exists "+", r, m. repeat split; try done. right; left. done.
    + intros [(sign & ds & m & Hs & Hne & Hm & Hcase) Hr].
      destruct Hcase as [[-> ->]|[[-> ->]|[-> ->]]].
      * rewrite string_app_nil_l in Hs. subst ds.
        by apply digits_first_byte in Hm.
      * injection Hs as ->. by exists m.
      * done.
  - destruct (decide (c = "-"%char)) as [->|Hminus].
    + change (bool_decide ("-"%char = "-"%char)) with true.
      rewrite orb_true_r.
      rewrite (ParseInt_digits true). split.
      * intros (m & Hne & Hm & -> & Hr). split; [|done].
        exists "-", r, m. repeat split; try done. right; right. done.
      * intros [(sign & ds & m & Hs & Hne & Hm & Hcase) Hr].
        destruct Hcase as [[-> ->]|[[-> ->]|[-> ->]]].
        -- rewrite string_app_nil_l in Hs. subst ds.
           by apply digits_first_byte in Hm.
        -- done.
        -- injection Hs as ->. by exists m.
    + rewrite !bool_decide_eq_false_2 by done. cbn [orb].
      rewrite (ParseInt_digits false). split.
      * intros (m & Hne & Hm & -> & Hr). split; [|done].
        exists "", (String c r), m. repeat split; try done. by left.
      * intros [(sign & ds & m & Hs & Hne & Hm & Hcase) Hr].
        destruct Hcase as [[-> ->]|[[-> ->]|[-> ->]]].
        -- rewrite string_app_nil_l in Hs. subst ds. by exists m.
        -- by injection Hs as -> _.
        -- by injection Hs as -> _.
Qed.

Lemma parsePositiveInt_spec s n :
  parsePositiveInt s = (n, None) ↔
  0 < n ≤ int_max ∧ numeral (strings.TrimSpace s) n.
Proof.
  unfold parsePositiveInt.
  destruct (strconv.Atoi (strings.TrimSpace s)) as [n' e] eqn:Hatoi.
  split.
  - destruct e as [e|].
    { rewrite bool_decide_eq_true_2 by done. done. }
    rewrite bool_decide_eq_false_2 by (by intros []). cbn [orb].
    destruct (Z.leb_spec n' 0); [done|]. intros [= <-].
    apply Atoi_spec in Hatoi as [Hnum Hr]. split; [lia|done].
  - intros [Hn Hnum].
    assert (strconv.Atoi (strings.TrimSpace s) = (n, None)) as Hatoi'.
    { apply Atoi_spec. split; [done|].
      unfold int_min, int_max, int_bits in *. lia. }
    rewrite Hatoi in Hatoi'. injection Hatoi' as -> ->.
    rewrite bool_decide_eq_false_2 by (by intros []). cbn [orb].
    destruct (Z.leb_spec n 0); [lia|done].
Qed.

(** ** strings.TrimSpace *)

Lemma ascii_not_space c :
  between 43 57 (byte c) = true →
  (byte c <? utf8.RuneSelf) = true ∧ unicode.IsSpace (byte c) = false.
Proof.
  unfold between. intros [H1 H2]%andb_true_iff. apply Z.leb_le in H1, H2.
  split; [apply Z.ltb_lt; unfold utf8.RuneSelf; lia|].
  apply bool_decide_eq_false. unfold unicode.White_Space.
  rewrite !elem_of_cons, elem_of_nil. lia.
Qed.

Lemma TrimLeft_stop c s :
  between 43 57 (byte c) = true →
  strings.TrimLeftFunc_go unicode.IsSpace 0 (String c s) = String c s.
Proof.
  intros [Hlt Hns]%ascii_not_space. cbn. rewrite Hlt. by rewrite Hns.
Qed.

Lemma TrimRight_stop c s :
  between 43 57 (byte c) = true →
  strings.TrimRightFunc_go unicode.IsSpace 0 (String c s) = String c s.
Proof.
  intros [Hlt Hns]%ascii_not_space. cbn. rewrite Hlt. by rewrite Hns.
Qed.

Lemma TrimLeft_space r s :
  r ∈ unicode.White_Space →
  strings.TrimLeftFunc_go unicode.IsSpace 0 (utf8.EncodeRune r +:+ s) =
  strings.TrimLeftFunc_go unicode.IsSpace 0 s.
Proof.
  unfold unicode.White_Space. rewrite !elem_of_cons, elem_of_nil.
  intros H. repeat (destruct H as [->|H]; [reflexivity|]). done.
Qed.

Lemma TrimRight_space r s :
  r ∈ unicode.White_Space →
  strings.TrimRightFunc_go unicode.IsSpace 0 (String.rev (utf8.EncodeRune r) +:+ s) =
  strings.TrimRightFunc_go unicode.IsSpace 0 s.
Proof.
  unfold unicode.White_Space. rewrite !elem_of_cons, elem_of_nil.
  intros H. repeat (destruct H as [->|H]; [reflexivity|]). done.
Qed.

Lemma TrimLeft_blank ws s :
  blank ws →
  strings.TrimLeftFunc_go unicode.IsSpace 0 (ws +:+ s) =
  strings.TrimLeftFunc_go unicode.IsSpace 0 s.
Proof.
  intros (runes & Hrunes & ->).
  induction Hrunes as [|r runes Hr Hrunes IH]; [done|].
  cbn [foldr]. rewrite string_app_assoc, TrimLeft_space by done. apply IH.
Qed.

Lemma TrimRight_blank ws s :
  blank ws →
  strings.TrimRightFunc_go unicode.IsSpace 0 (String.rev ws +:+ s) =
  strings.TrimRightFunc_go unicode.IsSpace 0 s.
Proof.
  intros (runes & Hrunes & ->). revert s.
  induction Hrunes as [|r runes Hr Hrunes IH]; intros s; [done|].
  cbn [foldr]. rewrite string_rev_app, string_app_assoc, IH.
  by apply TrimRight_space.
Qed.

(** White space around a text that starts and ends with a sign or a digit
    is what [TrimSpace] removes. *)
Lemma TrimSpace_blank_around ws1 c core d erocr ws2 :
  blank ws1 → blank ws2 →
  between 43 57 (byte c) = true →
  String.rev (String c core) = String d erocr →
  between 43 57 (byte d) = true →
  strings.TrimSpace (ws1 +:+ String c core +:+ ws2) = String c core.
Proof.
  intros Hws1 Hws2 Hc Hrev Hd.
  unfold strings.TrimSpace, strings.TrimFunc, strings.TrimLeftFunc,
    strings.TrimRightFunc.
  rewrite TrimLeft_blank by done. rewrite string_app_cons.
  rewrite TrimLeft_stop by done. rewrite <- string_app_cons.
  rewrite string_rev_app, TrimRight_blank by done.
  rewrite Hrev, TrimRight_stop by done.
  by rewrite <- Hrev, string_rev_involutive.
Qed.

(** ** CreateUser and the white space around a name *)

Lemma TrimLeft_visible c s :
  visible c →
  strings.TrimLeftFunc_go unicode.IsSpace 0 (String c s) = String c s.
Proof.
  intros [Hlt Hns]. apply Z.ltb_lt in Hlt. cbn. rewrite Hlt. by rewrite Hns.
Qed.

Lemma TrimRight_visible c s :
  visible c →
  strings.TrimRightFunc_go unicode.IsSpace 0 (String c s) = String c s.
Proof.
  intros [Hlt Hns]. apply Z.ltb_lt in Hlt. cbn. rewrite Hlt. by rewrite Hns.
Qed.

(** Of a string of white space [TrimSpace] leaves nothing. *)
Lemma TrimSpace_blank ws : blank ws → strings.TrimSpace ws = "".
Proof.
  intros Hws.
  unfold strings.TrimSpace, strings.TrimFunc, strings.TrimLeftFunc,
    strings.TrimRightFunc.
  rewrite <- (string_app_nil_r ws) at 1. by rewrite TrimLeft_blank.
Qed.

(** White space around a solid text is what [TrimSpace] removes, all of it
    and nothing else. *)
Lemma TrimSpace_solid l core r :
  blank l → blank r → solid core →
  strings.TrimSpace (l +:+ core +:+ r) = core.
Proof.
  intros Hl Hr (c & rest & d & tser & -> & Hrev & Hc & Hd).
  unfold strings.TrimSpace, strings.TrimFunc, strings.TrimLeftFunc,
    strings.TrimRightFunc.
  rewrite TrimLeft_blank by done. rewrite string_app_cons.
  rewrite TrimLeft_visible by done. rewrite <- string_app_cons.
  rewrite string_rev_app, TrimRight_blank by done.
  rewrite Hrev, TrimRight_visible by done.
  by rewrite <- Hrev, string_rev_involutive.
Qed.

Lemma solid_nonempty core : solid core → core ≠ "".
Proof. by intros (c & rest & d & tser & -> & _). Qed.

(** C2. [CreateUser] trims the name first. When the trimmed name is empty
    it returns the validation error (status 400, code "validation_failed",
    message "missing required fields", details ["name is required"]) and
    the store is unchanged, no call reaching it. Otherwise it returns the
    user that the store's [Create] made of the trimmed name, which is then
    in the store. POST [/users] answers the first case with exactly that
    error as a 400 response. What trimming removes is the white space
    around the name: a name of white space only, the empty name among
    them, is the first case, also in the body of a POST; and a name with
    white space around a solid text is stored and returned as that text. *)
Theorem create_user_validates_name :
  (∀ env name σ,
     strings.TrimSpace name = "" →
     ∃ σ', CreateUser env name σ = (User_zero, Some (App validation_error), σ') ∧
           store σ' = store σ ∧
           calls σ' = calls σ ++ [CallCreateUser name]) ∧
  (∀ env name σ,
     strings.TrimSpace name ≠ "" →
     ∃ u σ', CreateUser env name σ = (u, None, σ') ∧
             (u, store σ') = Create (strings.TrimSpace name) (env_now env) (store σ) ∧
             Name u = strings.TrimSpace name ∧
             Get (ID u) (store σ') = (u, true) ∧
             calls σ' = calls σ ++ [CallCreateUser name;
                                    CallCreate (strings.TrimSpace name)]) ∧
  (∀ env r σ req,
     Method r = "POST" →
     readJSON NewResponseWriter r {| req_Name := "" |} = (req, None) →
     strings.TrimSpace (req_Name req) = "" →
     ∃ w σ', HandleUsers env NewResponseWriter r σ = (w, σ') ∧
             responds w 400
               (error_body "validation_failed" "missing required fields"
                  (Some (PStrings ["name is required"]))) ∧
             store σ' = store σ) ∧
  (∀ env name σ,
     blank name →
     ∃ σ', CreateUser env name σ = (User_zero, Some (App validation_error), σ') ∧
           store σ' = store σ ∧
           calls σ' = calls σ ++ [CallCreateUser name]) ∧
  (∀ env l core r σ,
     blank l → blank r → solid core →
     ∃ u σ', CreateUser env (l +:+ core +:+ r) σ = (u, None, σ') ∧
             u = {| ID := nextID (store σ); Name := core;
                    CreatedAt := env_now env |} ∧
             Get (ID u) (store σ') = (u, true) ∧
             calls σ' = calls σ ++ [CallCreateUser (l +:+ core +:+ r);
                                    CallCreate core]) ∧
  (∀ env r σ req,
     Method r = "POST" →
     readJSON NewResponseWriter r {| req_Name := "" |} = (req, None) →
     blank (req_Name req) →
     ∃ w σ', HandleUsers env NewResponseWriter r σ = (w, σ') ∧
             responds w 400
               (error_body "validation_failed" "missing required fields"
                  (Some (PStrings ["name is required"]))) ∧
             store σ' = store σ).
Proof.
  assert (∀ env name σ,
     strings.TrimSpace name = "" →
     ∃ σ', CreateUser env name σ = (User_zero, Some (App validation_error), σ') ∧
           store σ' = store σ ∧
           calls σ' = calls σ ++ [CallCreateUser name]) as Hblank.
  { intros env name σ Htrim. eexists. split; [by apply CreateUser_blank|done]. }
  assert (∀ env name σ,
     strings.TrimSpace name ≠ "" →
     ∃ u σ', CreateUser env name σ = (u, None, σ') ∧
             (u, store σ') = Create (strings.TrimSpace name) (env_now env) (store σ) ∧
             Name u = strings.TrimSpace name ∧
             Get (ID u) (store σ') = (u, true) ∧
             calls σ' = calls σ ++ [CallCreateUser name;
                                    CallCreate (strings.TrimSpace name)]) as Hname.
  { intros env name σ Htrim.
    exists (Create (strings.TrimSpace name) (env_now env) (store σ)).1.
    eexists. split; [|split; [|split; [|split]]].
    + unfold CreateUser, streq. rewrite bool_decide_eq_false_2 by done.
      reflexivity.
    + done.
    + done.
    + unfold Get. simpl. by rewrite lookup_insert_eq.
    + simpl. by rewrite <- app_assoc. }
  assert (∀ env r σ req,
     Method r = "POST" →
     readJSON NewResponseWriter r {| req_Name := "" |} = (req, None) →
     strings.TrimSpace (req_Name req) = "" →
     ∃ w σ', HandleUsers env NewResponseWriter r σ = (w, σ') ∧
             responds w 400
               (error_body "validation_failed" "missing required fields"
                  (Some (PStrings ["name is required"]))) ∧
             store σ' = store σ) as Hpost.
  { intros env r σ req Hpost Hread Htrim.
    pose proof (CreateUser_blank env (req_Name req) σ Htrim) as Hcreate.
    eexists _, _. split; [|split].
    + unfold HandleUsers. rewrite requireMethods_allowed
        by (rewrite Hpost; apply elem_of_cons; right; apply list_elem_of_singleton;
            reflexivity).
      cbn [negb]. rewrite Hpost.
      change (streq "POST" MethodGet) with false.
      change (streq "POST" MethodPost) with true. cbv iota.
      rewrite Hread, Hcreate. reflexivity.
    + apply errorJSON_responds.
    + done. }
  split; [exact Hblank|]. split; [exact Hname|]. split; [exact Hpost|].
  split; [|split].
  - intros env name σ Hws. by apply Hblank, TrimSpace_blank.
  - intros env l core r σ Hl Hr Hcore.
    pose proof (TrimSpace_solid l core r Hl Hr Hcore) as Htrim.
    destruct (Hname env (l +:+ core +:+ r) σ) as (u & σ' & Hu & Hcreate & _ & Hget & Hcalls).
    { rewrite Htrim. by apply solid_nonempty. }
    rewrite Htrim in Hcreate, Hcalls. exists u, σ'.
    split; [done|]. split; [|done]. by injection Hcreate as -> _.
  - intros env r σ req Hmethod Hread Hws.
    by apply (Hpost env r σ req Hmethod Hread), TrimSpace_blank.
Qed.

Lemma create_user_validates_name_witness :
  let q := String "034"%char "" in
  let body := "{" +:+ q +:+ "name" +:+ q +:+ ": " +:+ q +:+ "  " +:+ q +:+ "}" in
  let r := mkRequest "POST" "/users" body in
  let σ := {| store := NewUserStore; calls := [] |} in
  let env := Env_default (TimeUTC 2) in
  let u := mkUser 1 "Ada" (TimeUTC 2) in
  readJSON NewResponseWriter r {| req_Name := "" |} = ({| req_Name := "  " |}, None) ∧
  blank "  " ∧ solid "Ada" ∧
  (∃ σ', CreateUser env "  " σ = (User_zero, Some (App validation_error), σ') ∧
         store σ' = store σ) ∧
  (∃ σ', CreateUser env "  Ada  " σ = (u, None, σ') ∧
         Get 1 (store σ') = (u, true) ∧
         calls σ' = [CallCreateUser "  Ada  "; CallCreate "Ada"]) ∧
  (∃ w σ', HandleUsers env NewResponseWriter r σ = (w, σ') ∧
           responds w 400
             (error_body "validation_failed" "missing required fields"
                (Some (PStrings ["name is required"]))) ∧
           store σ' = store σ).
Proof.
  intros q body r σ env u.
  assert (readJSON NewResponseWriter r {| req_Name := "" |}
          = ({| req_Name := "  " |}, None)) as Hread by (vm_compute; reflexivity).
  assert (blank "  ") as Hws.
  { exists [32; 32]. split; [|reflexivity]. repeat constructor. }
  assert (solid "Ada") as Hcore.
  { exists "A"%char, "da", "a"%char, "dA".
    split; [reflexivity|]. split; [reflexivity|].
    split; (split; [reflexivity|reflexivity]). }
  destruct create_user_validates_name as (_ & _ & _ & Hblank & Hsolid & Hpost).
  split; [exact Hread|]. split; [exact Hws|]. split; [exact Hcore|].
  split; [|split].
  - destruct (Hblank env "  " σ Hws) as (σ' & Hc & Hst & _).
    exists σ'. split; [exact Hc|exact Hst].
  - destruct (Hsolid env "  " "Ada" "  " σ Hws Hws Hcore)
      as (u' & σ' & Hc & Hu & Hget & Hcalls).
    exists σ'. rewrite Hu in Hc, Hget. split; [exact Hc|].
    split; [exact Hget|exact Hcalls].
  - exact (Hpost env r σ _ eq_refl Hread Hws).
Defined.

(** ** Decimal forms *)

Lemma digits_from_zeros k s : digits_from 0 (zeros k +:+ s) = digits_from 0 s.
Proof. induction k as [|k IH]; [done|]. cbn [zeros]. rewrite string_app_cons. apply IH. Qed.

Lemma decimal_go_app fuel n acc :
  decimal_go fuel n acc = decimal_go fuel n "" +:+ acc.
Proof.
  revert n acc. induction fuel as [|fuel IH]; intros n acc; [done|].
  cbn. destruct (n <? 10); [done|].
  rewrite IH, (IH _ (String _ "")), string_app_assoc. done.
Qed.

Lemma decimal_go_value fuel n a :
  0 ≤ n < 2 ^ Z.of_nat fuel →
  ∃ k, digits_from a (decimal_go fuel n "") = Some (a * 10 ^ k + n) ∧ 0 ≤ k.
Proof.
  revert n a. induction fuel as [|fuel IH]; intros n a Hn.
  { change (2 ^ Z.of_nat 0) with 1 in Hn. assert (n = 0) as -> by lia.
    exists 0. cbn. split; [f_equal; lia|lia]. }
  cbn [decimal_go].
  assert (0 ≤ n `mod` 10 < 10) as Hmod by (apply Z.mod_pos_bound; lia).
  assert (between 48 57 (byte (char (48 + n `mod` 10))) = true) as Hdig.
  { rewrite byte_char by lia. unfold between.
    apply andb_true_iff. split; apply Z.leb_le; lia. }
  destruct (Z.ltb_spec n 10) as [Hlt|Hge].
  - exists 1. cbn. rewrite Hdig, byte_char by lia.
    rewrite Z.mod_small by lia. split; [f_equal; lia|lia].
  - rewrite decimal_go_app, digits_from_app.
    destruct (IH (n `div` 10) a) as (k & Hk & Hpos).
    { split; [apply Z.div_pos; lia|].
      apply Z.div_lt_upper_bound; [lia|].
      rewrite Nat2Z.inj_succ, Z.pow_succ_r in Hn by lia. lia. }
    rewrite Hk. cbn. rewrite Hdig, byte_char by lia.
    exists (k + 1). split; [|lia]. f_equal.
    rewrite Z.pow_add_r, Z.pow_1_r by lia.
    pose proof (Z.div_mod n 10 ltac:(lia)). lia.
Qed.

Lemma decimal_value n : 0 ≤ n → digits_value (decimal n) = Some n.
Proof.
  intros Hn. unfold digits_value, decimal.
  destruct (decimal_go_value (S (Z.to_nat (Z.log2 n))) n 0) as (k & -> & _);
    [|f_equal; lia].
  split; [done|]. destruct (decide (n = 0)) as [->|Hne]; [done|].
  rewrite Nat2Z.inj_succ, Z2Nat.id by apply Z.log2_nonneg.
  apply Z.log2_spec. lia.
Qed.

Lemma decimal_cons n :
  ∃ c r, decimal n = String c r.
Proof.
  unfold decimal. cbn [decimal_go]. destruct (n <? 10); [by eexists _, _|].
  rewrite decimal_go_app.
  destruct (decimal_go _ _ "") as [|c r]; by eexists _, _.
Qed.

(** The last byte of a string of digits is a digit. *)
Lemma digits_rev_head s acc v :
  s ≠ "" → digits_from acc s = Some v →
  ∃ d r, String.rev s = String d r ∧ between 48 57 (byte d) = true.
Proof.
  revert acc. induction s as [|c s IH]; intros acc Hne Hv; [done|].
  pose proof (digits_first_byte _ _ _ _ Hv) as Hc.
  cbn in Hv. rewrite Hc in Hv. rewrite string_rev_cons.
  destruct s as [|c' s'].
  - by exists c, "".
  - destruct (IH _ ltac:(done) Hv) as (d & r & -> & Hd).
    rewrite string_app_cons. by eexists _, _.
Qed.

Lemma between_digit_sign b : between 48 57 b = true → between 43 57 b = true.
Proof.
  unfold between. intros [H1 H2]%andb_true_iff. apply Z.leb_le in H1, H2.
  apply andb_true_iff. split; apply Z.leb_le; lia.
Qed.

Lemma HandleUserRoutes_get env w r σ seg n :
  Method r = "GET" →
  Path r = "/users/" +:+ seg → segment seg →
  parsePositiveInt seg = (n, None) →
  HandleUserRoutes env w r σ =
  match GetUser n σ with
  | (_, Some err, σ') => (writeAppError w err, σ')
  | (u, None, σ') => (writeJSON w StatusOK (PUser u), σ')
  end.
Proof.
  intros Hget Hpath Hseg Hparse. unfold HandleUserRoutes.
  rewrite Hpath at 1. rewrite <- (string_app_nil_r seg) at 1.
  rewrite users_path_long by done.
  rewrite Hpath, route_parts_single by done.
  change (default "" (head [seg])) with seg.
  rewrite Hparse. rewrite bool_decide_eq_false_2 by (by intros []).
  cbn [length]. rewrite bool_decide_eq_true_2 by done.
  rewrite requireMethods_allowed
    by (rewrite Hget; apply elem_of_cons; left; reflexivity).
  cbn [negb]. rewrite Hget. change (streq "GET" MethodGet) with true. cbv iota.
  by destruct (GetUser n σ) as [[u [e|]] σ'].
Qed.

(** C10, as amended. For every integer [n] from 1 to [int_max], the
    decimal form of [n] with leading zeros, a leading plus sign and
    surrounding white space parses to [n], and a request for such a segment
    is routed as id [n]. A segment parses to [n] exactly when, trimmed, it
    is a decimal numeral of [n] and [n] is from 1 to [int_max]; it is
    rejected exactly when it is no such numeral. *)
Theorem parse_positive_int_is_lenient :
  (∀ n ws1 sign k ws2,
     0 < n ≤ int_max →
     blank ws1 → blank ws2 →
     sign = "" ∨ sign = "+" →
     parsePositiveInt (ws1 +:+ sign +:+ zeros k +:+ decimal n +:+ ws2)
     = (n, None)) ∧
  (∀ s n,
     parsePositiveInt s = (n, None) ↔
     0 < n ≤ int_max ∧ numeral (strings.TrimSpace s) n) ∧
  (∀ s,
     (parsePositiveInt s).2 ≠ None ↔
     ¬ ∃ n, 0 < n ≤ int_max ∧ numeral (strings.TrimSpace s) n) ∧
  (∀ env w r σ seg n,
     Method r = "GET" →
     Path r = "/users/" +:+ seg → segment seg →
     parsePositiveInt seg = (n, None) →
     HandleUserRoutes env w r σ =
     match GetUser n σ with
     | (_, Some err, σ') => (writeAppError w err, σ')
     | (u, None, σ') => (writeJSON w StatusOK (PUser u), σ')
     end).
Proof.
  split; [|split; [exact parsePositiveInt_spec|split;
                   [|exact HandleUserRoutes_get]]].
  - intros n ws1 sign k ws2 Hn Hws1 Hws2 Hsign.
    set (ds := zeros k +:+ decimal n).
    assert (digits_value ds = Some n) as Hval.
    { unfold digits_value, ds. rewrite digits_from_zeros.
      apply decimal_value. lia. }
    assert (ds ≠ "") as Hne.
    { unfold ds. destruct (decimal_cons n) as (c & r & ->).
      destruct k; [done|]. cbn [zeros]. by rewrite string_app_cons. }
    replace (ws1 +:+ sign +:+ zeros k +:+ decimal n +:+ ws2)
      with (ws1 +:+ (sign +:+ ds) +:+ ws2)
      by (unfold ds; by rewrite !string_app_assoc).
    apply parsePositiveInt_spec. split; [done|].
    destruct (digits_rev_head ds 0 n Hne Hval) as (d & r & Hrev & Hd).
    apply between_digit_sign in Hd.
    assert (∃ c core, sign +:+ ds = String c core ∧
                      between 43 57 (byte c) = true) as (c & core & Hcore & Hc).
    { destruct Hsign as [-> | ->].
      - destruct ds as [|c core]; [done|]. exists c, core. split; [done|].
        by eapply between_digit_sign, digits_first_byte.
      - by exists "+"%char, ds. }
    assert (String.rev (sign +:+ ds) = String d (r +:+ String.rev sign)) as Hr.
    { by rewrite string_rev_app, Hrev, string_app_cons. }
    rewrite Hcore in Hr |- *.
    rewrite (TrimSpace_blank_around ws1 c core d _ ws2 Hws1 Hws2 Hc Hr Hd).
    rewrite <- Hcore. exists sign, ds, n. split; [done|]. split; [done|].
    split; [done|]. destruct Hsign as [-> | ->]; [left|right; left]; done.
  - intros s. split.
    + intros Herr (n & Hn & Hnum).
      apply Herr. by rewrite (proj2 (parsePositiveInt_spec s n)).
    + intros Hnone Heq. apply Hnone.
      destruct (parsePositiveInt s) as [n e] eqn:Hp. simpl in Heq. subst e.
      exists n. by apply parsePositiveInt_spec.
Qed.

Lemma parse_positive_int_is_lenient_witness :
  0 < 7 ≤ int_max ∧ blank " " ∧
  parsePositiveInt " 7 " = (7, None) ∧
  parsePositiveInt "+7" = (7, None) ∧
  parsePositiveInt "007" = (7, None).
Proof.
  assert (0 < 7 ≤ int_max) as Hn by (split; [reflexivity|discriminate]).
  assert (blank " ") as Hsp.
  { exists [32]. split; [|reflexivity]. repeat constructor. }
  assert (blank "") as Hnil by (exists []; split; [constructor|reflexivity]).
  destruct parse_positive_int_is_lenient as (H & _).
  split; [exact Hn|]. split; [exact Hsp|]. split; [|split].
  - exact (H 7 " " "" 0%nat " " Hn Hsp Hsp (or_introl eq_refl)).
  - exact (H 7 "" "+" 0%nat "" Hn Hnil Hnil (or_intror eq_refl)).
  - exact (H 7 "" "" 2%nat "" Hn Hnil Hnil (or_introl eq_refl)).
Defined.

(** The decimal form of 2^63 is rejected: the value does not fit [int]. *)
Lemma parse_positive_int_rejects_2_pow_63 :
  0 < 2 ^ 63 ∧
  decimal (2 ^ 63) = "9223372036854775808" ∧
  parsePositiveInt (decimal (2 ^ 63)) = (0, Some (Lib strconv_ErrSyntax)) ∧
  ∃ w, HandleUserRoutes (Env_default (TimeUTC 0)) NewResponseWriter
         (mkRequest "GET" "/users/9223372036854775808" "")
         {| store := NewUserStore; calls := [] |}
       = (w, {| store := NewUserStore; calls := [] |}) ∧
       responds w 400
         (error_body "invalid_path" "user id must be a positive integer" None).
Proof.
  split; [reflexivity|]. split; [vm_compute; reflexivity|].
  split; [vm_compute; reflexivity|].
  eexists. split; [vm_compute; reflexivity|]. done.
Qed.

(** * Further properties *)

(** ** The store: counting, round trips, frames *)

Lemma steps_size s ops rs s' n :
  steps s ops rs s' →
  store_inv n s →
  n + creates ops ≤ int_max →
  Z.of_nat (size (items s')) = Z.of_nat (size (items s)) + creates ops - removed rs.
Proof.
  intros Hsteps. revert n.
  induction Hsteps as [s|s op r s1 ops rs s2 Hstep Hsteps IH];
    intros n Hinv Hle.
  - change (creates []) with 0. cbn. lia.
  - rewrite creates_cons in Hle |- *. pose proof (creates_nonneg ops).
    inversion Hstep; subst; cbn [is_create removed] in Hle |- *.
    + destruct (store_inv_Create n name now s Hinv) as [Hid Hinv']; [lia|].
      rewrite (IH (n + 1)); [|done|lia]. simpl.
      rewrite map_size_insert_None; [lia|].
      destruct Hinv as (_ & _ & Hitems). simpl in Hid.
      destruct (items s !! nextID s) as [v|] eqn:E; [|done].
      destruct (Hitems _ _ E). lia.
    + rewrite (IH n); [lia|done|lia].
    + rewrite (IH n (store_inv_Delete n id s Hinv)) by lia.
      unfold Delete. destruct (items s !! id) as [v|] eqn:E; simpl.
      * rewrite map_size_delete_Some by eauto.
        assert (size (items s) ≠ 0%nat).
        { intros H0. apply map_size_empty_inv in H0. rewrite H0 in E.
          by rewrite lookup_empty in E. }
        lia.
      * lia.
    + rewrite (IH n); [lia|done|lia].
Qed.

(** X1. After any run of operations on a new store in which [Create] was
    called [n] times, [n] not above the largest [int]: the counter is
    [1 + n] as an [int] (and [1 + n] itself while [n] is below the largest
    [int]); the store holds [n] records less the [Delete] calls that
    returned true; every stored id lies in [1..n]; and [Delete] of an id
    outside [1..n] returns false and leaves the store as it is. *)
Theorem store_counter_and_size ops rs s :
  steps NewUserStore ops rs s →
  creates ops ≤ int_max →
  nextID s = int_wrap (1 + creates ops) ∧
  (creates ops < int_max → nextID s = 1 + creates ops) ∧
  Z.of_nat (size (items s)) = creates ops - removed rs ∧
  (∀ id, is_Some (items s !! id) → 1 ≤ id ≤ creates ops) ∧
  (∀ id, ¬ 1 ≤ id ≤ creates ops → Delete id s = (false, s)).
Proof.
  intros Hsteps Hle.
  destruct (steps_store_inv _ _ _ _ 0 Hsteps store_inv_New) as [Hinv _]; [lia|].
  rewrite Z.add_0_l in Hinv. destruct Hinv as (Hn & Hnext & Hitems).
  assert (∀ id, is_Some (items s !! id) → 1 ≤ id ≤ creates ops) as Hdom.
  { intros id [u Hu]. by destruct (Hitems id u Hu). }
  split; [done|]. split; [|split; [|split; [done|]]].
  - intros Hlt. rewrite Hnext. apply int_wrap_in_range.
    unfold in_int, int_min, int_max, int_bits in *. lia.
  - pose proof (steps_size _ _ _ _ 0 Hsteps store_inv_New ltac:(lia)) as Hsize.
    simpl in Hsize. rewrite map_size_empty in Hsize. lia.
  - intros id Hid. unfold Delete.
    destruct (items s !! id) as [u|] eqn:E; [|done].
    exfalso. apply Hid, Hdom. eauto.
Qed.

Lemma store_counter_and_size_witness :
  let ops := [OpCreate "ada" (TimeUTC 1); OpCreate "bob" (TimeUTC 2);
              OpDelete 1; OpDelete 1; OpDelete 7; OpCreate "cy" (TimeUTC 3)] in
  let out := run ops NewUserStore in
  creates ops ≤ int_max ∧
  nextID out.2 = 4 ∧ Z.of_nat (size (items out.2)) = 3 - removed out.1 ∧
  removed out.1 = 1.
Proof.
  intros ops out.
  assert (creates ops ≤ int_max) as Hle by (vm_compute; discriminate).
  destruct (store_counter_and_size ops _ _ (steps_run ops NewUserStore) Hle)
    as (_ & Hnext & Hsize & _).
  split; [exact Hle|]. split; [|split; [exact Hsize|reflexivity]].
  apply Hnext. vm_compute. reflexivity.
Defined.

Lemma reachable_nextID_fresh ops rs s :
  steps NewUserStore ops rs s →
  creates ops ≤ int_max →
  items s !! nextID s = None.
Proof.
  intros Hsteps Hle.
  destruct (steps_store_inv _ _ _ _ 0 Hsteps store_inv_New) as [Hinv _]; [lia|].
  rewrite Z.add_0_l in Hinv. destruct Hinv as (Hn & Hnext & Hitems).
  destruct (items s !! nextID s) as [u|] eqn:E; [|done]. exfalso.
  destruct (Hitems _ _ E) as [_ Hr].
  destruct (decide (creates ops = int_max)) as [Heq|Hne].
  - rewrite Hnext, Heq in Hr. change (int_wrap (1 + int_max)) with int_min in Hr.
    unfold int_min, int_bits in Hr. lia.
  - rewrite Hnext, int_wrap_in_range in Hr; [lia|].
    unfold in_int, int_min, int_max, int_bits in *. lia.
Qed.

(** X2. On a store reached from a new one, [Delete] of the id that [Create]
    has just returned gives true and restores the map of records as it was
    before the [Create]; only the counter has moved on, so the id is not
    handed out again, and [Get] of it finds nothing. *)
Theorem create_then_delete_restores_items ops rs s name now :
  steps NewUserStore ops rs s →
  creates ops ≤ int_max →
  let '(u, s1) := Create name now s in
  Delete (ID u) s1 =
  (true, {| nextID := int_wrap (nextID s + 1); items := items s |}) ∧
  Get (ID u) (Delete (ID u) s1).2 = (User_zero, false).
Proof.
  intros Hsteps Hle.
  pose proof (reachable_nextID_fresh _ _ _ Hsteps Hle) as Hfresh.
  unfold Create. cbn [ID]. unfold Delete. cbn [items nextID].
  rewrite lookup_insert_eq. rewrite delete_insert_id by done.
  split; [done|]. unfold Get. cbn [snd items]. by rewrite Hfresh.
Qed.

Lemma create_then_delete_restores_items_witness :
  let ops := [OpCreate "ada" (TimeUTC 1); OpDelete 1; OpCreate "bob" (TimeUTC 2)] in
  let s := (run ops NewUserStore).2 in
  creates ops ≤ int_max ∧
  Delete 3 (Create "cy" (TimeUTC 3) s).2 = (true, {| nextID := 4; items := items s |}).
Proof.
  intros ops s.
  assert (creates ops ≤ int_max) as Hle by (vm_compute; discriminate).
  split; [exact Hle|].
  exact (proj1 (create_then_delete_restores_items ops _ s "cy" (TimeUTC 3)
                  (steps_run ops NewUserStore) Hle)).
Defined.

(** X3. What [Get] finds after an operation, on any store: after [Create]
    the new record under the id the counter stood at and every other id as
    before; after [Delete id] nothing under [id] and every other id as
    before. A second [Delete] of the same id returns false and changes
    nothing. *)
Theorem get_after_create_and_delete :
  (∀ s name now id,
     Get id (Create name now s).2 =
     if bool_decide (id = nextID s)
     then ({| ID := nextID s; Name := name; CreatedAt := now |}, true)
     else Get id s) ∧
  (∀ s id id',
     Get id' (Delete id s).2 =
     if bool_decide (id' = id) then (User_zero, false) else Get id' s) ∧
  (∀ s id, Delete id (Delete id s).2 = (false, (Delete id s).2)).
Proof.
  split; [|split].
  - intros s name now id. unfold Get, Create. cbn [snd items ID].
    rewrite lookup_insert. case_bool_decide as H1; case_decide as H2;
      try done; by subst.
  - intros s id id'. unfold Get, Delete.
    destruct (items s !! id) as [u|] eqn:E; cbn [snd items].
    + rewrite lookup_delete. case_bool_decide as H1; case_decide as H2;
        try done; by subst.
    + case_bool_decide as H1; [|done]. subst. by rewrite E.
  - intros s id. pose proof (Delete_removes id s) as H.
    unfold Delete at 1. by rewrite H.
Qed.

(** X4. On a store reached from a new one, [Get] and [List] agree: [Get id]
    returns a record and true exactly when that record is in the slice that
    [List] returns and carries the id [id]. *)
Theorem get_agrees_with_list ops rs s out id u :
  steps NewUserStore ops rs s →
  creates ops ≤ int_max →
  List_returns s out →
  Get id s = (u, true) ↔ u ∈ out ∧ ID u = id.
Proof.
  intros Hsteps Hle Hout.
  destruct (steps_store_inv _ _ _ _ 0 Hsteps store_inv_New) as [Hinv _]; [lia|].
  destruct Hinv as (_ & _ & Hitems).
  apply List_returns_perm in Hout. rewrite Hout, list_elem_of_fmap.
  unfold Get. split.
  - destruct (items s !! id) as [v|] eqn:E; [|done]. intros [= ->].
    destruct (Hitems _ _ E) as [Hid _]. split; [|done].
    exists (id, u). split; [done|]. by apply elem_of_map_to_list.
  - intros [([k v] & -> & Hkv) Hid]. apply elem_of_map_to_list in Hkv.
    destruct (Hitems _ _ Hkv) as [Hk _]. simpl in *.
    assert (k = id) as -> by congruence. by rewrite Hkv.
Qed.

Lemma get_agrees_with_list_witness :
  let ops := [OpCreate "ada" (TimeUTC 1); OpCreate "bob" (TimeUTC 2); OpDelete 1] in
  let s := (run ops NewUserStore).2 in
  let u := mkUser 2 "bob" (TimeUTC 2) in
  creates ops ≤ int_max ∧ List_returns s (List s) ∧
  (Get 2 s = (u, true) ↔ u ∈ List s ∧ ID u = 2).
Proof.
  intros ops s u.
  assert (creates ops ≤ int_max) as Hle by (vm_compute; discriminate).
  split; [exact Hle|]. split; [apply List_returns_List|].
  exact (get_agrees_with_list ops _ s (List s) 2 u
           (steps_run ops NewUserStore) Hle (List_returns_List s)).
Defined.

(** ** The service *)

Lemma GetUser_found id σ u :
  items (store σ) !! id = Some u →
  GetUser id σ = (u, None, called (CallGet id) (called (CallGetUser id) σ)).
Proof.
  intros Hu. unfold GetUser, store_Get, Get. cbn [store called]. by rewrite Hu.
Qed.

Lemma GetUser_missing id σ :
  items (store σ) !! id = None →
  GetUser id σ =
  (User_zero, Some (App not_found_error),
   called (CallGet id) (called (CallGetUser id) σ)).
Proof.
  intros Hu. unfold GetUser, store_Get, Get. cbn [store called]. by rewrite Hu.
Qed.

Lemma DeleteUser_found id σ u :
  items (store σ) !! id = Some u →
  DeleteUser id σ =
  (None,
   {| store := {| nextID := nextID (store σ); items := delete id (items (store σ)) |};
      calls := calls σ ++ [CallDeleteUser id; CallDelete id] |}).
Proof.
  intros Hu. unfold DeleteUser, store_Delete, Delete. cbn [store called calls].
  rewrite Hu. cbn. unfold with_store. cbn. by rewrite <- app_assoc.
Qed.

Lemma DeleteUser_missing id σ :
  items (store σ) !! id = None →
  DeleteUser id σ =
  (Some (App not_found_error),
   {| store := store σ; calls := calls σ ++ [CallDeleteUser id; CallDelete id] |}).
Proof.
  intros Hu. unfold DeleteUser, store_Delete, Delete. cbn [store called calls].
  rewrite Hu. cbn. unfold with_store. cbn. by rewrite <- app_assoc.
Qed.

(** X5. [GetUser] never changes the store and calls [Get] once. It returns
    no error exactly when the id is stored, and then the stored record;
    otherwise the error is the [AppError] 404 "not_found" "resource not
    found" without details, with the zero [User]. *)
Theorem get_user_found_or_not_found id σ :
  ∃ u e σ',
    GetUser id σ = (u, e, σ') ∧
    store σ' = store σ ∧
    calls σ' = calls σ ++ [CallGetUser id; CallGet id] ∧
    (e = None ↔ is_Some (items (store σ) !! id)) ∧
    (e = None → items (store σ) !! id = Some u) ∧
    (e ≠ None → e = Some (App not_found_error) ∧ u = User_zero).
Proof.
  destruct (items (store σ) !! id) as [u|] eqn:Hu.
  - eexists _, _, _. split; [by apply GetUser_found|].
    cbn. rewrite <- app_assoc.
    split; [done|]. split; [done|]. split; [split; eauto|]. by split.
  - eexists _, _, _. split; [by apply GetUser_missing|].
    cbn. rewrite <- app_assoc.
    split; [done|]. split; [done|].
    split; [split; [done|by intros [? ?]]|]. by split.
Qed.

(** X6. [DeleteUser] returns no error exactly when the id is stored;
    otherwise the error is the [AppError] 404 "not_found" and the store is
    as before. In both cases the id is absent afterwards, the other records
    and the counter are untouched, and a second [DeleteUser] as well as a
    [GetUser] of the id return the 404 error. *)
Theorem delete_user_once id σ :
  ∃ e σ',
    DeleteUser id σ = (e, σ') ∧
    (e = None ↔ is_Some (items (store σ) !! id)) ∧
    (e ≠ None → e = Some (App not_found_error) ∧ store σ' = store σ) ∧
    items (store σ') = delete id (items (store σ)) ∧
    nextID (store σ') = nextID (store σ) ∧
    (DeleteUser id σ').1 = Some (App not_found_error) ∧
    (GetUser id σ').1.2 = Some (App not_found_error).
Proof.
  destruct (items (store σ) !! id) as [u|] eqn:Hu.
  - eexists _, _. split; [by eapply DeleteUser_found|].
    split; [split; eauto|]. split; [done|]. split; [done|]. split; [done|].
    split.
    + rewrite DeleteUser_missing; [done|]. cbn. apply lookup_delete_eq.
    + rewrite GetUser_missing; [done|]. cbn. apply lookup_delete_eq.
  - eexists _, _. split; [by apply DeleteUser_missing|].
    split; [split; [done|by intros [? ?]]|]. split; [done|].
    split; [cbn; by rewrite delete_id|]. split; [done|]. split.
    + by rewrite DeleteUser_missing.
    + by rewrite GetUser_missing.
Qed.

Lemma list_users_outcome env σ :
  Env_ok env →
  let '(out, σ') := ListUsers env σ in
  out ≡ₚ (map_to_list (items (store σ))).*2 ∧
  length out = size (items (store σ)) ∧
  store σ' = store σ ∧
  calls σ' = calls σ ++ [CallListUsers; CallList].
Proof.
  intros Hok. unfold ListUsers, store_List. cbn [store called calls].
  assert (List_returns (store σ) (List_loop (env_range env (items (store σ)))))
    as Hret by (eexists; split; [apply Hok|done]).
  pose proof (proj1 (List_returns_perm _ _) Hret) as Hperm.
  split; [done|]. split.
  - by rewrite Hperm, length_fmap, length_map_to_list.
  - split; [done|]. by rewrite <- app_assoc.
Qed.

Lemma Env_default_ok t : Env_ok (Env_default t).
Proof. intros m. unfold range_order. reflexivity. Qed.

(** ** Paths *)

Lemma digits_no_slash s acc v :
  digits_from acc s = Some v → has_byte "/"%char s = false.
Proof.
  revert acc. induction s as [|c s IH]; intros acc; [done|]. cbn.
  destruct (between 48 57 (byte c)) eqn:Hd; [|done]. intros Hv.
  rewrite (IH _ Hv), orb_false_r. apply bool_decide_eq_false. intros ->.
  by vm_compute in Hd.
Qed.

Lemma segment_decimal n : 0 ≤ n → segment (decimal n).
Proof.
  intros Hn. split.
  - by destruct (decimal_cons n) as (c & r & ->).
  - eapply digits_no_slash. by apply decimal_value.
Qed.

Lemma blank_nil : blank "".
Proof. exists []. by split. Qed.

Lemma TrimSpace_digits ds n :
  ds ≠ "" → digits_value ds = Some n → strings.TrimSpace ds = ds.
Proof.
  intros Hne Hval.
  destruct (digits_rev_head ds 0 n Hne Hval) as (d & r & Hrev & Hd).
  destruct ds as [|c core]; [done|].
  pose proof (digits_first_byte _ _ _ _ Hval) as Hc.
  pose proof (TrimSpace_blank_around "" c core d r "" blank_nil blank_nil
                (between_digit_sign _ Hc) Hrev (between_digit_sign _ Hd)) as H.
  by rewrite string_app_nil_l, string_app_nil_r in H.
Qed.

Lemma parsePositiveInt_decimal n :
  0 < n ≤ int_max → parsePositiveInt (decimal n) = (n, None).
Proof.
  intros Hn. apply parsePositiveInt_spec. split; [done|].
  assert (decimal n ≠ "") as Hne by (by destruct (decimal_cons n) as (c & r & ->)).
  rewrite (TrimSpace_digits _ n Hne) by (apply decimal_value; lia).
  exists "", (decimal n), n. split; [done|]. split; [done|].
  split; [apply decimal_value; lia|]. by left.
Qed.

Lemma path_more_rev_head more :
  Forall segment more → more ≠ [] →
  ∃ c r, String.rev (foldr (λ x acc, String "/"%char (x +:+ acc)) "" more)
         = String c r ∧ c ≠ "/"%char.
Proof.
  intros Hall. induction Hall as [|x more Hx Hall IH]; [done|]. intros _.
  cbn [foldr]. rewrite string_rev_cons, string_rev_app.
  destruct more as [|y more].
  - cbn [foldr]. change (String.rev "") with "". rewrite string_app_nil_l.
    destruct (segment_rev_head x Hx) as (c & r & -> & Hc).
    rewrite string_app_cons. by eexists _, _.
  - destruct (IH ltac:(done)) as (c & r & -> & Hc).
    rewrite !string_app_cons. by eexists _, _.
Qed.

Lemma Split_segments seg more :
  segment seg → Forall segment more →
  strings.Split (seg +:+ foldr (λ x acc, String "/"%char (x +:+ acc)) "" more)
    "/"%char = seg :: more.
Proof.
  intros Hseg Hall. revert seg Hseg.
  induction Hall as [|x more Hx Hall IH]; intros seg Hseg; cbn [foldr].
  - rewrite string_app_nil_r. apply Split_segment_last, Hseg.
  - rewrite Split_segment_cons by apply Hseg. f_equal. by apply IH.
Qed.

(** The segments of a path are the [parts] of the router. *)
Lemma route_parts_users_path seg more :
  segment seg → Forall segment more →
  route_parts (users_path seg more) = seg :: more.
Proof.
  intros Hseg Hall. unfold users_path. rewrite route_parts_users.
  destruct (Trim_segment seg (foldr (λ x acc, String "/"%char (x +:+ acc)) "" more)
              Hseg) as (tail' & -> & _ & Hrev).
  destruct (decide (more = [])) as [->|Hne].
  - cbn [foldr] in Hrev. change (String.rev "") with "" in Hrev. cbn in Hrev.
    apply string_rev_nil_inv in Hrev. subst tail'.
    by apply (Split_segments seg []).
  - destruct (path_more_rev_head more Hall Hne) as (c & r & Hr & Hc).
    rewrite Hr in Hrev. cbn [strings.trimLeftBytes] in Hrev.
    rewrite in_cutset_slash, bool_decide_eq_false_2 in Hrev by done.
    rewrite <- Hr in Hrev. apply (f_equal String.rev) in Hrev.
    rewrite !string_rev_involutive in Hrev. subst tail'. by apply Split_segments.
Qed.

Lemma users_path_is_long seg more :
  segment seg →
  (String.length (users_path seg more) <=? String.length "/users/")%nat = false.
Proof. intros Hseg. unfold users_path. by apply users_path_long. Qed.

(** [HandleUserRoutes] on a path of segments with a valid id, the checks of
    the path done. *)
Lemma HandleUserRoutes_segments env w r σ seg more id :
  Path r = users_path seg more →
  segment seg → Forall segment more →
  parsePositiveInt seg = (id, None) →
  HandleUserRoutes env w r σ =
  let not_found (w : ResponseWriter) (σ : World) :=
    (errorJSON w StatusNotFound "not_found" "resource not found"
       (Some (PMap {[ "path" := PText (Path r) ]})), σ) in
  let get_then (w : ResponseWriter) (payload : Payload) :=
    match GetUser id σ with
    | (_, Some err, σ) => (writeAppError w err, σ)
    | (_, None, σ) => (writeJSON w StatusOK payload, σ)
    end in
  let rest (w : ResponseWriter) :=
    match more with
    | [x] =>
        if streq x "profile" then
          let '(ok, w) := requireMethods w r [MethodGet] in
          if negb ok then (w, σ)
          else get_then w (PMap {[ "id" := PInt id; "profile" := PBool true ]})
        else not_found w σ
    | [x; o] =>
        if streq x "orders" then
          let '(ok, w) := requireMethods w r [MethodGet] in
          if negb ok then (w, σ)
          else
            let orderId := strings.TrimSpace o in
            if streq orderId "" then
              (errorJSON w StatusBadRequest "invalid_path" "orderId is required"
                 None, σ)
            else get_then w (PMap {[ "id" := PInt id; "orderId" := PText orderId ]})
        else not_found w σ
    | _ => not_found w σ
    end in
  match more with
  | [] =>
      let '(ok, w) := requireMethods w r [MethodGet; MethodDelete] in
      if negb ok then (w, σ)
      else if streq (Method r) MethodGet then
        match GetUser id σ with
        | (_, Some err, σ) => (writeAppError w err, σ)
        | (u, None, σ) => (writeJSON w StatusOK (PUser u), σ)
        end
      else if streq (Method r) MethodDelete then
        match DeleteUser id σ with
        | (Some err, σ) => (writeAppError w err, σ)
        | (None, σ) =>
            (writeJSON w StatusOK
               (PMap {[ "deleted" := PBool true; "id" := PInt id ]}), σ)
        end
      else rest w
  | _ => rest w
  end.
Proof.
  intros Hpath Hseg Hall Hparse. unfold HandleUserRoutes. cbv zeta.
  rewrite Hpath. rewrite users_path_is_long by done.
  rewrite route_parts_users_path by done.
  change (default "" (head (seg :: more))) with seg. rewrite Hparse.
  rewrite bool_decide_eq_false_2 by (by intros []).
  destruct more as [|x [|o [|y more]]]; cbn -[requireMethods GetUser DeleteUser
    strings.TrimSpace errorJSON writeJSON writeAppError streq].
  - destruct (requireMethods w r _) as [[] w']; cbn [negb]; [|done].
    destruct (streq (Method r) MethodGet); [by destruct (GetUser id σ) as [[? [?|]] ?]|].
    destruct (streq (Method r) MethodDelete); done.
  - destruct (streq x "profile"); [|done].
    destruct (requireMethods w r _) as [[] w']; cbn [negb]; [|done].
    by destruct (GetUser id σ) as [[? [?|]] ?].
  - destruct (streq x "orders"); [|done].
    destruct (requireMethods w r _) as [[] w']; cbn [negb]; [|done].
    destruct (streq (strings.TrimSpace o) ""); [done|].
    by destruct (GetUser id σ) as [[? [?|]] ?].
  - done.
Qed.

(** ** The users routes *)

Lemma writeJSON_responds_fresh w status payload :
  StatusCode w = None → Written w = [] →
  responds (writeJSON w status payload) status payload.
Proof.
  intros Hst Hwr. unfold responds, writeJSON, Encode, WriteHeader, Header_Set.
  cbn. rewrite Hst, Hwr. split; [done|]. split; [done|].
  apply lookup_insert_eq.
Qed.

Lemma errorJSON_responds_fresh w status code message details :
  StatusCode w = None → Written w = [] →
  responds (errorJSON w status code message details) status
    (error_body code message details).
Proof. intros. rewrite errorJSON_writes. by apply writeJSON_responds_fresh. Qed.

Lemma not_found_responds w :
  StatusCode w = None → Written w = [] →
  responds (writeAppError w (App not_found_error)) 404
    (error_body "not_found" "resource not found" None).
Proof. intros. by apply errorJSON_responds_fresh. Qed.

(** X7. GET [/users/{id}] with a segment that parses as the positive
    integer [id] is answered 200 with the stored user when [id] is stored,
    and 404 "not_found" "resource not found" without details when it is
    not. The store is unchanged; the service and the store are called
    once. *)
Theorem get_user_route env r σ seg id :
  Method r = "GET" →
  Path r = users_path seg [] →
  segment seg →
  parsePositiveInt seg = (id, None) →
  ∃ w σ',
    HandleUserRoutes env NewResponseWriter r σ = (w, σ') ∧
    store σ' = store σ ∧
    calls σ' = calls σ ++ [CallGetUser id; CallGet id] ∧
    match items (store σ) !! id with
    | Some u => responds w 200 (PUser u)
    | None => responds w 404 (error_body "not_found" "resource not found" None)
    end.
Proof.
  intros Hget Hpath Hseg Hparse.
  rewrite (HandleUserRoutes_segments env _ r σ seg [] id Hpath Hseg) by done.
  cbv zeta.
  rewrite requireMethods_allowed
    by (rewrite Hget; apply elem_of_cons; left; reflexivity).
  cbn [negb]. rewrite Hget. change (streq "GET" MethodGet) with true. cbv iota.
  destruct (items (store σ) !! id) as [u|] eqn:Hu.
  - rewrite (GetUser_found _ _ _ Hu). eexists _, _. split; [done|].
    split; [done|]. split; [cbn; by rewrite <- app_assoc|done].
  - rewrite (GetUser_missing _ _ Hu). eexists _, _. split; [done|].
    split; [done|]. split; [cbn; by rewrite <- app_assoc|].
    by apply not_found_responds.
Qed.

Lemma get_user_route_witness :
  let env := Env_default (TimeUTC 9) in
  let σ := {| store := (Create "ada" (TimeUTC 1) NewUserStore).2; calls := [] |} in
  let r := mkRequest "GET" "/users/1" "" in
  parsePositiveInt "1" = (1, None) ∧
  ∃ w σ', HandleUserRoutes env NewResponseWriter r σ = (w, σ') ∧
          responds w 200 (PUser (mkUser 1 "ada" (TimeUTC 1))).
Proof.
  intros env σ r.
  assert (parsePositiveInt "1" = (1, None)) as Hparse by (vm_compute; reflexivity).
  split; [exact Hparse|].
  assert (segment "1") as Hseg by (split; [discriminate|reflexivity]).
  assert (Path r = users_path "1" []) as Hpath by reflexivity.
  destruct (get_user_route env r σ "1" 1 eq_refl Hpath Hseg Hparse)
    as (w & σ' & Hw & _ & _ & Hresp).
  exists w, σ'. split; [exact Hw|exact Hresp].
Defined.

(** X8. DELETE [/users/{id}] is answered 200 with
    [{"deleted": true, "id": id}] when [id] is stored and 404 "not_found"
    when it is not. Afterwards the record is gone and the rest of the store
    is untouched, and a GET of the same path is answered 404 "not_found"
    and changes nothing. *)
Theorem delete_user_route_then_get env r r' σ seg id :
  Method r = "DELETE" → Method r' = "GET" →
  Path r = users_path seg [] → Path r' = users_path seg [] →
  segment seg →
  parsePositiveInt seg = (id, None) →
  ∃ w σ1 w' σ2,
    HandleUserRoutes env NewResponseWriter r σ = (w, σ1) ∧
    HandleUserRoutes env NewResponseWriter r' σ1 = (w', σ2) ∧
    match items (store σ) !! id with
    | Some _ =>
        responds w 200 (PMap {[ "deleted" := PBool true; "id" := PInt id ]})
    | None => responds w 404 (error_body "not_found" "resource not found" None)
    end ∧
    items (store σ1) = delete id (items (store σ)) ∧
    nextID (store σ1) = nextID (store σ) ∧
    responds w' 404 (error_body "not_found" "resource not found" None) ∧
    store σ2 = store σ1.
Proof.
  intros Hdel Hget Hpath Hpath' Hseg Hparse.
  rewrite (HandleUserRoutes_segments env _ r σ seg [] id Hpath Hseg) by done.
  cbv zeta.
  rewrite requireMethods_allowed
    by (rewrite Hdel; apply elem_of_cons; right; apply list_elem_of_singleton;
        reflexivity).
  cbn [negb]. rewrite Hdel. change (streq "DELETE" MethodGet) with false.
  change (streq "DELETE" MethodDelete) with true. cbv iota.
  assert (∀ σ1, items (store σ1) !! id = None →
    ∃ w' σ2, HandleUserRoutes env NewResponseWriter r' σ1 = (w', σ2) ∧
             responds w' 404 (error_body "not_found" "resource not found" None) ∧
             store σ2 = store σ1) as Hafter.
  { intros σ1 Hnone.
    rewrite (HandleUserRoutes_segments env _ r' σ1 seg [] id Hpath' Hseg) by done.
    cbv zeta.
    rewrite requireMethods_allowed
      by (rewrite Hget; apply elem_of_cons; left; reflexivity).
    cbn [negb]. rewrite Hget. change (streq "GET" MethodGet) with true. cbv iota.
    rewrite (GetUser_missing _ _ Hnone). eexists _, _. split; [done|].
    split; [by apply not_found_responds|done]. }
  destruct (items (store σ) !! id) as [u|] eqn:Hu.
  - rewrite (DeleteUser_found _ _ _ Hu).
    edestruct Hafter as (w' & σ2 & Hw' & Hresp' & Hst'); last first.
    { eexists _, _, w', σ2. split; [done|]. split; [exact Hw'|].
      split; [done|]. split; [done|]. split; [done|]. by split. }
    cbn. apply lookup_delete_eq.
  - rewrite (DeleteUser_missing _ _ Hu).
    edestruct Hafter as (w' & σ2 & Hw' & Hresp' & Hst'); last first.
    { eexists _, _, w', σ2. split; [done|]. split; [exact Hw'|].
      split; [by apply not_found_responds|].
      split; [cbn; by rewrite delete_id|]. split; [done|]. by split. }
    done.
Qed.

Lemma delete_user_route_then_get_witness :
  let env := Env_default (TimeUTC 9) in
  let σ := {| store := (Create "ada" (TimeUTC 1) NewUserStore).2; calls := [] |} in
  parsePositiveInt "1" = (1, None) ∧
  ∃ w σ1 w' σ2,
    HandleUserRoutes env NewResponseWriter (mkRequest "DELETE" "/users/1" "") σ
    = (w, σ1) ∧
    HandleUserRoutes env NewResponseWriter (mkRequest "GET" "/users/1" "") σ1
    = (w', σ2) ∧
    responds w 200 (PMap {[ "deleted" := PBool true; "id" := PInt 1 ]}) ∧
    responds w' 404 (error_body "not_found" "resource not found" None).
Proof.
  intros env σ.
  assert (parsePositiveInt "1" = (1, None)) as Hparse by (vm_compute; reflexivity).
  split; [exact Hparse|].
  assert (segment "1") as Hseg by (split; [discriminate|reflexivity]).
  assert ("/users/1" = users_path "1" []) as Hpath by reflexivity.
  destruct (delete_user_route_then_get env (mkRequest "DELETE" "/users/1" "")
              (mkRequest "GET" "/users/1" "") σ "1" 1 eq_refl eq_refl Hpath Hpath
              Hseg Hparse)
    as (w & σ1 & w' & σ2 & Hw & Hw' & Hresp & _ & _ & Hresp' & _).
  exists w, σ1, w', σ2. split; [exact Hw|]. split; [exact Hw'|].
  split; [exact Hresp|exact Hresp'].
Defined.

Lemma CreateUser_ok env name σ :
  strings.TrimSpace name ≠ "" →
  CreateUser env name σ =
  ({| ID := nextID (store σ); Name := strings.TrimSpace name;
      CreatedAt := env_now env |},
   None,
   {| store := (Create (strings.TrimSpace name) (env_now env) (store σ)).2;
      calls := calls σ ++ [CallCreateUser name; CallCreate (strings.TrimSpace name)] |}).
Proof.
  intros Hne. unfold CreateUser, streq. rewrite bool_decide_eq_false_2 by done.
  unfold store_Create, with_store. cbn. by rewrite <- app_assoc.
Qed.

Lemma HandleUsers_post env w r σ :
  Method r = "POST" →
  HandleUsers env w r σ =
  match readJSON w r {| req_Name := "" |} with
  | (_, Some err) =>
      (errorJSON w StatusBadRequest "invalid_json" (Error err) None, σ)
  | (req, None) =>
      match CreateUser env (req_Name req) σ with
      | (_, Some err, σ) => (writeAppError w err, σ)
      | (u, None, σ) => (writeJSON w StatusCreated (PUser u), σ)
      end
  end.
Proof.
  intros Hpost. unfold HandleUsers.
  rewrite requireMethods_allowed
    by (rewrite Hpost; apply elem_of_cons; right; apply list_elem_of_singleton;
        reflexivity).
  cbn [negb]. rewrite Hpost.
  change (streq "POST" MethodGet) with false.
  change (streq "POST" MethodPost) with true. done.
Qed.

(** X9. A POST to [/users] whose body [readJSON] accepts, with a name that
    is not blank, is answered 201 with the new user: its id is the value of
    the counter, its name the trimmed name, its time the clock of the
    request. A GET of [/users/n], [n] the decimal form of that id, is then
    answered 200 with the same user. The counter is assumed positive and in
    the range of [int], as in every store reached from a new one. *)
Theorem create_route_then_get env env' r r' σ req :
  Method r = "POST" →
  readJSON NewResponseWriter r {| req_Name := "" |} = (req, None) →
  strings.TrimSpace (req_Name req) ≠ "" →
  0 < nextID (store σ) ≤ int_max →
  Method r' = "GET" →
  Path r' = users_path (decimal (nextID (store σ))) [] →
  let u := {| ID := nextID (store σ); Name := strings.TrimSpace (req_Name req);
              CreatedAt := env_now env |} in
  ∃ w σ1 w' σ2,
    HandleUsers env NewResponseWriter r σ = (w, σ1) ∧
    HandleUserRoutes env' NewResponseWriter r' σ1 = (w', σ2) ∧
    responds w 201 (PUser u) ∧
    responds w' 200 (PUser u) ∧
    store σ2 = store σ1.
Proof.
  intros Hpost Hread Hname Hid Hget Hpath u.
  rewrite (HandleUsers_post _ _ _ _ Hpost), Hread, (CreateUser_ok _ _ _ Hname).
  assert (segment (decimal (nextID (store σ)))) as Hseg
    by (apply segment_decimal; lia).
  eexists _, _. do 2 eexists. split; [reflexivity|].
  rewrite (HandleUserRoutes_segments env' _ r' _ _ [] (nextID (store σ)) Hpath Hseg)
    by (done || by apply parsePositiveInt_decimal).
  cbv zeta.
  rewrite requireMethods_allowed
    by (rewrite Hget; apply elem_of_cons; left; reflexivity).
  cbn [negb]. rewrite Hget. change (streq "GET" MethodGet) with true. cbv iota.
  rewrite (GetUser_found _ _ u) by (cbn; apply lookup_insert_eq).
  split; [reflexivity|]. by repeat split.
Qed.

Lemma create_route_then_get_witness :
  let q := String "034"%char "" in
  let body := "{" +:+ q +:+ "name" +:+ q +:+ ":" +:+ q +:+ " Ada " +:+ q +:+ "}" in
  let env := Env_default (TimeUTC 9) in
  let σ := {| store := NewUserStore; calls := [] |} in
  let u := mkUser 1 "Ada" (TimeUTC 9) in
  ∃ w σ1 w' σ2,
    HandleUsers env NewResponseWriter (mkRequest "POST" "/users" body) σ = (w, σ1) ∧
    HandleUserRoutes env NewResponseWriter (mkRequest "GET" "/users/1" "") σ1
    = (w', σ2) ∧
    responds w 201 (PUser u) ∧ responds w' 200 (PUser u).
Proof.
  intros q body env σ u.
  assert (readJSON NewResponseWriter (mkRequest "POST" "/users" body)
            {| req_Name := "" |} = ({| req_Name := " Ada " |}, None)) as Hread
    by (vm_compute; reflexivity).
  assert (strings.TrimSpace " Ada " = "Ada") as Htrim by (vm_compute; reflexivity).
  assert (strings.TrimSpace (req_Name {| req_Name := " Ada " |}) ≠ "") as Hname
    by (cbn [req_Name]; rewrite Htrim; discriminate).
  assert (0 < nextID (store σ) ≤ int_max) as Hid
    by (split; [reflexivity|discriminate]).
  assert ("/users/1" = users_path (decimal (nextID (store σ))) []) as Hpath
    by (vm_compute; reflexivity).
  destruct (create_route_then_get env env (mkRequest "POST" "/users" body)
              (mkRequest "GET" "/users/1" "") σ _ eq_refl Hread Hname Hid eq_refl
              Hpath)
    as (w & σ1 & w' & σ2 & Hw & Hw' & Hresp & Hresp' & _).
  exists w, σ1, w', σ2. split; [exact Hw|]. split; [exact Hw'|].
  cbn [req_Name] in Hresp, Hresp'. rewrite Htrim in Hresp, Hresp'.
  split; [exact Hresp|exact Hresp'].
Defined.

(** X10. GET [/users] is answered 200 with [{"items": out, "count": c}]:
    [out] is the stored records in some order, each once, and [c] is their
    number. The store is unchanged; [ListUsers] and [List] are called
    once. *)
Theorem list_route env r σ :
  Method r = "GET" →
  Env_ok env →
  ∃ w σ' out,
    HandleUsers env NewResponseWriter r σ = (w, σ') ∧
    responds w 200
      (PMap {[ "items" := PUsers out;
               "count" := PInt (Z.of_nat (size (items (store σ)))) ]}) ∧
    out ≡ₚ (map_to_list (items (store σ))).*2 ∧
    store σ' = store σ ∧
    calls σ' = calls σ ++ [CallListUsers; CallList].
Proof.
  intros Hget Hok. unfold HandleUsers.
  rewrite requireMethods_allowed
    by (rewrite Hget; apply elem_of_cons; left; reflexivity).
  cbn [negb]. rewrite Hget. change (streq "GET" MethodGet) with true. cbv iota.
  pose proof (list_users_outcome env σ Hok) as H.
  destruct (ListUsers env σ) as [out σ'].
  destruct H as (Hperm & Hlen & Hst & Hcalls).
  eexists _, _, out. split; [done|]. rewrite Hlen. by repeat split.
Qed.

Lemma list_route_witness :
  let env := Env_default (TimeUTC 9) in
  let σ := {| store := (Create "ada" (TimeUTC 1) NewUserStore).2; calls := [] |} in
  ∃ w σ' out,
    HandleUsers env NewResponseWriter (mkRequest "GET" "/users" "") σ = (w, σ') ∧
    responds w 200 (PMap {[ "items" := PUsers out; "count" := PInt 1 ]}) ∧
    out ≡ₚ [mkUser 1 "ada" (TimeUTC 1)].
Proof.
  intros env σ.
  destruct (list_route env (mkRequest "GET" "/users" "") σ eq_refl
              (Env_default_ok _))
    as (w & σ' & out & Hw & Hresp & Hperm & _).
  exists w, σ', out. split; [exact Hw|]. split; [exact Hresp|exact Hperm].
Defined.

Lemma answered_error r σ w σ' status code message details :
  StatusCode w = None → Written w = [] →
  status ∈ users_statuses → code ∈ users_error_codes →
  store σ' = store σ →
  answered r σ (errorJSON w status code message details, σ').
Proof.
  intros Hst Hwr Hstatus Hcode Hstore. exists status, (error_body code message details).
  split; [by apply errorJSON_responds_fresh|]. split; [done|].
  split; [by eauto|by left].
Qed.

Lemma answered_ok r σ w σ' payload :
  StatusCode w = None → Written w = [] →
  store σ' = store σ →
  answered r σ (writeJSON w 200 payload, σ').
Proof.
  intros Hst Hwr Hstore. exists 200, payload.
  split; [by apply writeJSON_responds_fresh|].
  split; [by repeat constructor|]. split; [lia|by left].
Qed.

Lemma answered_refused r σ w allowed :
  StatusCode w = None → Written w = [] →
  Method r ∉ allowed →
  answered r σ ((requireMethods w r allowed).2, σ).
Proof.
  intros Hst Hwr Hm. rewrite requireMethods_refused by done. cbn [snd].
  apply answered_error; try done; by repeat constructor.
Qed.

Lemma answered_get r σ w id payload :
  StatusCode w = None → Written w = [] →
  answered r σ
    (match GetUser id σ with
     | (_, Some err, σ) => (writeAppError w err, σ)
     | (_, None, σ) => (writeJSON w StatusOK payload, σ)
     end).
Proof.
  intros Hst Hwr. destruct (items (store σ) !! id) as [u|] eqn:Hu.
  - rewrite (GetUser_found _ _ _ Hu). by apply answered_ok.
  - rewrite (GetUser_missing _ _ Hu).
    apply answered_error; try done; by repeat constructor.
Qed.

Lemma answered_get_user r σ w id :
  StatusCode w = None → Written w = [] →
  answered r σ
    (match GetUser id σ with
     | (_, Some err, σ) => (writeAppError w err, σ)
     | (u, None, σ) => (writeJSON w StatusOK (PUser u), σ)
     end).
Proof.
  intros Hst Hwr. destruct (items (store σ) !! id) as [u|] eqn:Hu.
  - rewrite (GetUser_found _ _ _ Hu). by apply answered_ok.
  - rewrite (GetUser_missing _ _ Hu).
    apply answered_error; try done; by repeat constructor.
Qed.

Lemma answered_guarded r σ w allowed (k : ResponseWriter → ResponseWriter * World) :
  StatusCode w = None → Written w = [] →
  (Method r ∈ allowed → answered r σ (k w)) →
  answered r σ
    (let '(ok, w) := requireMethods w r allowed in
     if negb ok then (w, σ) else k w).
Proof.
  intros Hst Hwr Hk. destruct (decide (Method r ∈ allowed)) as [Hin|Hout].
  - rewrite requireMethods_allowed by done. cbn [negb]. by apply Hk.
  - pose proof (answered_refused r σ w allowed Hst Hwr Hout) as H.
    rewrite requireMethods_refused in H |- * by done. exact H.
Qed.

(** X11. Whatever the request, [HandleUsers] and [HandleUserRoutes] write
    one JSON response whose status is 200, 201, 400, 404 or 405, never 500;
    from 400 on the body is an error object whose code is one of
    "validation_failed", "not_found", "invalid_json", "invalid_path",
    "method_not_allowed". The store is changed by no response other than the
    201 of a POST and the 200 of a DELETE. *)
Theorem users_routes_answer env r σ :
  answered r σ (HandleUsers env NewResponseWriter r σ) ∧
  answered r σ (HandleUserRoutes env NewResponseWriter r σ).
Proof.
  split.
  - unfold HandleUsers. apply answered_guarded; [done..|]. intros Hin.
    destruct (streq (Method r) MethodGet) eqn:Hget.
    { unfold ListUsers, store_List. cbn [called store]. by apply answered_ok. }
    destruct (streq (Method r) MethodPost) eqn:Hpost.
    2:{ exfalso. apply elem_of_cons in Hin as [Hm|Hin].
        - unfold streq in Hget. by apply bool_decide_eq_false in Hget.
        - apply list_elem_of_singleton in Hin. unfold streq in Hpost.
          by apply bool_decide_eq_false in Hpost. }
    apply bool_decide_eq_true in Hpost.
    destruct (readJSON _ _ _) as [req [e|]].
    { apply answered_error; try done; by repeat constructor. }
    unfold CreateUser. destruct (streq (strings.TrimSpace (req_Name req)) "").
    { apply answered_error; try done; by repeat constructor. }
    unfold store_Create. cbn [called store]. destruct (Create _ _ _) as [u s].
    exists 201, (PUser u). split; [by apply writeJSON_responds_fresh|].
    split; [by repeat constructor|]. split; [lia|]. right; left. done.
  - unfold HandleUserRoutes. cbv zeta.
    destruct (_ <=? _)%nat.
    { apply answered_error; try done; by repeat constructor. }
    destruct (parsePositiveInt _) as [id err].
    destruct (bool_decide (err ≠ None)).
    { apply answered_error; try done; by repeat constructor. }
    assert (∀ w, StatusCode w = None → Written w = [] →
      answered r σ
        (if bool_decide (length (route_parts (Path r)) = 2%nat)
            && streq (default "" (route_parts (Path r) !! 1%nat)) "profile"
         then
           let '(ok, w) := requireMethods w r [MethodGet] in
           if negb ok then (w, σ)
           else
             match GetUser id σ with
             | (_, Some err, σ) => (writeAppError w err, σ)
             | (_, None, σ) =>
                 (writeJSON w StatusOK
                    (PMap {[ "id" := PInt id; "profile" := PBool true ]}), σ)
             end
         else
           if bool_decide (length (route_parts (Path r)) = 3%nat)
              && streq (default "" (route_parts (Path r) !! 1%nat)) "orders"
           then
             let '(ok, w) := requireMethods w r [MethodGet] in
             if negb ok then (w, σ)
             else
               let orderId :=
                 strings.TrimSpace (default "" (route_parts (Path r) !! 2%nat)) in
               if streq orderId "" then
                 (errorJSON w StatusBadRequest "invalid_path" "orderId is required"
                    None, σ)
               else
                 match GetUser id σ with
                 | (_, Some err, σ) => (writeAppError w err, σ)
                 | (_, None, σ) =>
                     (writeJSON w StatusOK
                        (PMap {[ "id" := PInt id; "orderId" := PText orderId ]}), σ)
                 end
           else
             (errorJSON w StatusNotFound "not_found" "resource not found"
                (Some (PMap {[ "path" := PText (Path r) ]})), σ))) as Hrest.
    { intros w Hst Hwr. destruct (_ && _).
      { apply answered_guarded; [done..|]. intros _. by apply answered_get. }
      destruct (_ && _).
      { apply answered_guarded; [done..|]. intros _. cbv zeta.
        destruct (streq _ "").
        - apply answered_error; try done; by repeat constructor.
        - by apply answered_get. }
      apply answered_error; try done; by repeat constructor. }
    destruct (bool_decide (length _ = 1%nat)); [|by apply Hrest].
    apply answered_guarded; [done..|]. intros Hin.
    destruct (streq (Method r) MethodGet); [by apply answered_get_user|].
    destruct (streq (Method r) MethodDelete) eqn:Hdel; [|by apply Hrest].
    apply bool_decide_eq_true in Hdel.
    destruct (items (store σ) !! id) as [u|] eqn:Hu.
    + rewrite (DeleteUser_found _ _ _ Hu).
      exists 200, (PMap {[ "deleted" := PBool true; "id" := PInt id ]}).
      split; [by apply writeJSON_responds_fresh|].
      split; [by repeat constructor|]. split; [lia|]. right; right. done.
    + rewrite (DeleteUser_missing _ _ Hu).
      apply answered_error; try done; by repeat constructor.
Qed.

Lemma get_then_responds w id σ payload :
  StatusCode w = None → Written w = [] →
  ∃ w' σ',
    match GetUser id σ with
    | (_, Some err, σ) => (writeAppError w err, σ)
    | (_, None, σ) => (writeJSON w StatusOK payload, σ)
    end = (w', σ') ∧
    store σ' = store σ ∧
    calls σ' = calls σ ++ [CallGetUser id; CallGet id] ∧
    match items (store σ) !! id with
    | Some _ => responds w' 200 payload
    | None => responds w' 404 (error_body "not_found" "resource not found" None)
    end.
Proof.
  intros Hst Hwr. destruct (items (store σ) !! id) as [u|] eqn:Hu.
  - rewrite (GetUser_found _ _ _ Hu). eexists _, _. split; [done|].
    split; [done|]. split; [cbn; by rewrite <- app_assoc|].
    by apply writeJSON_responds_fresh.
  - rewrite (GetUser_missing _ _ Hu). eexists _, _. split; [done|].
    split; [done|]. split; [cbn; by rewrite <- app_assoc|].
    by apply not_found_responds.
Qed.

(** X12. [/users/{id}/profile] with a valid id: a GET is answered 200 with
    [{"id": id, "profile": true}] when the user is stored and 404
    "not_found" when it is not; any other method is answered 405
    "method_not_allowed" with the [Allow] header "GET", the service not
    being called. The store is unchanged in every case. *)
Theorem profile_route env r σ seg id :
  Path r = users_path seg ["profile"] →
  segment seg →
  parsePositiveInt seg = (id, None) →
  ∃ w σ',
    HandleUserRoutes env NewResponseWriter r σ = (w, σ') ∧
    store σ' = store σ ∧
    if decide (Method r = "GET") then
      calls σ' = calls σ ++ [CallGetUser id; CallGet id] ∧
      match items (store σ) !! id with
      | Some _ =>
          responds w 200 (PMap {[ "id" := PInt id; "profile" := PBool true ]})
      | None => responds w 404 (error_body "not_found" "resource not found" None)
      end
    else
      σ' = σ ∧
      responds w 405
        (error_body "method_not_allowed" "method not allowed"
           (Some (PMap {[ "method" := PText (Method r);
                          "allow" := PStrings ["GET"] ]}))) ∧
      Header w !! "Allow" = Some "GET".
Proof.
  intros Hpath Hseg Hparse.
  rewrite (HandleUserRoutes_segments env _ r σ seg ["profile"] id Hpath Hseg)
    by (done || by repeat constructor).
  cbv zeta. change (streq "profile" "profile") with true. cbv beta iota.
  destruct (decide (Method r = "GET")) as [Hget|Hget].
  - rewrite requireMethods_allowed by (by apply list_elem_of_singleton).
    cbn [negb].
    destruct (get_then_responds NewResponseWriter id σ
                (PMap {[ "id" := PInt id; "profile" := PBool true ]}))
      as (w & σ' & -> & Hst & Hcalls & Hresp); [done..|].
    by exists w, σ'.
  - rewrite requireMethods_refused by (by intros ?%list_elem_of_singleton).
    cbn [negb]. eexists _, σ. split; [done|]. split; [done|]. split; [done|].
    split; [by apply errorJSON_responds_fresh|done].
Qed.

Lemma profile_route_witness :
  let env := Env_default (TimeUTC 9) in
  let σ := {| store := (Create "ada" (TimeUTC 1) NewUserStore).2; calls := [] |} in
  parsePositiveInt "1" = (1, None) ∧
  ∃ w σ',
    HandleUserRoutes env NewResponseWriter (mkRequest "GET" "/users/1/profile" "") σ
    = (w, σ') ∧
    responds w 200 (PMap {[ "id" := PInt 1; "profile" := PBool true ]}).
Proof.
  intros env σ.
  assert (parsePositiveInt "1" = (1, None)) as Hparse by (vm_compute; reflexivity).
  split; [exact Hparse|].
  assert (segment "1") as Hseg by (split; [discriminate|reflexivity]).
  assert ("/users/1/profile" = users_path "1" ["profile"]) as Hpath by reflexivity.
  destruct (profile_route env (mkRequest "GET" "/users/1/profile" "") σ "1" 1
              Hpath Hseg Hparse) as (w & σ' & Hw & _ & Hresp).
  exists w, σ'. split; [exact Hw|]. exact (proj2 Hresp).
Defined.

(** X13. GET [/users/{id}/orders/{orderId}] with a valid id and an
    [orderId] that is not blank is answered 200 with
    [{"id": id, "orderId": o}], [o] being [orderId] with the white space
    around it removed, when the user is stored, and 404 "not_found" when it
    is not. The store is unchanged. *)
Theorem orders_route env r σ seg id o :
  Method r = "GET" →
  Path r = users_path seg ["orders"; o] →
  segment seg → segment o →
  parsePositiveInt seg = (id, None) →
  strings.TrimSpace o ≠ "" →
  ∃ w σ',
    HandleUserRoutes env NewResponseWriter r σ = (w, σ') ∧
    store σ' = store σ ∧
    calls σ' = calls σ ++ [CallGetUser id; CallGet id] ∧
    match items (store σ) !! id with
    | Some _ =>
        responds w 200
          (PMap {[ "id" := PInt id; "orderId" := PText (strings.TrimSpace o) ]})
    | None => responds w 404 (error_body "not_found" "resource not found" None)
    end.
Proof.
  intros Hget Hpath Hseg Ho Hparse Htrim.
  assert (Forall segment ["orders"; o]) as Hmore
    by (apply Forall_cons; split; [by split|by apply Forall_singleton]).
  rewrite (HandleUserRoutes_segments env _ r σ seg ["orders"; o] id Hpath Hseg)
    by done.
  cbv zeta. change (streq "orders" "orders") with true. cbv beta iota.
  rewrite requireMethods_allowed by (by apply list_elem_of_singleton).
  cbn [negb]. unfold streq at 1. rewrite bool_decide_eq_false_2 by done.
  by apply get_then_responds.
Qed.

Lemma orders_route_witness :
  let env := Env_default (TimeUTC 9) in
  let σ := {| store := (Create "ada" (TimeUTC 1) NewUserStore).2; calls := [] |} in
  parsePositiveInt "1" = (1, None) ∧ strings.TrimSpace " A7 " = "A7" ∧
  ∃ w σ',
    HandleUserRoutes env NewResponseWriter
      (mkRequest "GET" "/users/1/orders/ A7 " "") σ = (w, σ') ∧
    responds w 200 (PMap {[ "id" := PInt 1; "orderId" := PText "A7" ]}).
Proof.
  intros env σ.
  assert (parsePositiveInt "1" = (1, None)) as Hparse by (vm_compute; reflexivity).
  assert (strings.TrimSpace " A7 " = "A7") as Htrim by (vm_compute; reflexivity).
  split; [exact Hparse|]. split; [exact Htrim|].
  assert (segment "1") as Hseg by (split; [discriminate|reflexivity]).
  assert (segment " A7 ") as Ho by (split; [discriminate|reflexivity]).
  assert ("/users/1/orders/ A7 " = users_path "1" ["orders"; " A7 "]) as Hpath
    by reflexivity.
  assert (strings.TrimSpace " A7 " ≠ "") as Hne by (rewrite Htrim; discriminate).
  destruct (orders_route env (mkRequest "GET" "/users/1/orders/ A7 " "") σ "1" 1
              " A7 " eq_refl Hpath Hseg Ho Hparse Hne)
    as (w & σ' & Hw & _ & _ & Hresp).
  exists w, σ'. split; [exact Hw|]. rewrite Htrim in Hresp. exact Hresp.
Defined.

(** X14. Below [/users/{id}] with a valid id, a path that is neither
    [profile] nor [orders/{orderId}], such as [/users/1/orders] or
    [/users/1/a/b/c], is answered 404 "not_found" with the path in the
    details, whatever the method: no method check comes before, and the
    service is not called. *)
Theorem unknown_subpath_not_found env r σ seg id more :
  Path r = users_path seg more →
  segment seg → Forall segment more →
  parsePositiveInt seg = (id, None) →
  more ≠ [] → more ≠ ["profile"] → (∀ o, more ≠ ["orders"; o]) →
  ∃ w,
    HandleUserRoutes env NewResponseWriter r σ = (w, σ) ∧
    responds w 404
      (error_body "not_found" "resource not found"
         (Some (PMap {[ "path" := PText (Path r) ]}))).
Proof.
  intros Hpath Hseg Hmore Hparse Hnil Hprofile Horders.
  rewrite (HandleUserRoutes_segments env _ r σ seg more id Hpath Hseg) by done.
  cbv beta zeta. eexists.
  destruct more as [|x [|o [|y more]]]; [done| | |].
  - unfold streq. rewrite bool_decide_eq_false_2 by congruence.
    split; [done|]. by apply errorJSON_responds_fresh.
  - unfold streq at 1. rewrite bool_decide_eq_false_2 by (intros ->; by eapply Horders).
    split; [done|]. by apply errorJSON_responds_fresh.
  - split; [done|]. by apply errorJSON_responds_fresh.
Qed.

Lemma unknown_subpath_not_found_witness :
  parsePositiveInt "1" = (1, None) ∧
  ∃ w,
    HandleUserRoutes (Env_default (TimeUTC 9)) NewResponseWriter
      (mkRequest "PATCH" "/users/1/orders" "") {| store := NewUserStore; calls := [] |}
    = (w, {| store := NewUserStore; calls := [] |}) ∧
    responds w 404
      (error_body "not_found" "resource not found"
         (Some (PMap {[ "path" := PText "/users/1/orders" ]}))).
Proof.
  assert (parsePositiveInt "1" = (1, None)) as Hparse by (vm_compute; reflexivity).
  split; [exact Hparse|].
  assert (segment "1") as Hseg by (split; [discriminate|reflexivity]).
  assert (Forall segment ["orders"]) as Hmore
    by (repeat constructor; discriminate).
  assert ("/users/1/orders" = users_path "1" ["orders"]) as Hpath by reflexivity.
  exact (unknown_subpath_not_found (Env_default (TimeUTC 9))
           (mkRequest "PATCH" "/users/1/orders" "")
           {| store := NewUserStore; calls := [] |} "1" 1 ["orders"]
           Hpath Hseg Hmore Hparse ltac:(discriminate) ltac:(discriminate)
           ltac:(discriminate)).
Defined.

(** ** Reading a body *)

Lemma scan_blank step stack s :
  (∀ c, json.isSpace c = true → json.scan_step step stack c = json.Continue step stack) →
  nonSpace s = false →
  json.scan step stack s = json.Pending step stack.
Proof.
  intros Hskip. induction s as [|c s IH]; [done|]. cbn [nonSpace json.scan].
  intros [Hc Hs]%orb_false_elim. apply negb_false_iff in Hc.
  rewrite (Hskip c Hc). by apply IH.
Qed.

Lemma stateBeginValue_space stack c :
  json.isSpace c = true →
  json.scan_step json.BeginValue stack c = json.Continue json.BeginValue stack.
Proof. intros Hc. cbn. unfold json.stateBeginValue. by rewrite Hc. Qed.

(** [Decode] on a body that was read whole. *)
Lemma Decode_whole `{Unmarshal T} d (dst : T) :
  err d = None → rd_err d = io_EOF →
  match whole_value (buf d) with
  | Some (v, rest) =>
      Decode d dst =
      let '(dst', e) := unmarshal (disallowUnknownFields d) v dst in
      (dst', e, with_buf d rest)
  | None => ∃ e d', Decode d dst = (dst, Some e, d')
  end.
Proof.
  intros Herr Hrd. unfold whole_value, first_value, Decode, readValue.
  rewrite Herr, Hrd.
  destruct (json.scan _ _ _) as [v rest| |step stack]; [done|by eauto|].
  rewrite bool_decide_eq_true_2 by done.
  destruct (json.scan_step step stack " "); by eauto.
Qed.

(** [Decode] on a body that was cut at the limit returns a value only when
    the value is complete before the cut, and nothing then makes a further
    [Decode] return [io.EOF]. *)
Lemma Decode_cut `{Unmarshal T} d (dst dst' : T) d' :
  err d = None → rd_err d ≠ io_EOF →
  Decode d dst = (dst', None, d') →
  err d' = None ∧ rd_err d' ≠ io_EOF.
Proof.
  intros Herr Hrd Hdec.
  edestruct @Decode_ok as (Herr' & Hrd' & _); [|exact Hdec|]; [done|].
  split; [done|]. by rewrite Hrd'.
Qed.

Lemma Decode_emptyStruct_blank d :
  err d = None → rd_err d = io_EOF → nonSpace (buf d) = false →
  is_EOF (Decode d EmptyStruct).1.2 = true.
Proof.
  intros Herr Hrd Hns. unfold Decode, readValue. rewrite Herr, Hrd.
  rewrite (scan_blank json.BeginValue [] (buf d)) by (done || apply stateBeginValue_space).
  rewrite bool_decide_eq_true_2 by done. cbn. by rewrite Hns.
Qed.

Lemma readJSON_spelled `{Unmarshal T} w r (dst : T) :
  readJSON w r dst =
  let dec := DisallowUnknownFields
               (NewDecoder (MaxBytesReader (Body r) (Z.shiftl 1 20))) in
  match Decode dec dst with
  | (dst, Some e, _) => (dst, Some (Lib e))
  | (dst, None, dec) =>
      if negb (is_EOF (Decode dec EmptyStruct).1.2)
      then (dst, Some (Lib (errors_New "unexpected extra JSON content")))
      else (dst, None)
  end.
Proof.
  unfold readJSON. cbv zeta.
  destruct (Decode _ dst) as [[dst1 [e|]] dec1]; [done|].
  by destruct (Decode dec1 EmptyStruct) as [[? ?] ?].
Qed.

Lemma readJSON_accepts_iff `{Unmarshal T} w r (dst dst' : T) :
  readJSON w r dst = (dst', None) ↔
  Z.of_nat (String.length (Body r)) ≤ 2 ^ 20 ∧
  ∃ v rest,
    whole_value (Body r) = Some (v, rest) ∧
    nonSpace rest = false ∧
    unmarshal true v dst = (dst', None).
Proof.
  rewrite readJSON_spelled. cbv zeta.
  set (d := DisallowUnknownFields _).
  destruct (decide (Z.of_nat (String.length (Body r)) ≤ 2 ^ 20)) as [Hlen|Hlen].
  - assert (err d = None ∧ rd_err d = io_EOF ∧ buf d = Body r ∧
            disallowUnknownFields d = true) as (Herr & Hrd & Hbuf & Hdis).
    { unfold d. by rewrite (MaxBytesReader_within _ Hlen). }
    pose proof (Decode_whole d dst Herr Hrd) as Hdec. rewrite Hbuf, Hdis in Hdec.
    destruct (whole_value (Body r)) as [[v rest]|].
    + rewrite Hdec. destruct (unmarshal true v dst) as [dst1 [e|]] eqn:Hun.
      { split; [done|]. intros (_ & v' & rest' & [= <- <-] & _ & Hun').
        congruence. }
      destruct (nonSpace rest) eqn:Hns.
      * destruct (is_EOF _) eqn:Heof.
        { apply Decode_emptyStruct_EOF in Heof as [_ Hns']; [|done].
          cbn in Hns'. congruence. }
        split; [done|]. intros (_ & v' & rest' & [= <- <-] & ? & _). congruence.
      * rewrite Decode_emptyStruct_blank by done. cbn [negb]. split.
        -- intros [= ->]. split; [done|]. by exists v, rest.
        -- intros (_ & v' & rest' & [= <- <-] & _ & Hun'). congruence.
    + destruct Hdec as (e & d' & ->). split; [done|].
      by intros (_ & v & rest & [=] & _).
  - split; [|by intros [? _]]. intros Hread. exfalso.
    assert (err d = None ∧ rd_err d ≠ io_EOF) as [Herr Hrd].
    { unfold d. cbn. by rewrite MaxBytesReader_beyond by lia. }
    destruct (Decode d dst) as [[dst1 [e|]] d1] eqn:Hdec; [done|].
    destruct (Decode_cut d dst dst1 d1 Herr Hrd Hdec) as [Herr1 Hrd1].
    destruct (is_EOF _) eqn:Heof; [|done].
    by apply Decode_emptyStruct_EOF in Heof as [? _].
Qed.

(** X15. [readJSON] returns no error, and the destination filled as [dst'],
    exactly when the body is at most 1 MiB long, begins with one JSON value
    that the decoder stores into the destination without error (unknown
    fields being errors), and holds nothing but JSON white space after that
    value. This holds for every type of destination. *)
Theorem read_json_accepts `{Unmarshal T} w r (dst dst' : T) :
  readJSON w r dst = (dst', None) ↔
  Z.of_nat (String.length (Body r)) ≤ 2 ^ 20 ∧
  ∃ v rest,
    whole_value (Body r) = Some (v, rest) ∧
    nonSpace rest = false ∧
    unmarshal true v dst = (dst', None).
Proof. apply readJSON_accepts_iff. Qed.

(** ** The scanner on an object of two integers *)

Lemma json_blank_nonSpace ws : json_blank ws = true → nonSpace ws = false.
Proof.
  induction ws as [|c ws IH]; [done|]. cbn.
  intros [Hc Hws]%andb_prop. by rewrite Hc, IH.
Qed.

Lemma scan_cons step stack c s step' stack' :
  json.scan_step step stack c = json.Continue step' stack' →
  json.scan step stack (String c s) = json.scan step' stack' s.
Proof. intros Hstep. cbn [json.scan]. by rewrite Hstep. Qed.

Lemma scan_skip step stack ws s :
  (∀ c, json.isSpace c = true →
        json.scan_step step stack c = json.Continue step stack) →
  json_blank ws = true →
  json.scan step stack (ws +:+ s) = json.scan step stack s.
Proof.
  intros Hskip. induction ws as [|c ws IH]; [done|]. cbn [json_blank].
  intros [Hc Hws]%andb_prop. rewrite string_app_cons.
  rewrite (scan_cons _ _ _ _ _ _ (Hskip c Hc)). by apply IH.
Qed.

Lemma skip_BeginString stack c :
  json.isSpace c = true →
  json.scan_step json.BeginString stack c = json.Continue json.BeginString stack.
Proof. intros Hc. cbn. unfold json.stateBeginString. by rewrite Hc. Qed.

Lemma skip_BeginStringOrEmpty stack c :
  json.isSpace c = true →
  json.scan_step json.BeginStringOrEmpty stack c
  = json.Continue json.BeginStringOrEmpty stack.
Proof. intros Hc. cbn. by rewrite Hc. Qed.

Lemma skip_EndValue stack c :
  json.isSpace c = true →
  json.scan_step json.EndValue stack c = json.Continue json.EndValue stack.
Proof. intros Hc. cbn. unfold json.stateEndValue. by rewrite Hc. Qed.

(** A digit from 1 to 9 begins a number. *)
Lemma stateBeginValue_digit stack c :
  between 49 57 (byte c) = true →
  json.scan_step json.BeginValue stack c
  = json.Continue (json.State1 (String c "")) stack.
Proof.
  intros H. destruct c as [[] [] [] [] [] [] [] []];
    vm_compute in H; try discriminate H; reflexivity.
Qed.

Lemma Neg_digit stack lit c :
  between 49 57 (byte c) = true →
  json.scan_step (json.Neg lit) stack c
  = json.Continue (json.State1 (String c lit)) stack.
Proof.
  intros H. destruct c as [[] [] [] [] [] [] [] []];
    vm_compute in H; try discriminate H; reflexivity.
Qed.

Lemma State1_digit stack lit c :
  between 48 57 (byte c) = true →
  json.scan_step (json.State1 lit) stack c
  = json.Continue (json.State1 (String c lit)) stack.
Proof. intros H. cbn. unfold json.isDigit. by rewrite H. Qed.

(** White space ends a number. *)
Lemma number_ends_at_space lit f st c :
  json.isSpace c = true →
  json.scan_step (json.State1 lit) (f :: st) c
  = json.Continue json.EndValue (json.value_done (json.number lit) (f :: st)).2 ∧
  json.scan_step (json.State0 lit) (f :: st) c
  = json.Continue json.EndValue (json.value_done (json.number lit) (f :: st)).2.
Proof.
  intros H.
  assert (json.stateEndValue (json.value_done (json.number lit) (f :: st)).2 c
          = json.Continue json.EndValue
              (json.value_done (json.number lit) (f :: st)).2) as Hend
    by (unfold json.stateEndValue; by rewrite H).
  destruct c as [[] [] [] [] [] [] [] []];
    vm_compute in H; try discriminate H; split; exact Hend.
Qed.

(** So does a comma or a closing brace. *)
Lemma number_ends_at_mark lit f st p s :
  p = ","%char ∨ p = "}"%char →
  json.scan (json.State1 lit) (f :: st) (String p s)
  = json.scan json.EndValue (json.value_done (json.number lit) (f :: st)).2
      (String p s) ∧
  json.scan (json.State0 lit) (f :: st) (String p s)
  = json.scan json.EndValue (json.value_done (json.number lit) (f :: st)).2
      (String p s).
Proof. by intros [-> | ->]. Qed.

Lemma number_ends lit f st ws p s :
  json_blank ws = true →
  p = ","%char ∨ p = "}"%char →
  json.scan (json.State1 lit) (f :: st) (ws +:+ String p s)
  = json.scan json.EndValue (json.value_done (json.number lit) (f :: st)).2
      (String p s) ∧
  json.scan (json.State0 lit) (f :: st) (ws +:+ String p s)
  = json.scan json.EndValue (json.value_done (json.number lit) (f :: st)).2
      (String p s).
Proof.
  intros Hws Hp. destruct ws as [|c ws]; [by apply number_ends_at_mark|].
  cbn [json_blank] in Hws. apply andb_prop in Hws as [Hc Hws].
  rewrite string_app_cons.
  destruct (number_ends_at_space lit f st c Hc) as [H1 H0].
  rewrite (scan_cons _ _ _ _ _ _ H1), (scan_cons _ _ _ _ _ _ H0).
  by rewrite scan_skip by (done || apply skip_EndValue).
Qed.

Lemma scan_digits lit stack r s a v :
  digits_from a r = Some v →
  json.scan (json.State1 lit) stack (r +:+ s)
  = json.scan (json.State1 (String.rev r +:+ lit)) stack s.
Proof.
  revert lit a. induction r as [|d r IH]; intros lit a Hr; [done|].
  cbn [digits_from] in Hr. destruct (between 48 57 (byte d)) eqn:Hd; [|done].
  rewrite string_app_cons, (scan_cons _ _ _ _ _ _ (State1_digit _ _ _ Hd)).
  rewrite (IH _ _ Hr), string_rev_cons, string_app_assoc. done.
Qed.

(** The decimal form of a positive number begins with a digit from 1 to
    9. *)
Lemma decimal_go_head fuel n acc :
  0 < n < 2 ^ Z.of_nat fuel →
  ∃ c r, decimal_go fuel n acc = String c r ∧ between 49 57 (byte c) = true.
Proof.
  revert n acc. induction fuel as [|fuel IH]; intros n acc Hn.
  { cbn in Hn. lia. }
  cbn [decimal_go]. destruct (n <? 10) eqn:Hlt.
  - apply Z.ltb_lt in Hlt. eexists _, _. split; [done|].
    rewrite byte_char by (rewrite Z.mod_small by lia; lia).
    rewrite Z.mod_small by lia. unfold between. apply andb_true_intro.
    split; [apply Z.leb_le|apply Z.leb_le]; lia.
  - apply Z.ltb_ge in Hlt. apply IH.
    rewrite Nat2Z.inj_succ, Z.pow_succ_r in Hn by lia.
    split; [apply Z.div_str_pos; lia|apply Z.div_lt_upper_bound; lia].
Qed.

Lemma decimal_head n :
  0 < n → ∃ c r, decimal n = String c r ∧ between 49 57 (byte c) = true.
Proof.
  intros Hn. apply decimal_go_head. split; [done|].
  rewrite Nat2Z.inj_succ, Z2Nat.id by apply Z.log2_nonneg.
  apply Z.log2_spec. done.
Qed.

Lemma between_digit c :
  between 49 57 (byte c) = true → between 48 57 (byte c) = true.
Proof.
  unfold between. intros [H1 H2]%andb_prop. apply Z.leb_le in H1.
  apply andb_true_intro. split; [apply Z.leb_le; lia|done].
Qed.

(** The scanner reads [json_int x] as one number. *)
Lemma scan_json_int f st x ws p s :
  json_blank ws = true →
  p = ","%char ∨ p = "}"%char →
  json.scan json.BeginValue (f :: st) (json_int x +:+ ws +:+ String p s)
  = json.scan json.EndValue
      (json.value_done (JNumber (json_int x)) (f :: st)).2 (String p s).
Proof.
  intros Hws Hp. unfold json_int.
  assert (∀ lit m, 0 < m →
    ∃ c r, decimal m = String c r ∧ between 49 57 (byte c) = true ∧
      json.scan (json.State1 (String c lit)) (f :: st) (r +:+ ws +:+ String p s)
      = json.scan json.EndValue
          (json.value_done (JNumber (String.rev lit +:+ decimal m)) (f :: st)).2
          (String p s)) as Hpos.
  { intros lit m Hm. destruct (decimal_head m Hm) as (c & r & Hdec & Hc).
    exists c, r. split; [done|]. split; [done|].
    pose proof (decimal_value m ltac:(lia)) as Hval. rewrite Hdec in Hval.
    unfold digits_value in Hval. cbn [digits_from] in Hval.
    rewrite (between_digit c Hc) in Hval.
    rewrite (scan_digits _ _ _ _ _ _ Hval).
    destruct (number_ends (String.rev r +:+ String c lit) f st ws p s Hws Hp)
      as [-> _].
    unfold json.number. rewrite string_rev_app, string_rev_involutive.
    rewrite string_rev_cons, string_app_assoc, Hdec. done. }
  destruct (x <? 0) eqn:Hneg; [apply Z.ltb_lt in Hneg|apply Z.ltb_ge in Hneg].
  - rewrite string_app_cons.
    rewrite (scan_cons _ _ _ _ (json.Neg "-") (f :: st)) by done.
    destruct (Hpos "-" (- x) ltac:(lia)) as (c & r & Hdec & Hc & Hscan).
    rewrite Hdec at 1. rewrite string_app_cons.
    rewrite (scan_cons _ _ _ _ _ _ (Neg_digit _ _ _ Hc)). exact Hscan.
  - destruct (decide (x = 0)) as [->|Hx].
    + change (decimal 0) with "0". rewrite string_app_cons, string_app_nil_l.
      rewrite (scan_cons _ _ _ _ (json.State0 "0") (f :: st)) by done.
      by destruct (number_ends "0" f st ws p s Hws Hp) as [_ ->].
    + destruct (Hpos "" x ltac:(lia)) as (c & r & Hdec & Hc & Hscan).
      rewrite Hdec at 1. rewrite string_app_cons.
      rewrite (scan_cons _ _ _ _ _ _ (stateBeginValue_digit _ _ Hc)). exact Hscan.
Qed.

Lemma whole_value_ab_body ws x y :
  json_blank ws = true →
  whole_value (ab_body ws x y)
  = Some (JObject [("a", JNumber (json_int x)); ("b", JNumber (json_int y))], ws).
Proof.
  intros Hws. unfold whole_value, first_value, ab_body. cbv zeta.
  rewrite !string_app_cons, !string_app_nil_l.
  rewrite scan_skip by (done || apply stateBeginValue_space).
  rewrite (scan_cons _ _ _ _ json.BeginStringOrEmpty [json.FObjKey []]) by done.
  rewrite scan_skip by (done || apply skip_BeginStringOrEmpty).
  rewrite (scan_cons _ _ _ _ (json.InString "") [json.FObjKey []]) by done.
  rewrite (scan_cons _ _ _ _ (json.InString "a") [json.FObjKey []]) by done.
  rewrite (scan_cons _ _ _ _ json.EndValue [json.FObjColon [] "a"]) by done.
  rewrite scan_skip by (done || apply skip_EndValue).
  rewrite (scan_cons _ _ _ _ json.BeginValue [json.FObjValue [] "a"]) by done.
  rewrite scan_skip by (done || apply stateBeginValue_space).
  rewrite scan_json_int by (done || by left). cbn [json.value_done snd].
  rewrite (scan_cons _ _ _ _ json.BeginString
             [json.FObjKey [("a", JNumber (json_int x))]]) by done.
  rewrite scan_skip by (done || apply skip_BeginString).
  rewrite (scan_cons _ _ _ _ (json.InString "")
             [json.FObjKey [("a", JNumber (json_int x))]]) by done.
  rewrite (scan_cons _ _ _ _ (json.InString "b")
             [json.FObjKey [("a", JNumber (json_int x))]]) by done.
  rewrite (scan_cons _ _ _ _ json.EndValue
             [json.FObjColon [("a", JNumber (json_int x))] "b"]) by done.
  rewrite scan_skip by (done || apply skip_EndValue).
  rewrite (scan_cons _ _ _ _ json.BeginValue
             [json.FObjValue [("a", JNumber (json_int x))] "b"]) by done.
  rewrite scan_skip by (done || apply stateBeginValue_space).
  rewrite scan_json_int by (done || by right). done.
Qed.

Lemma ParseInt_json_int x :
  int_min ≤ x ≤ int_max → strconv.ParseInt (json_int x) = (x, None).
Proof.
  intros Hx. apply (proj2 (Atoi_spec (json_int x) x)). split; [|done].
  unfold json_int, numeral.
  destruct (x <? 0) eqn:Hneg; [apply Z.ltb_lt in Hneg|apply Z.ltb_ge in Hneg].
  - exists "-", (decimal (- x)), (- x). split; [done|].
    split; [by destruct (decimal_cons (- x)) as (c & r & ->)|].
    split; [apply decimal_value; lia|]. right; right. split; [done|lia].
  - exists "", (decimal x), x. split; [done|].
    split; [by destruct (decimal_cons x) as (c & r & ->)|].
    split; [by apply decimal_value|]. by left.
Qed.

Lemma store_int_ptr_json_int x cur :
  int_min ≤ x ≤ int_max →
  store_int_ptr (JNumber (json_int x)) cur = (Some x, None).
Proof. intros Hx. unfold store_int_ptr. by rewrite ParseInt_json_int. Qed.

Lemma ab_body_fits ws x y :
  Z.of_nat (String.length (ab_body ws x y)) ≤ 2 ^ 20 →
  MaxBytesReader (ab_body ws x y) (Z.shiftl 1 20)
  = {| data := ab_body ws x y; at_end := io_EOF |}.
Proof. apply MaxBytesReader_within. Qed.

Lemma int_wrap_bounds z : int_min ≤ int_wrap z ≤ int_max.
Proof.
  unfold int_wrap, int_max, int_min, int_bits.
  pose proof (Z.mod_pos_bound (z - - 2 ^ (64 - 1)) (2 ^ 64) ltac:(lia)). lia.
Qed.

(** X16. A POST to [/sum] with the body [{"a": x, "b": y}], any JSON white
    space between the tokens, [x] and [y] integers in the range of [int]
    written in decimal, the body at most 1 MiB long, is answered 200 with
    [{"result": x + y}], the sum computed as an [int]: it is [x + y] when
    that is in range and wraps around when it is not. *)
Theorem sum_route r ws x y :
  Method r = "POST" →
  Body r = ab_body ws x y →
  json_blank ws = true →
  int_min ≤ x ≤ int_max → int_min ≤ y ≤ int_max →
  Z.of_nat (String.length (Body r)) ≤ 2 ^ 20 →
  responds (HandleSum NewResponseWriter r) 200
    (PMap {[ "result" := PInt (int_wrap (x + y)) ]}) ∧
  int_min ≤ int_wrap (x + y) ≤ int_max ∧
  (int_min ≤ x + y ≤ int_max → int_wrap (x + y) = x + y).
Proof.
  intros Hpost Hbody Hws Hx Hy Hlen.
  split; [|split; [apply int_wrap_bounds|apply int_wrap_in_range]].
  unfold HandleSum, requireMethod. rewrite Hpost.
  change (streq "POST" MethodPost) with true. cbn [negb].
  assert (readJSON NewResponseWriter r {| sum_A := None; sum_B := None |}
          = ({| sum_A := Some x; sum_B := Some y |}, None)) as ->.
  { apply readJSON_accepts_iff. split; [done|]. rewrite Hbody.
    eexists _, ws. split; [by apply whole_value_ab_body|].
    split; [by apply json_blank_nonSpace|].
    unfold unmarshal, Unmarshal_sumRequest. cbn [foldl fst snd].
    change (field_matches "a" "a") with true. cbv iota.
    rewrite store_int_ptr_json_int by done. cbv beta iota. cbn [fst snd].
    change (field_matches "b" "a") with false.
    change (field_matches "b" "b") with true. cbv iota.
    by rewrite store_int_ptr_json_int. }
  by apply writeJSON_responds_fresh.
Qed.

(** X17. A POST to [/mul] with the body [{"a": x, "b": y}], as for [/sum],
    is answered 200 with [{"result": x * y}], the product computed as an
    [int]: it is [x * y] when that is in range and wraps around when it is
    not. *)
Theorem mul_route r ws x y :
  Method r = "POST" →
  Body r = ab_body ws x y →
  json_blank ws = true →
  int_min ≤ x ≤ int_max → int_min ≤ y ≤ int_max →
  Z.of_nat (String.length (Body r)) ≤ 2 ^ 20 →
  responds (HandleMul NewResponseWriter r) 200
    (PMap {[ "result" := PInt (int_wrap (x * y)) ]}) ∧
  int_min ≤ int_wrap (x * y) ≤ int_max ∧
  (int_min ≤ x * y ≤ int_max → int_wrap (x * y) = x * y).
Proof.
  intros Hpost Hbody Hws Hx Hy Hlen.
  split; [|split; [apply int_wrap_bounds|apply int_wrap_in_range]].
  unfold HandleMul, requireMethod. rewrite Hpost.
  change (streq "POST" MethodPost) with true. cbn [negb].
  assert (readJSON NewResponseWriter r {| mul_A := None; mul_B := None |}
          = ({| mul_A := Some x; mul_B := Some y |}, None)) as ->.
  { apply readJSON_accepts_iff. split; [done|]. rewrite Hbody.
    eexists _, ws. split; [by apply whole_value_ab_body|].
    split; [by apply json_blank_nonSpace|].
    unfold unmarshal, Unmarshal_mulRequest. cbn [foldl fst snd].
    change (field_matches "a" "a") with true. cbv iota.
    rewrite store_int_ptr_json_int by done. cbv beta iota. cbn [fst snd].
    change (field_matches "b" "a") with false.
    change (field_matches "b" "b") with true. cbv iota.
    by rewrite store_int_ptr_json_int. }
  by apply writeJSON_responds_fresh.
Qed.

Lemma sum_route_witness :
  let r := mkRequest "POST" "/sum" (ab_body " " int_max 1) in
  responds (HandleSum NewResponseWriter r) 200 (PMap {[ "result" := PInt int_min ]}).
Proof.
  intros r.
  assert (json_blank " " = true) as Hws by reflexivity.
  assert (int_min ≤ int_max ≤ int_max) as Hx by (split; discriminate).
  assert (int_min ≤ 1 ≤ int_max) as Hy by (split; discriminate).
  assert (Z.of_nat (String.length (Body r)) ≤ 2 ^ 20) as Hlen
    by (vm_compute; discriminate).
  exact (proj1 (sum_route r " " int_max 1 eq_refl eq_refl Hws Hx Hy Hlen)).
Defined.

Lemma mul_route_witness :
  let r := mkRequest "POST" "/mul" (ab_body "" (-6) 7) in
  responds (HandleMul NewResponseWriter r) 200 (PMap {[ "result" := PInt (-42) ]}).
Proof.
  intros r.
  assert (json_blank "" = true) as Hws by reflexivity.
  assert (int_min ≤ -6 ≤ int_max) as Hx by (split; discriminate).
  assert (int_min ≤ 7 ≤ int_max) as Hy by (split; discriminate).
  assert (Z.of_nat (String.length (Body r)) ≤ 2 ^ 20) as Hlen
    by (vm_compute; discriminate).
  exact (proj1 (mul_route r "" (-6) 7 eq_refl eq_refl Hws Hx Hy Hlen)).
Defined.

Lemma requireMethod_refused w r method :
  Method r ≠ method →
  StatusCode w = None → Written w = [] →
  ∃ w', requireMethod w r method = (false, w') ∧
        responds w' 405
          (error_body "method_not_allowed" "method not allowed"
             (Some (PMap {[ "method" := PText (Method r);
                            "allow" := PText method ]}))) ∧
        Header w' !! "Allow" = Header w !! "Allow".
Proof.
  intros Hm Hst Hwr. unfold requireMethod, streq.
  rewrite bool_decide_eq_false_2 by done. eexists. split; [done|].
  split; [by apply errorJSON_responds_fresh|].
  unfold errorJSON, writeJSON, Encode, WriteHeader, Header_Set. cbn.
  by rewrite lookup_insert_ne.
Qed.

(** X18. The handlers of [/health], [/sum] and [/mul] answer every method
    but POST, GET included, with 405 "method_not_allowed"; the details name
    the method of the request and "POST" as the one allowed. Unlike
    [requireMethods], [requireMethod] sets no [Allow] header. *)
Theorem post_only_routes r h :
  h ∈ [HandleHealth; HandleSum; HandleMul] →
  Method r ≠ "POST" →
  responds (h NewResponseWriter r) 405
    (error_body "method_not_allowed" "method not allowed"
       (Some (PMap {[ "method" := PText (Method r); "allow" := PText "POST" ]}))) ∧
  Header (h NewResponseWriter r) !! "Allow" = None.
Proof.
  intros Hh Hm.
  destruct (requireMethod_refused NewResponseWriter r MethodPost Hm)
    as (w' & Hreq & Hresp & Hallow); [done..|].
  assert (h NewResponseWriter r = w') as ->; [|by rewrite Hallow].
  repeat (apply elem_of_cons in Hh as [->|Hh]);
    [| | |by apply elem_of_nil in Hh];
    unfold HandleHealth, HandleSum, HandleMul; by rewrite Hreq.
Qed.

Lemma post_only_routes_witness :
  responds (HandleHealth NewResponseWriter (mkRequest "GET" "/health" "")) 405
    (error_body "method_not_allowed" "method not allowed"
       (Some (PMap {[ "method" := PText "GET"; "allow" := PText "POST" ]}))).
Proof.
  assert (HandleHealth ∈ [HandleHealth; HandleSum; HandleMul]) as Hh
    by (apply elem_of_cons; by left).
  assert ("GET" ≠ "POST") as Hm by discriminate.
  exact (proj1 (post_only_routes (mkRequest "GET" "/health" "") HandleHealth Hh Hm)).
Defined.

(** X19. The handler of [/] checks no method. The path [/] is answered 200;
    any other path that the mux sends to it is answered 404 with
    [{"error": "not_found", "path": path}], which is not an error object of
    [errorJSON]: it has no "message". *)
Theorem root_route r :
  ∃ status payload,
    responds (HandleRoot NewResponseWriter r) status payload ∧
    (Path r = "/" → status = 200) ∧
    (Path r ≠ "/" →
     status = 404 ∧
     payload = PMap {[ "error" := PText "not_found"; "path" := PText (Path r) ]} ∧
     ∀ code message details, payload ≠ error_body code message details).
Proof.
  unfold HandleRoot, streq. case_bool_decide as Hpath; cbn [negb].
  - eexists 200, _. split; [by apply writeJSON_responds_fresh|]. by split.
  - eexists 404, _. split; [by apply writeJSON_responds_fresh|].
    split; [done|]. intros _. split; [done|]. split; [done|].
    intros code message details. unfold error_body.
    destruct details as [d|]; intros Heq;
      apply (f_equal (λ p, match p with
                           | PMap m => m !! "message"
                           | _ => None
                           end)) in Heq;
      by vm_compute in Heq.
Qed.
